(** * The VDM model class of BSMPT: curvature tensors, reparametrisation,
      counterterms and lifecycle gates

    Shallow embedding of [src/models/ClassPotentialVDM.cpp].

    Numbers.  The C++ [double] members are modelled by the real numbers of
    the Standard Library: every statement below is about the exact
    arithmetic that the floating-point code approximates.  Division is the
    total division of [R]; the code performs no divisor test anywhere, and
    neither does the model.  Where a divisor is zero the code stores an
    infinity or a NaN, which the reals do not have: what is stated of a
    stored quotient is stated for nonzero divisors.

    Scope.  The Higgs-sector members of the class are modelled in full, as
    members of the instance.  The gauge and Yukawa tensors
    ([Curvature_Gauge_G2H2], [Curvature_Lepton_F2H1], [Curvature_Quark_F2H1])
    are written by [SetCurvatureArrays] and read by no other operation of the
    class; they are modelled on their own, as functions of the constants and
    members their assignments read.  The command line of
    [src/prog/PlotEWBG_mu.cpp] and the scale factors of its loop close the
    development. *)

From Stdlib Require Import String Ascii Reals Lra Lia Bool Arith List Permutation.
Import ListNotations.

Open Scope R_scope.

(** ** Exceptions *)

(** A member function either returns or throws; [what] is the message of the
    exception ([std::runtime_error], or [std::out_of_range] from [at]). *)
Inductive result (A : Type) : Type :=
| Ok (a : A)
| Throw (what : string).

Arguments Ok {A} a.
Arguments Throw {A} what.

Definition bind {A B : Type} (m : result A) (k : A -> result B) : result B :=
  match m with
  | Ok a => k a
  | Throw w => Throw w
  end.

Notation "x <- m ;; k" := (bind m (fun x => k))
  (at level 61, m at next level, right associativity).

Fixpoint mapM {A B : Type} (f : A -> result B) (l : list A) : result (list B) :=
  match l with
  | [] => Ok []
  | a :: l' => b <- f a ;; bs <- mapM f l' ;; Ok (b :: bs)
  end.

Definition throws {A : Type} (m : result A) : Prop :=
  exists what, m = Throw what.

Definition returns {A : Type} (m : result A) : Prop :=
  exists a, m = Ok a.

(** ** Vectors of doubles *)

(** [std::vector<double>::at]: bounds-checked read. *)
Definition at_ (vec : list R) (i : nat) : result R :=
  match nth_error vec i with
  | Some x => Ok x
  | None => Throw "vector::_M_range_check"
  end.

(** [operator[]]: unchecked read.  In range it is the element.  Out of
    range the code has undefined behaviour; the [0] that the model returns
    there stands for nothing the code does. *)
Definition idx (vec : list R) (i : nat) : R := nth i vec 0.

(** [vec[i] = x]: unchecked write; out of range the model leaves [vec] as it
    is. *)
Fixpoint set_idx (vec : list R) (i : nat) (x : R) : list R :=
  match vec, i with
  | [], _ => []
  | _ :: t, O => x :: t
  | h :: t, S i' => h :: set_idx t i' x
  end.

(** ** Curvature tensors *)

(** A rank-k tensor is a [NHiggs]-extent nested vector, zero-initialised by
    [initVectors] and then written entry by entry.  It is modelled by its
    read function; a write changes the function at one index tuple. *)
Definition tensor1 : Type := nat -> R.
Definition tensor2 : Type := nat -> nat -> R.
Definition tensor3 : Type := nat -> nat -> nat -> R.
Definition tensor4 : Type := nat -> nat -> nat -> nat -> R.

Definition zero1 : tensor1 := fun _ => 0.
Definition zero2 : tensor2 := fun _ _ => 0.
Definition zero3 : tensor3 := fun _ _ _ => 0.
Definition zero4 : tensor4 := fun _ _ _ _ => 0.

(** One assignment statement [T[i] = x], [T[i][j] = x], [T[i][j][k][l] = x]. *)
Record entry1 : Type := E1 { e1_i : nat; e1_x : R }.
Record entry2 : Type := E2 { e2_i : nat; e2_j : nat; e2_x : R }.
Record entry4 : Type :=
  E4 { e4_i : nat; e4_j : nat; e4_k : nat; e4_l : nat; e4_x : R }.

Definition store1 (T : tensor1) (e : entry1) : tensor1 :=
  fun i => if Nat.eqb i (e1_i e) then e1_x e else T i.

Definition store2 (T : tensor2) (e : entry2) : tensor2 :=
  fun i j =>
    if Nat.eqb i (e2_i e) && Nat.eqb j (e2_j e) then e2_x e else T i j.

Definition store4 (T : tensor4) (e : entry4) : tensor4 :=
  fun i j k l =>
    if Nat.eqb i (e4_i e) && Nat.eqb j (e4_j e)
       && Nat.eqb k (e4_k e) && Nat.eqb l (e4_l e)
    then e4_x e else T i j k l.

(** A block of assignment statements, executed top to bottom. *)
Definition assign1 (T : tensor1) (es : list entry1) : tensor1 :=
  fold_left store1 es T.
Definition assign2 (T : tensor2) (es : list entry2) : tensor2 :=
  fold_left store2 es T.
Definition assign4 (T : tensor4) (es : list entry4) : tensor4 :=
  fold_left store4 es T.

(** ** The model object *)

(** The one Standard-Model constant read by the Higgs sector of this model
    ([BSMPT/models/SMparam.h] is not part of the sources at hand, so its
    value is a parameter). *)
Record ISMConstants : Type := { C_vev0 : R }.

Definition NNeutralHiggs : nat := 4.
Definition NChargedHiggs : nat := 2.
Definition nPar : nat := 6.
Definition nParCT : nat := 11.
Definition nVEV : nat := 2.
Definition NHiggs : nat := NNeutralHiggs + NChargedHiggs.
Definition NGauge : nat := 5.
Definition VevOrder : list nat := [2%nat; 4%nat].

Record Class_VDM : Type := {
  SMConstants : ISMConstants;
  UseIndexCol : bool;
  SetCurvatureDone : bool;
  CalcCouplingsdone : bool;
  MH1 : R; MH2 : R; MX : R; alpha : R; v : R; gX : R; vs : R;
  lambdaH : R; kappa : R; lambdaS : R; muHSq : R; muSSq : R;
  scale : R;
  vevTreeMin : list R;
  vevTree : list R;
  HiggsVev : list R;
  dmuHSq : R; dlambdaH : R; dkappa : R; dmuSSq : R; dlambdaS : R;
  dT1 : R; dT2 : R; dT3 : R; dT4 : R; dT5 : R; dT6 : R;
  Curvature_Higgs_L1 : tensor1;
  Curvature_Higgs_L2 : tensor2;
  Curvature_Higgs_L3 : tensor3;
  Curvature_Higgs_L4 : tensor4;
  Curvature_Higgs_CT_L1 : tensor1;
  Curvature_Higgs_CT_L2 : tensor2;
  Curvature_Higgs_CT_L3 : tensor3;
  Curvature_Higgs_CT_L4 : tensor4;
  HiggsRotationMatrix : tensor2;
  LambdaHiggs_3 : tensor3;
  LambdaHiggs_3_CT : tensor3;
  TripleHiggsCorrectionsCWPhysical : tensor3;
  TripleHiggsCorrectionsTreePhysical : tensor3;
  TripleHiggsCorrectionsCTPhysical : tensor3
}.

Arguments Curvature_Higgs_L1 _ _%_nat.
Arguments Curvature_Higgs_L2 _ (_ _)%_nat.
Arguments Curvature_Higgs_L3 _ (_ _ _)%_nat.
Arguments Curvature_Higgs_L4 _ (_ _ _ _)%_nat.
Arguments Curvature_Higgs_CT_L1 _ _%_nat.
Arguments Curvature_Higgs_CT_L2 _ (_ _)%_nat.
Arguments Curvature_Higgs_CT_L3 _ (_ _ _)%_nat.
Arguments Curvature_Higgs_CT_L4 _ (_ _ _ _)%_nat.

(** [Class_VDM::Class_VDM]: a freshly constructed instance.  Both gates are
    down, no vector has been sized yet, and the numeric members (which the
    constructor does not touch) are taken to be zero. *)
Definition Class_VDM_new (smConstants : ISMConstants) : Class_VDM :=
  {| SMConstants := smConstants; UseIndexCol := false;
     SetCurvatureDone := false; CalcCouplingsdone := false;
     MH1 := 0; MH2 := 0; MX := 0; alpha := 0; v := 0; gX := 0; vs := 0;
     lambdaH := 0; kappa := 0; lambdaS := 0; muHSq := 0; muSSq := 0;
     scale := 0; vevTreeMin := []; vevTree := []; HiggsVev := [];
     dmuHSq := 0; dlambdaH := 0; dkappa := 0; dmuSSq := 0; dlambdaS := 0;
     dT1 := 0; dT2 := 0; dT3 := 0; dT4 := 0; dT5 := 0; dT6 := 0;
     Curvature_Higgs_L1 := zero1; Curvature_Higgs_L2 := zero2;
     Curvature_Higgs_L3 := zero3; Curvature_Higgs_L4 := zero4;
     Curvature_Higgs_CT_L1 := zero1; Curvature_Higgs_CT_L2 := zero2;
     Curvature_Higgs_CT_L3 := zero3; Curvature_Higgs_CT_L4 := zero4;
     HiggsRotationMatrix := zero2; LambdaHiggs_3 := zero3;
     LambdaHiggs_3_CT := zero3;
     TripleHiggsCorrectionsCWPhysical := zero3;
     TripleHiggsCorrectionsTreePhysical := zero3;
     TripleHiggsCorrectionsCTPhysical := zero3 |}.

(** The caller-side switch for the leading index column (the base class
    sets it from the legend line). *)
Definition setUseIndexCol (b : bool) (s : Class_VDM) : Class_VDM :=
  {| SMConstants := SMConstants s; UseIndexCol := b;
     SetCurvatureDone := SetCurvatureDone s;
     CalcCouplingsdone := CalcCouplingsdone s; MH1 := MH1 s; MH2 := MH2 s;
     MX := MX s; alpha := alpha s; v := v s; gX := gX s; vs := vs s;
     lambdaH := lambdaH s; kappa := kappa s; lambdaS := lambdaS s;
     muHSq := muHSq s; muSSq := muSSq s; scale := scale s;
     vevTreeMin := vevTreeMin s; vevTree := vevTree s;
     HiggsVev := HiggsVev s; dmuHSq := dmuHSq s; dlambdaH := dlambdaH s;
     dkappa := dkappa s; dmuSSq := dmuSSq s; dlambdaS := dlambdaS s;
     dT1 := dT1 s; dT2 := dT2 s; dT3 := dT3 s; dT4 := dT4 s; dT5 := dT5 s;
     dT6 := dT6 s; Curvature_Higgs_L1 := Curvature_Higgs_L1 s;
     Curvature_Higgs_L2 := Curvature_Higgs_L2 s;
     Curvature_Higgs_L3 := Curvature_Higgs_L3 s;
     Curvature_Higgs_L4 := Curvature_Higgs_L4 s;
     Curvature_Higgs_CT_L1 := Curvature_Higgs_CT_L1 s;
     Curvature_Higgs_CT_L2 := Curvature_Higgs_CT_L2 s;
     Curvature_Higgs_CT_L3 := Curvature_Higgs_CT_L3 s;
     Curvature_Higgs_CT_L4 := Curvature_Higgs_CT_L4 s;
     HiggsRotationMatrix := HiggsRotationMatrix s;
     LambdaHiggs_3 := LambdaHiggs_3 s;
     LambdaHiggs_3_CT := LambdaHiggs_3_CT s;
     TripleHiggsCorrectionsCWPhysical := TripleHiggsCorrectionsCWPhysical s;
     TripleHiggsCorrectionsTreePhysical := TripleHiggsCorrectionsTreePhysical s;
     TripleHiggsCorrectionsCTPhysical := TripleHiggsCorrectionsCTPhysical s |}.

(** ** Legends *)

Definition addLegendCT : list string :=
  ["dmuHSq"; "dlambdaH"; "dmuSSq"; "dlambdaS"; "dkappa";
   "dT1"; "dT2"; "dT3"; "dT4"; "dT5"; "dT6"]%string.

Definition addLegendTemp : list string :=
  ["T_c"; "v_c"; "omega_c/T_c"; "omega_c"; "omega_sc"]%string.

Definition addLegendVEV : list string :=
  ["omega"; "omega_s"]%string.

(** ** Base-class helpers *)

Fixpoint index_of (i : nat) (order : list nat) : option nat :=
  match order with
  | [] => None
  | o :: rest =>
      if Nat.eqb i o then Some O
      else option_map S (index_of i rest)
  end.

(** Modelled from the spec: [MinimizeOrderVEV] belongs to the base class,
    which is not among the sources.  The VEV configuration is a sequence of
    length [NHiggs] that is nonzero only at the positions designated by
    [VevOrder], where it carries the reduced VEV directions in order. *)
Definition MinimizeOrderVEV (vevminimizer : list R) : list R :=
  map (fun i => match index_of i VevOrder with
                | Some count => idx vevminimizer count
                | None => 0
                end)
      (seq 0 NHiggs).

(** Modelled from the spec: [initVectors] belongs to the base class.  It
    sizes every curvature tensor and [HiggsVev] to extent [NHiggs] with all
    entries zero (absent entries are zero). *)
Definition initVectors (s : Class_VDM) : Class_VDM :=
  {| SMConstants := SMConstants s; UseIndexCol := UseIndexCol s;
     SetCurvatureDone := SetCurvatureDone s;
     CalcCouplingsdone := CalcCouplingsdone s; MH1 := MH1 s; MH2 := MH2 s;
     MX := MX s; alpha := alpha s; v := v s; gX := gX s; vs := vs s;
     lambdaH := lambdaH s; kappa := kappa s; lambdaS := lambdaS s;
     muHSq := muHSq s; muSSq := muSSq s; scale := scale s;
     vevTreeMin := vevTreeMin s; vevTree := vevTree s;
     HiggsVev := repeat 0 NHiggs; dmuHSq := dmuHSq s; dlambdaH := dlambdaH s;
     dkappa := dkappa s; dmuSSq := dmuSSq s; dlambdaS := dlambdaS s;
     dT1 := dT1 s; dT2 := dT2 s; dT3 := dT3 s; dT4 := dT4 s; dT5 := dT5 s;
     dT6 := dT6 s; Curvature_Higgs_L1 := zero1; Curvature_Higgs_L2 := zero2;
     Curvature_Higgs_L3 := zero3; Curvature_Higgs_L4 := zero4;
     Curvature_Higgs_CT_L1 := zero1; Curvature_Higgs_CT_L2 := zero2;
     Curvature_Higgs_CT_L3 := zero3; Curvature_Higgs_CT_L4 := zero4;
     HiggsRotationMatrix := HiggsRotationMatrix s;
     LambdaHiggs_3 := LambdaHiggs_3 s;
     LambdaHiggs_3_CT := LambdaHiggs_3_CT s;
     TripleHiggsCorrectionsCWPhysical := TripleHiggsCorrectionsCWPhysical s;
     TripleHiggsCorrectionsTreePhysical := TripleHiggsCorrectionsTreePhysical s;
     TripleHiggsCorrectionsCTPhysical := TripleHiggsCorrectionsCTPhysical s |}.

(** ** SetCurvatureArrays *)

Definition Curvature_Higgs_L2_entries (muHSq muSSq : R) : list entry2 :=
  [ E2 0 0 (- muHSq);
    E2 1 1 (- muHSq);
    E2 2 2 (- muHSq);
    E2 3 3 (- muHSq);
    E2 4 4 (- muSSq);
    E2 5 5 (- muSSq) ].

Definition Curvature_Higgs_L4_entries (lambdaH kappa lambdaS : R)
  : list entry4 :=
  [
    E4 0 0 0 0 (3 * 2 * lambdaH);
    E4 0 0 1 1 (2 * lambdaH);
    E4 0 0 2 2 (2 * lambdaH);
    E4 0 0 3 3 (2 * lambdaH);
    E4 0 0 4 4 (kappa);
    E4 0 0 5 5 (kappa);
    E4 0 1 0 1 (2 * lambdaH);
    E4 0 1 1 0 (2 * lambdaH);
    E4 0 2 0 2 (2 * lambdaH);
    E4 0 2 2 0 (2 * lambdaH);
    E4 0 3 0 3 (2 * lambdaH);
    E4 0 3 3 0 (2 * lambdaH);
    E4 0 4 0 4 (kappa);
    E4 0 4 4 0 (kappa);
    E4 0 5 0 5 (kappa);
    E4 0 5 5 0 (kappa);
    E4 1 0 0 1 (2 * lambdaH);
    E4 1 0 1 0 (2 * lambdaH);
    E4 1 1 0 0 (2 * lambdaH);
    E4 1 1 1 1 (3 * 2 * lambdaH);
    E4 1 1 2 2 (2 * lambdaH);
    E4 1 1 3 3 (2 * lambdaH);
    E4 1 1 4 4 (kappa);
    E4 1 1 5 5 (kappa);
    E4 1 2 1 2 (2 * lambdaH);
    E4 1 2 2 1 (2 * lambdaH);
    E4 1 3 1 3 (2 * lambdaH);
    E4 1 3 3 1 (2 * lambdaH);
    E4 1 4 1 4 (kappa);
    E4 1 4 4 1 (kappa);
    E4 1 5 1 5 (kappa);
    E4 1 5 5 1 (kappa);
    E4 2 0 0 2 (2 * lambdaH);
    E4 2 0 2 0 (2 * lambdaH);
    E4 2 1 1 2 (2 * lambdaH);
    E4 2 1 2 1 (2 * lambdaH);
    E4 2 2 0 0 (2 * lambdaH);
    E4 2 2 1 1 (2 * lambdaH);
    E4 2 2 2 2 (3 * 2 * lambdaH);
    E4 2 2 3 3 (2 * lambdaH);
    E4 2 2 4 4 (kappa);
    E4 2 2 5 5 (kappa);
    E4 2 3 2 3 (2 * lambdaH);
    E4 2 3 3 2 (2 * lambdaH);
    E4 2 4 2 4 (kappa);
    E4 2 4 4 2 (kappa);
    E4 2 5 2 5 (kappa);
    E4 2 5 5 2 (kappa);
    E4 3 0 0 3 (2 * lambdaH);
    E4 3 0 3 0 (2 * lambdaH);
    E4 3 1 1 3 (2 * lambdaH);
    E4 3 1 3 1 (2 * lambdaH);
    E4 3 2 2 3 (2 * lambdaH);
    E4 3 2 3 2 (2 * lambdaH);
    E4 3 3 0 0 (2 * lambdaH);
    E4 3 3 1 1 (2 * lambdaH);
    E4 3 3 2 2 (2 * lambdaH);
    E4 3 3 3 3 (3 * 2 * lambdaH);
    E4 3 3 4 4 (kappa);
    E4 3 3 5 5 (kappa);
    E4 3 4 3 4 (kappa);
    E4 3 4 4 3 (kappa);
    E4 3 5 3 5 (kappa);
    E4 3 5 5 3 (kappa);
    E4 4 0 0 4 (kappa);
    E4 4 0 4 0 (kappa);
    E4 4 1 1 4 (kappa);
    E4 4 1 4 1 (kappa);
    E4 4 2 2 4 (kappa);
    E4 4 2 4 2 (kappa);
    E4 4 3 3 4 (kappa);
    E4 4 3 4 3 (kappa);
    E4 4 4 0 0 (kappa);
    E4 4 4 1 1 (kappa);
    E4 4 4 2 2 (kappa);
    E4 4 4 3 3 (kappa);
    E4 4 4 4 4 (3 * 2 * lambdaS);
    E4 4 4 5 5 (2 * lambdaS);
    E4 4 5 4 5 (2 * lambdaS);
    E4 4 5 5 4 (2 * lambdaS);
    E4 5 0 0 5 (kappa);
    E4 5 0 5 0 (kappa);
    E4 5 1 1 5 (kappa);
    E4 5 1 5 1 (kappa);
    E4 5 2 2 5 (kappa);
    E4 5 2 5 2 (kappa);
    E4 5 3 3 5 (kappa);
    E4 5 3 5 3 (kappa);
    E4 5 4 4 5 (2 * lambdaS);
    E4 5 4 5 4 (2 * lambdaS);
    E4 5 5 0 0 (kappa);
    E4 5 5 1 1 (kappa);
    E4 5 5 2 2 (kappa);
    E4 5 5 3 3 (kappa);
    E4 5 5 4 4 (2 * lambdaS);
    E4 5 5 5 5 (3 * 2 * lambdaS) ].

Definition SetCurvatureArrays (s : Class_VDM) : Class_VDM :=
  let s0 := initVectors s in
  let HiggsVev' := map (fun i => idx (vevTree s0) i) (seq 0 NHiggs) in
  let L2 := assign2 (Curvature_Higgs_L2 s0)
              (Curvature_Higgs_L2_entries (muHSq s0) (muSSq s0)) in
  let L4 := assign4 (Curvature_Higgs_L4 s0)
              (Curvature_Higgs_L4_entries (lambdaH s0) (kappa s0) (lambdaS s0)) in
  {| SMConstants := SMConstants s0; UseIndexCol := UseIndexCol s0;
     SetCurvatureDone := true; CalcCouplingsdone := CalcCouplingsdone s0;
     MH1 := MH1 s0; MH2 := MH2 s0; MX := MX s0; alpha := alpha s0; v := v s0;
     gX := gX s0; vs := vs s0; lambdaH := lambdaH s0; kappa := kappa s0;
     lambdaS := lambdaS s0; muHSq := muHSq s0; muSSq := muSSq s0;
     scale := scale s0; vevTreeMin := vevTreeMin s0; vevTree := vevTree s0;
     HiggsVev := HiggsVev'; dmuHSq := dmuHSq s0; dlambdaH := dlambdaH s0;
     dkappa := dkappa s0; dmuSSq := dmuSSq s0; dlambdaS := dlambdaS s0;
     dT1 := dT1 s0; dT2 := dT2 s0; dT3 := dT3 s0; dT4 := dT4 s0;
     dT5 := dT5 s0; dT6 := dT6 s0;
     Curvature_Higgs_L1 := Curvature_Higgs_L1 s0; Curvature_Higgs_L2 := L2;
     Curvature_Higgs_L3 := Curvature_Higgs_L3 s0; Curvature_Higgs_L4 := L4;
     Curvature_Higgs_CT_L1 := Curvature_Higgs_CT_L1 s0;
     Curvature_Higgs_CT_L2 := Curvature_Higgs_CT_L2 s0;
     Curvature_Higgs_CT_L3 := Curvature_Higgs_CT_L3 s0;
     Curvature_Higgs_CT_L4 := Curvature_Higgs_CT_L4 s0;
     HiggsRotationMatrix := HiggsRotationMatrix s0;
     LambdaHiggs_3 := LambdaHiggs_3 s0;
     LambdaHiggs_3_CT := LambdaHiggs_3_CT s0;
     TripleHiggsCorrectionsCWPhysical := TripleHiggsCorrectionsCWPhysical s0;
     TripleHiggsCorrectionsTreePhysical := TripleHiggsCorrectionsTreePhysical s0;
     TripleHiggsCorrectionsCTPhysical := TripleHiggsCorrectionsCTPhysical s0 |}.

(** ** set_gen *)

(** [set_gen] overwrites [v] with the Standard-Model constant, takes the
    couplings from [par], fixes the mass parameters by the tadpole
    conditions, orders the tree-level VEV and, the first time, populates the
    curvature tensors. *)
Definition set_gen (s : Class_VDM) (par : list R) : Class_VDM :=
  let v' := C_vev0 (SMConstants s) in
  let vs' := idx par 3 in
  let lambdaH' :=
    (idx par 0 * idx par 0 * cos (idx par 4) * cos (idx par 4) +
     idx par 1 * idx par 1 * sin (idx par 4) * sin (idx par 4)) /
    (2 * idx par 2 * idx par 2) in
  let kappa' :=
    (idx par 0 * idx par 0 - idx par 1 * idx par 1) *
    sin (idx par 4) * cos (idx par 4) / (idx par 2 * idx par 3) in
  let lambdaS' :=
    (idx par 1 * idx par 1 * cos (idx par 4) * cos (idx par 4) +
     idx par 0 * idx par 0 * sin (idx par 4) * sin (idx par 4)) /
    (2 * idx par 3 * idx par 3) in
  let gX' := idx par 5 / idx par 3 in
  let muHSq' := vs' * vs' * kappa' / 2 + v' * v' * lambdaH' in
  let muSSq' := kappa' * v' * v' / 2 + lambdaS' * vs' * vs' in
  let scale' := v' in
  let vevTreeMin' := [v'; vs'] in
  let vevTree' := MinimizeOrderVEV vevTreeMin' in
  let s' :=
    {| SMConstants := SMConstants s; UseIndexCol := UseIndexCol s;
       SetCurvatureDone := SetCurvatureDone s;
       CalcCouplingsdone := CalcCouplingsdone s; MH1 := MH1 s; MH2 := MH2 s;
       MX := MX s; alpha := alpha s; v := v'; gX := gX'; vs := vs';
       lambdaH := lambdaH'; kappa := kappa'; lambdaS := lambdaS';
       muHSq := muHSq'; muSSq := muSSq'; scale := scale';
       vevTreeMin := vevTreeMin'; vevTree := vevTree';
       HiggsVev := HiggsVev s; dmuHSq := dmuHSq s; dlambdaH := dlambdaH s;
       dkappa := dkappa s; dmuSSq := dmuSSq s; dlambdaS := dlambdaS s;
       dT1 := dT1 s; dT2 := dT2 s; dT3 := dT3 s; dT4 := dT4 s; dT5 := dT5 s;
       dT6 := dT6 s; Curvature_Higgs_L1 := Curvature_Higgs_L1 s;
       Curvature_Higgs_L2 := Curvature_Higgs_L2 s;
       Curvature_Higgs_L3 := Curvature_Higgs_L3 s;
       Curvature_Higgs_L4 := Curvature_Higgs_L4 s;
       Curvature_Higgs_CT_L1 := Curvature_Higgs_CT_L1 s;
       Curvature_Higgs_CT_L2 := Curvature_Higgs_CT_L2 s;
       Curvature_Higgs_CT_L3 := Curvature_Higgs_CT_L3 s;
       Curvature_Higgs_CT_L4 := Curvature_Higgs_CT_L4 s;
       HiggsRotationMatrix := HiggsRotationMatrix s;
       LambdaHiggs_3 := LambdaHiggs_3 s;
       LambdaHiggs_3_CT := LambdaHiggs_3_CT s;
       TripleHiggsCorrectionsCWPhysical := TripleHiggsCorrectionsCWPhysical s;
       TripleHiggsCorrectionsTreePhysical := TripleHiggsCorrectionsTreePhysical s;
       TripleHiggsCorrectionsCTPhysical := TripleHiggsCorrectionsCTPhysical s |} in
  if negb (SetCurvatureDone s') then SetCurvatureArrays s' else s'.

(** ** ReadAndSet *)

(** The input line as [operator>>] sees it: whitespace-separated tokens,
    each one either the text of a number or something else. *)
Inductive token : Type :=
| Num (x : R)
| Junk.

Record stringstream : Type := { tokens : list token; failbit : bool }.

Definition stringstream_of (linestr : list token) : stringstream :=
  {| tokens := linestr; failbit := false |}.

(** [ss >> tmp] for a [double] (C++11 and later).  On a stream that has
    already failed, and at the end of the input, nothing is stored and [tmp]
    keeps its value; on a token that is not a number, zero is stored.  Both
    failures set [failbit]; no exception is raised. *)
Definition extract (ss : stringstream) (tmp : R) : stringstream * R :=
  if failbit ss then (ss, tmp)
  else match tokens ss with
       | [] => ({| tokens := []; failbit := true |}, tmp)
       | Num x :: rest => ({| tokens := rest; failbit := false |}, x)
       | Junk :: rest => ({| tokens := Junk :: rest; failbit := true |}, 0)
       end.

(** The values of [tmp] after each of [n] successive extractions. *)
Fixpoint read_loop (n : nat) (ss : stringstream) (tmp : R) : list R :=
  match n with
  | O => []
  | S n' =>
      let (ss', tmp') := extract ss tmp in
      tmp' :: read_loop n' ss' tmp'
  end.

(** The six values that the loop [for (k = 1; k < 7; k++) { ss >> tmp; ... }]
    stores, after the optional extraction of the index column.  [tmp0] is
    the indeterminate initial value of the local [double tmp]. *)
Definition ReadAndSet_fields (s : Class_VDM) (tmp0 : R)
  (linestr : list token) : list R :=
  let ss := stringstream_of linestr in
  let (ss1, tmp1) := if UseIndexCol s then extract ss tmp0 else (ss, tmp0) in
  read_loop 6 ss1 tmp1.

(** The loop body stores the k-th value into the k-th of [MH1], [MH2],
    [MX], [alpha], [v], [gX]; then [vs = MX / gX]. *)
Definition ReadAndSet_members (s : Class_VDM) (fields : list R) : Class_VDM :=
  let MH1' := idx fields 0 in
  let MH2' := idx fields 1 in
  let MX' := idx fields 2 in
  let alpha' := idx fields 3 in
  let v' := idx fields 4 in
  let gX' := idx fields 5 in
  let vs' := MX' / gX' in
  {| SMConstants := SMConstants s; UseIndexCol := UseIndexCol s;
     SetCurvatureDone := SetCurvatureDone s;
     CalcCouplingsdone := CalcCouplingsdone s; MH1 := MH1'; MH2 := MH2';
     MX := MX'; alpha := alpha'; v := v'; gX := gX'; vs := vs';
     lambdaH := lambdaH s; kappa := kappa s; lambdaS := lambdaS s;
     muHSq := muHSq s; muSSq := muSSq s; scale := scale s;
     vevTreeMin := vevTreeMin s; vevTree := vevTree s;
     HiggsVev := HiggsVev s; dmuHSq := dmuHSq s; dlambdaH := dlambdaH s;
     dkappa := dkappa s; dmuSSq := dmuSSq s; dlambdaS := dlambdaS s;
     dT1 := dT1 s; dT2 := dT2 s; dT3 := dT3 s; dT4 := dT4 s; dT5 := dT5 s;
     dT6 := dT6 s; Curvature_Higgs_L1 := Curvature_Higgs_L1 s;
     Curvature_Higgs_L2 := Curvature_Higgs_L2 s;
     Curvature_Higgs_L3 := Curvature_Higgs_L3 s;
     Curvature_Higgs_L4 := Curvature_Higgs_L4 s;
     Curvature_Higgs_CT_L1 := Curvature_Higgs_CT_L1 s;
     Curvature_Higgs_CT_L2 := Curvature_Higgs_CT_L2 s;
     Curvature_Higgs_CT_L3 := Curvature_Higgs_CT_L3 s;
     Curvature_Higgs_CT_L4 := Curvature_Higgs_CT_L4 s;
     HiggsRotationMatrix := HiggsRotationMatrix s;
     LambdaHiggs_3 := LambdaHiggs_3 s;
     LambdaHiggs_3_CT := LambdaHiggs_3_CT s;
     TripleHiggsCorrectionsCWPhysical := TripleHiggsCorrectionsCWPhysical s;
     TripleHiggsCorrectionsTreePhysical := TripleHiggsCorrectionsTreePhysical s;
     TripleHiggsCorrectionsCTPhysical := TripleHiggsCorrectionsCTPhysical s |}.

(** [par[0] = MH1; par[1] = MH2; par[2] = v; par[3] = vs; par[4] = alpha;
    par[5] = MX]. *)
Definition ReadAndSet_par (s : Class_VDM) (par : list R) : list R :=
  let par0 := set_idx par 0 (MH1 s) in
  let par1 := set_idx par0 1 (MH2 s) in
  let par2 := set_idx par1 2 (v s) in
  let par3 := set_idx par2 3 (vs s) in
  let par4 := set_idx par3 4 (alpha s) in
  set_idx par4 5 (MX s).

(** [ReadAndSet(linestr, par)]: read the members, fill [par], call
    [set_gen(par)].  The function has no failure path: it always returns. *)
Definition ReadAndSet (s : Class_VDM) (tmp0 : R) (linestr : list token)
  (par : list R) : result (Class_VDM * list R) :=
  let s' := ReadAndSet_members s (ReadAndSet_fields s tmp0 linestr) in
  let par' := ReadAndSet_par s' par in
  Ok (set_gen s' par', par').

(** ** set_CT_Pot_Par *)

Definition Curvature_Higgs_CT_L1_entries (dT1 dT2 dT3 dT4 dT5 dT6 : R)
  : list entry1 :=
  [ E1 0 dT1; E1 1 dT2; E1 2 dT3; E1 3 dT4; E1 4 dT5; E1 5 dT6 ].

Definition Curvature_Higgs_CT_L2_entries (dmuHSq dmuSSq : R) : list entry2 :=
  [ E2 0 0 (- dmuHSq);
    E2 1 1 (- dmuHSq);
    E2 2 2 (- dmuHSq);
    E2 3 3 (- dmuHSq);
    E2 4 4 (- dmuSSq);
    E2 5 5 (- dmuSSq) ].

Definition Curvature_Higgs_CT_L4_entries (dlambdaH dkappa dlambdaS : R)
  : list entry4 :=
  [
    E4 0 0 0 0 (6 * dlambdaH);
    E4 0 0 1 1 (2 * dlambdaH);
    E4 0 0 2 2 (2 * dlambdaH);
    E4 0 0 3 3 (2 * dlambdaH);
    E4 0 0 4 4 (dkappa);
    E4 0 0 5 5 (dkappa);
    E4 0 1 0 1 (2 * dlambdaH);
    E4 0 1 1 0 (2 * dlambdaH);
    E4 0 2 0 2 (2 * dlambdaH);
    E4 0 2 2 0 (2 * dlambdaH);
    E4 0 3 0 3 (2 * dlambdaH);
    E4 0 3 3 0 (2 * dlambdaH);
    E4 0 4 0 4 (dkappa);
    E4 0 4 4 0 (dkappa);
    E4 0 5 0 5 (dkappa);
    E4 0 5 5 0 (dkappa);
    E4 1 0 0 1 (2 * dlambdaH);
    E4 1 0 1 0 (2 * dlambdaH);
    E4 1 1 0 0 (2 * dlambdaH);
    E4 1 1 1 1 (6 * dlambdaH);
    E4 1 1 2 2 (2 * dlambdaH);
    E4 1 1 3 3 (2 * dlambdaH);
    E4 1 1 4 4 (dkappa);
    E4 1 1 5 5 (dkappa);
    E4 1 2 1 2 (2 * dlambdaH);
    E4 1 2 2 1 (2 * dlambdaH);
    E4 1 3 1 3 (2 * dlambdaH);
    E4 1 3 3 1 (2 * dlambdaH);
    E4 1 4 1 4 (dkappa);
    E4 1 4 4 1 (dkappa);
    E4 1 5 1 5 (dkappa);
    E4 1 5 5 1 (dkappa);
    E4 2 0 0 2 (2 * dlambdaH);
    E4 2 0 2 0 (2 * dlambdaH);
    E4 2 1 1 2 (2 * dlambdaH);
    E4 2 1 2 1 (2 * dlambdaH);
    E4 2 2 0 0 (2 * dlambdaH);
    E4 2 2 1 1 (2 * dlambdaH);
    E4 2 2 2 2 (6 * dlambdaH);
    E4 2 2 3 3 (2 * dlambdaH);
    E4 2 2 4 4 (dkappa);
    E4 2 2 5 5 (dkappa);
    E4 2 3 2 3 (2 * dlambdaH);
    E4 2 3 3 2 (2 * dlambdaH);
    E4 2 4 2 4 (dkappa);
    E4 2 4 4 2 (dkappa);
    E4 2 5 2 5 (dkappa);
    E4 2 5 5 2 (dkappa);
    E4 3 0 0 3 (2 * dlambdaH);
    E4 3 0 3 0 (2 * dlambdaH);
    E4 3 1 1 3 (2 * dlambdaH);
    E4 3 1 3 1 (2 * dlambdaH);
    E4 3 2 2 3 (2 * dlambdaH);
    E4 3 2 3 2 (2 * dlambdaH);
    E4 3 3 0 0 (2 * dlambdaH);
    E4 3 3 1 1 (2 * dlambdaH);
    E4 3 3 2 2 (2 * dlambdaH);
    E4 3 3 3 3 (6 * dlambdaH);
    E4 3 3 4 4 (dkappa);
    E4 3 3 5 5 (dkappa);
    E4 3 4 3 4 (dkappa);
    E4 3 4 4 3 (dkappa);
    E4 3 5 3 5 (dkappa);
    E4 3 5 5 3 (dkappa);
    E4 4 0 0 4 (dkappa);
    E4 4 0 4 0 (dkappa);
    E4 4 1 1 4 (dkappa);
    E4 4 1 4 1 (dkappa);
    E4 4 2 2 4 (dkappa);
    E4 4 2 4 2 (dkappa);
    E4 4 3 3 4 (dkappa);
    E4 4 3 4 3 (dkappa);
    E4 4 4 0 0 (dkappa);
    E4 4 4 1 1 (dkappa);
    E4 4 4 2 2 (dkappa);
    E4 4 4 3 3 (dkappa);
    E4 4 4 4 4 (6 * dlambdaS);
    E4 4 4 5 5 (2 * dlambdaS);
    E4 4 5 4 5 (2 * dlambdaS);
    E4 4 5 5 4 (2 * dlambdaS);
    E4 5 0 0 5 (dkappa);
    E4 5 0 5 0 (dkappa);
    E4 5 1 1 5 (dkappa);
    E4 5 1 5 1 (dkappa);
    E4 5 2 2 5 (dkappa);
    E4 5 2 5 2 (dkappa);
    E4 5 3 3 5 (dkappa);
    E4 5 3 5 3 (dkappa);
    E4 5 4 4 5 (2 * dlambdaS);
    E4 5 4 5 4 (2 * dlambdaS);
    E4 5 5 0 0 (dkappa);
    E4 5 5 1 1 (dkappa);
    E4 5 5 2 2 (dkappa);
    E4 5 5 3 3 (dkappa);
    E4 5 5 4 4 (2 * dlambdaS);
    E4 5 5 5 5 (6 * dlambdaS) ].

(** The counterterm members in the order in which [set_CT_Pot_Par] reads
    them from [par]. *)
Inductive CT_member : Type :=
| m_dmuHSq | m_dlambdaH | m_dkappa | m_dmuSSq | m_dlambdaS
| m_dT1 | m_dT2 | m_dT3 | m_dT4 | m_dT5 | m_dT6.

Definition CT_member_name (m : CT_member) : string :=
  match m with
  | m_dmuHSq => "dmuHSq" | m_dlambdaH => "dlambdaH" | m_dkappa => "dkappa"
  | m_dmuSSq => "dmuSSq" | m_dlambdaS => "dlambdaS"
  | m_dT1 => "dT1" | m_dT2 => "dT2" | m_dT3 => "dT3"
  | m_dT4 => "dT4" | m_dT5 => "dT5" | m_dT6 => "dT6"
  end.

Definition CT_member_value (m : CT_member) (s : Class_VDM) : R :=
  match m with
  | m_dmuHSq => dmuHSq s | m_dlambdaH => dlambdaH s | m_dkappa => dkappa s
  | m_dmuSSq => dmuSSq s | m_dlambdaS => dlambdaS s
  | m_dT1 => dT1 s | m_dT2 => dT2 s | m_dT3 => dT3 s
  | m_dT4 => dT4 s | m_dT5 => dT5 s | m_dT6 => dT6 s
  end.

Definition set_CT_Pot_Par (s : Class_VDM) (par : list R) : Class_VDM :=
  let dmuHSq' := idx par 0 in
  let dlambdaH' := idx par 1 in
  let dkappa' := idx par 2 in
  let dmuSSq' := idx par 3 in
  let dlambdaS' := idx par 4 in
  let dT1' := idx par 5 in
  let dT2' := idx par 6 in
  let dT3' := idx par 7 in
  let dT4' := idx par 8 in
  let dT5' := idx par 9 in
  let dT6' := idx par 10 in
  let CT_L1 := assign1 (Curvature_Higgs_CT_L1 s)
    (Curvature_Higgs_CT_L1_entries dT1' dT2' dT3' dT4' dT5' dT6') in
  let CT_L2 := assign2 (Curvature_Higgs_CT_L2 s)
    (Curvature_Higgs_CT_L2_entries dmuHSq' dmuSSq') in
  let CT_L4 := assign4 (Curvature_Higgs_CT_L4 s)
    (Curvature_Higgs_CT_L4_entries dlambdaH' dkappa' dlambdaS') in
  {| SMConstants := SMConstants s; UseIndexCol := UseIndexCol s;
     SetCurvatureDone := SetCurvatureDone s;
     CalcCouplingsdone := CalcCouplingsdone s; MH1 := MH1 s; MH2 := MH2 s;
     MX := MX s; alpha := alpha s; v := v s; gX := gX s; vs := vs s;
     lambdaH := lambdaH s; kappa := kappa s; lambdaS := lambdaS s;
     muHSq := muHSq s; muSSq := muSSq s; scale := scale s;
     vevTreeMin := vevTreeMin s; vevTree := vevTree s;
     HiggsVev := HiggsVev s; dmuHSq := dmuHSq'; dlambdaH := dlambdaH';
     dkappa := dkappa'; dmuSSq := dmuSSq'; dlambdaS := dlambdaS';
     dT1 := dT1'; dT2 := dT2'; dT3 := dT3'; dT4 := dT4'; dT5 := dT5';
     dT6 := dT6'; Curvature_Higgs_L1 := Curvature_Higgs_L1 s;
     Curvature_Higgs_L2 := Curvature_Higgs_L2 s;
     Curvature_Higgs_L3 := Curvature_Higgs_L3 s;
     Curvature_Higgs_L4 := Curvature_Higgs_L4 s;
     Curvature_Higgs_CT_L1 := CT_L1; Curvature_Higgs_CT_L2 := CT_L2;
     Curvature_Higgs_CT_L3 := Curvature_Higgs_CT_L3 s;
     Curvature_Higgs_CT_L4 := CT_L4;
     HiggsRotationMatrix := HiggsRotationMatrix s;
     LambdaHiggs_3 := LambdaHiggs_3 s;
     LambdaHiggs_3_CT := LambdaHiggs_3_CT s;
     TripleHiggsCorrectionsCWPhysical := TripleHiggsCorrectionsCWPhysical s;
     TripleHiggsCorrectionsTreePhysical := TripleHiggsCorrectionsTreePhysical s;
     TripleHiggsCorrectionsCTPhysical := TripleHiggsCorrectionsCTPhysical s |}.

(** The member that [set_CT_Pot_Par] assigns from [par[i]], read off the
    eleven assignments that open the function. *)
Definition set_CT_Pot_Par_target (i : nat) : option CT_member :=
  nth_error
    [m_dmuHSq; m_dlambdaH; m_dkappa; m_dmuSSq; m_dlambdaS;
     m_dT1; m_dT2; m_dT3; m_dT4; m_dT5; m_dT6] i.

(** ** calc_CT *)

Definition newline : string := String (ascii_of_nat 10) EmptyString.

Definition func_calc_CT : string := "calc_CT".

(** [HesseWeinberg(i, j) = WeinbergHesse.at(j * NHiggs + i)] for all
    [i], [j], row by row. *)
Definition fill_HesseWeinberg (WeinbergHesse : list R)
  : result (list (list R)) :=
  mapM (fun i =>
          mapM (fun j => at_ WeinbergHesse (j * NHiggs + i)) (seq 0 NHiggs))
       (seq 0 NHiggs).

Definition mat (M : list (list R)) (i j : nat) : R := idx (nth i M []) j.

(** [calc_CT()].  [WeinbergNabla] and [WeinbergHesse] are what the calls of
    [WeinbergFirstDerivative()] and [WeinbergSecondDerivative()] return. *)
Definition calc_CT (s : Class_VDM) (WeinbergNabla WeinbergHesse : list R)
  : result (list R) :=
  if negb (SetCurvatureDone s) then
    Throw (func_calc_CT ++ " was called before SetCurvatureArrays()!"
           ++ newline)%string
  else if negb (CalcCouplingsdone s) then
    Throw (func_calc_CT ++ " was called before CalculatePhysicalCouplings()!"
           ++ newline)%string
  else
    Hesse <- fill_HesseWeinberg WeinbergHesse ;;
    let NablaWeinberg := idx WeinbergNabla in
    let HesseWeinberg := mat Hesse in
    let v := v s in
    let vs := vs s in
    Ok [ (- HesseWeinberg 2%nat 2%nat * v - HesseWeinberg 2%nat 4%nat * vs +
          3 * HesseWeinberg 3%nat 3%nat * v) / v / 2;
         (- HesseWeinberg 2%nat 2%nat + HesseWeinberg 3%nat 3%nat) *
           powerRZ v (-2) / 2;
         - HesseWeinberg 2%nat 4%nat / v / vs;
         (- HesseWeinberg 2%nat 4%nat * v -
          vs * (HesseWeinberg 4%nat 4%nat - 3 * HesseWeinberg 5%nat 5%nat)) /
           vs / 2;
         (- HesseWeinberg 4%nat 4%nat + HesseWeinberg 5%nat 5%nat) *
           powerRZ vs (-2) / 2;
         - NablaWeinberg 0%nat;
         - NablaWeinberg 1%nat;
         HesseWeinberg 3%nat 3%nat * v - NablaWeinberg 2%nat;
         - NablaWeinberg 3%nat;
         HesseWeinberg 5%nat 5%nat * vs - NablaWeinberg 4%nat;
         - NablaWeinberg 5%nat ].

(** ** CalculatePhysicalCouplings and TripleHiggsCouplings *)

(** What the mass-matrix diagonalizer hands back. *)
Record PhysicalCouplings : Type := {
  out_HiggsRotationMatrix : tensor2;
  out_LambdaHiggs_3 : tensor3;
  out_LambdaHiggs_3_CT : tensor3
}.

(** Modelled from the spec: [CalculatePhysicalCouplings] belongs to the base
    class.  The diagonalizer consumes the populated tensors and the VEV,
    produces the rotation matrix (and the field-basis triple couplings) and
    sets the couplings-diagonalized gate. *)
Definition CalculatePhysicalCouplings (out : PhysicalCouplings)
  (s : Class_VDM) : Class_VDM :=
  {| SMConstants := SMConstants s; UseIndexCol := UseIndexCol s;
     SetCurvatureDone := SetCurvatureDone s; CalcCouplingsdone := true;
     MH1 := MH1 s; MH2 := MH2 s; MX := MX s; alpha := alpha s; v := v s;
     gX := gX s; vs := vs s; lambdaH := lambdaH s; kappa := kappa s;
     lambdaS := lambdaS s; muHSq := muHSq s; muSSq := muSSq s;
     scale := scale s; vevTreeMin := vevTreeMin s; vevTree := vevTree s;
     HiggsVev := HiggsVev s; dmuHSq := dmuHSq s; dlambdaH := dlambdaH s;
     dkappa := dkappa s; dmuSSq := dmuSSq s; dlambdaS := dlambdaS s;
     dT1 := dT1 s; dT2 := dT2 s; dT3 := dT3 s; dT4 := dT4 s; dT5 := dT5 s;
     dT6 := dT6 s; Curvature_Higgs_L1 := Curvature_Higgs_L1 s;
     Curvature_Higgs_L2 := Curvature_Higgs_L2 s;
     Curvature_Higgs_L3 := Curvature_Higgs_L3 s;
     Curvature_Higgs_L4 := Curvature_Higgs_L4 s;
     Curvature_Higgs_CT_L1 := Curvature_Higgs_CT_L1 s;
     Curvature_Higgs_CT_L2 := Curvature_Higgs_CT_L2 s;
     Curvature_Higgs_CT_L3 := Curvature_Higgs_CT_L3 s;
     Curvature_Higgs_CT_L4 := Curvature_Higgs_CT_L4 s;
     HiggsRotationMatrix := out_HiggsRotationMatrix out;
     LambdaHiggs_3 := out_LambdaHiggs_3 out;
     LambdaHiggs_3_CT := out_LambdaHiggs_3_CT out;
     TripleHiggsCorrectionsCWPhysical := TripleHiggsCorrectionsCWPhysical s;
     TripleHiggsCorrectionsTreePhysical := TripleHiggsCorrectionsTreePhysical s;
     TripleHiggsCorrectionsCTPhysical := TripleHiggsCorrectionsCTPhysical s |}.

Definition triples : list (nat * nat * nat) :=
  flat_map (fun l => flat_map (fun m => map (fun n => (l, m, n))
                                            (seq 0 NHiggs))
                              (seq 0 NHiggs))
           (seq 0 NHiggs).

(** The accumulation [x = 0; for l, m, n: x += Rot(i,l)*Rot(j,m)*Rot(k,n) *
    T[l][m][n]]. *)
Definition rotate3 (Rot : tensor2) (T : tensor3) : tensor3 :=
  fun i j k =>
    fold_left (fun acc lmn =>
                 let '(l, m, n) := lmn in
                 let RotFac := Rot i l * Rot j m * Rot k n in
                 acc + RotFac * T l m n)
              triples 0.

(** [GaugeBasis[i][j][k] = TripleDeriv.at(i + j * NHiggs + k * NHiggs *
    NHiggs)]. *)
Definition fill_GaugeBasis (TripleDeriv : list R) : result (list R) :=
  mapM (fun ijk => let '(i, j, k) := ijk in
                   at_ TripleDeriv (i + j * NHiggs + k * NHiggs * NHiggs))
       triples.

(** [TripleHiggsCouplings()].  [out] is what [CalculatePhysicalCouplings()]
    would produce if it has to be run, [TripleDeriv] what
    [WeinbergThirdDerivative()] returns. *)
Definition TripleHiggsCouplings (s : Class_VDM) (out : PhysicalCouplings)
  (TripleDeriv : list R) : result Class_VDM :=
  let s1 := if negb (SetCurvatureDone s) then SetCurvatureArrays s else s in
  let s2 := if negb (CalcCouplingsdone s1)
            then CalculatePhysicalCouplings out s1 else s1 in
  let HiggsOrder := fun i : nat => i in
  Gauge <- fill_GaugeBasis TripleDeriv ;;
  let GaugeBasis : tensor3 :=
    fun i j k => idx Gauge (i * NHiggs * NHiggs + j * NHiggs + k) in
  let HiggsRotSort : tensor2 :=
    fun i j => HiggsRotationMatrix s2 (HiggsOrder i) j in
  Ok
    {| SMConstants := SMConstants s2; UseIndexCol := UseIndexCol s2;
       SetCurvatureDone := SetCurvatureDone s2;
       CalcCouplingsdone := CalcCouplingsdone s2; MH1 := MH1 s2;
       MH2 := MH2 s2; MX := MX s2; alpha := alpha s2; v := v s2; gX := gX s2;
       vs := vs s2; lambdaH := lambdaH s2; kappa := kappa s2;
       lambdaS := lambdaS s2; muHSq := muHSq s2; muSSq := muSSq s2;
       scale := scale s2; vevTreeMin := vevTreeMin s2; vevTree := vevTree s2;
       HiggsVev := HiggsVev s2; dmuHSq := dmuHSq s2; dlambdaH := dlambdaH s2;
       dkappa := dkappa s2; dmuSSq := dmuSSq s2; dlambdaS := dlambdaS s2;
       dT1 := dT1 s2; dT2 := dT2 s2; dT3 := dT3 s2; dT4 := dT4 s2;
       dT5 := dT5 s2; dT6 := dT6 s2;
       Curvature_Higgs_L1 := Curvature_Higgs_L1 s2;
       Curvature_Higgs_L2 := Curvature_Higgs_L2 s2;
       Curvature_Higgs_L3 := Curvature_Higgs_L3 s2;
       Curvature_Higgs_L4 := Curvature_Higgs_L4 s2;
       Curvature_Higgs_CT_L1 := Curvature_Higgs_CT_L1 s2;
       Curvature_Higgs_CT_L2 := Curvature_Higgs_CT_L2 s2;
       Curvature_Higgs_CT_L3 := Curvature_Higgs_CT_L3 s2;
       Curvature_Higgs_CT_L4 := Curvature_Higgs_CT_L4 s2;
       HiggsRotationMatrix := HiggsRotationMatrix s2;
       LambdaHiggs_3 := LambdaHiggs_3 s2;
       LambdaHiggs_3_CT := LambdaHiggs_3_CT s2;
       TripleHiggsCorrectionsCWPhysical := rotate3 HiggsRotSort GaugeBasis;
       TripleHiggsCorrectionsTreePhysical := rotate3 HiggsRotSort (LambdaHiggs_3 s2);
       TripleHiggsCorrectionsCTPhysical := rotate3 HiggsRotSort (LambdaHiggs_3_CT s2) |}.

(** ** Derivatives of a potential given by its curvature tensors *)

Definition sumH (f : nat -> R) : R :=
  fold_right (fun i acc => f i + acc) 0 (seq 0 NHiggs).

(** Modelled from the spec: the potential evaluator belongs to the base
    class.  With the expansion convention
    [V = sum over k of 1/k! T_{i1..ik} phi_i1 ... phi_ik] and index-symmetric
    tensors, the first and second derivatives of [V] at the field point
    [phi] are the following contractions. *)
Definition gradient (T1 : tensor1) (T2 : tensor2) (T3 : tensor3)
  (T4 : tensor4) (phi : list R) (i : nat) : R :=
  T1 i
  + sumH (fun j => T2 i j * idx phi j)
  + / 2 * sumH (fun j => sumH (fun k => T3 i j k * idx phi j * idx phi k))
  + / 6 * sumH (fun j => sumH (fun k => sumH (fun l =>
            T4 i j k l * idx phi j * idx phi k * idx phi l))).

Definition hessian (T2 : tensor2) (T3 : tensor3) (T4 : tensor4)
  (phi : list R) (i j : nat) : R :=
  T2 i j
  + sumH (fun k => T3 i j k * idx phi k)
  + / 2 * sumH (fun k => sumH (fun l => T4 i j k l * idx phi k * idx phi l)).

(** Tree-level and counterterm potentials of an instance, differentiated at
    its tree-level VEV [vevTree] (of which [HiggsVev] is the copy frozen by
    [SetCurvatureArrays]). *)
Definition NablaTree (s : Class_VDM) : nat -> R :=
  gradient (Curvature_Higgs_L1 s) (Curvature_Higgs_L2 s)
           (Curvature_Higgs_L3 s) (Curvature_Higgs_L4 s) (vevTree s).

Definition HesseTree (s : Class_VDM) : nat -> nat -> R :=
  hessian (Curvature_Higgs_L2 s) (Curvature_Higgs_L3 s)
          (Curvature_Higgs_L4 s) (vevTree s).

Definition NablaCT (s : Class_VDM) : nat -> R :=
  gradient (Curvature_Higgs_CT_L1 s) (Curvature_Higgs_CT_L2 s)
           (Curvature_Higgs_CT_L3 s) (Curvature_Higgs_CT_L4 s) (vevTree s).

Definition HesseCT (s : Class_VDM) : nat -> nat -> R :=
  hessian (Curvature_Higgs_CT_L2 s) (Curvature_Higgs_CT_L3 s)
          (Curvature_Higgs_CT_L4 s) (vevTree s).

Arguments NablaTree _ _%_nat.
Arguments NablaCT _ _%_nat.
Arguments HesseTree _ (_ _)%_nat.
Arguments HesseCT _ (_ _)%_nat.

(** Modelled from the spec: the eigenvalue solver is an external library.
    The two eigenvalues of the symmetric block [[a, b], [b, c]], smaller
    one first, and the masses as their square roots. *)
Definition eigenvalue_lo (a b c : R) : R :=
  (a + c - sqrt ((a - c) * (a - c) + 4 * b * b)) / 2.

Definition eigenvalue_hi (a b c : R) : R :=
  (a + c + sqrt ((a - c) * (a - c) + 4 * b * b)) / 2.

Definition mass_lo (a b c : R) : R := sqrt (eigenvalue_lo a b c).
Definition mass_hi (a b c : R) : R := sqrt (eigenvalue_hi a b c).

(** [x] reproduces [m] to relative tolerance [tol]. *)
Definition within (tol m x : R) : Prop := Rabs (x - m) <= tol * Rabs m.

(** ** Notions used in the statements *)

(** [counterterms] chains the solver and the write-back, as the lifecycle
    does: the output vector of [calc_CT] is fed to [set_CT_Pot_Par]. *)
Definition counterterms (s : Class_VDM) (WeinbergNabla WeinbergHesse : list R)
  : result Class_VDM :=
  parCT <- calc_CT s WeinbergNabla WeinbergHesse ;;
  Ok (set_CT_Pot_Par s parCT).

(** The entry [(i, j)] of the one-loop Hessian as [calc_CT] unpacks it. *)
Definition HesseWeinberg (WeinbergHesse : list R) (i j : nat) : R :=
  idx WeinbergHesse (j * NHiggs + i).

(** A rank-4 tensor read at a list of four indices (zero at any other
    list), so that index tuples can be compared as lists. *)
Definition tuple4 (T : tensor4) (ijkl : list nat) : R :=
  match ijkl with
  | [i; j; k; l] => T i j k l
  | _ => 0
  end.

(** Invariance under the three adjacent transpositions, which generate all
    permutations of four indices. *)
Definition swap_invariant (T : tensor4) : Prop :=
  forall i j k l,
    T i j k l = T j i k l /\ T i j k l = T i k j l /\ T i j k l = T i j l k.

(** What [set_gen] establishes on an instance whose curvature gate is still
    down, and what the later lifecycle steps rely on. *)
Record populated (s : Class_VDM) : Prop := {
  pop_gate : SetCurvatureDone s = true;
  pop_vevTree : vevTree s = [0; 0; v s; 0; vs s; 0];
  pop_HiggsVev : HiggsVev s = vevTree s;
  pop_muHSq : muHSq s = vs s * vs s * kappa s / 2 + v s * v s * lambdaH s;
  pop_muSSq : muSSq s = kappa s * v s * v s / 2 + lambdaS s * vs s * vs s;
  pop_L1 : Curvature_Higgs_L1 s = zero1;
  pop_L2 : Curvature_Higgs_L2 s
           = assign2 zero2 (Curvature_Higgs_L2_entries (muHSq s) (muSSq s));
  pop_L3 : Curvature_Higgs_L3 s = zero3;
  pop_L4 : Curvature_Higgs_L4 s
           = assign4 zero4
               (Curvature_Higgs_L4_entries (lambdaH s) (kappa s) (lambdaS s));
  pop_CT_L1 : Curvature_Higgs_CT_L1 s = zero1;
  pop_CT_L2 : Curvature_Higgs_CT_L2 s = zero2;
  pop_CT_L3 : Curvature_Higgs_CT_L3 s = zero3;
  pop_CT_L4 : Curvature_Higgs_CT_L4 s = zero4
}.

(** Sample data for the examples. *)
Definition sample_constants : ISMConstants := {| C_vev0 := 246 |}.

(** [par] as [ReadAndSet] fills it: MH1, MH2, v, vs, alpha, MX. *)
Definition sample_par : list R := [95; 650; 246; 1000; 3 / 10; 1000].

Definition no_couplings : PhysicalCouplings :=
  {| out_HiggsRotationMatrix := zero2;
     out_LambdaHiggs_3 := zero3;
     out_LambdaHiggs_3_CT := zero3 |}.

(** A populated and diagonalized instance. *)
Definition sample_instance : Class_VDM :=
  CalculatePhysicalCouplings no_couplings
    (set_gen (Class_VDM_new sample_constants) sample_par).

(** The offset that the rank-1 counterterm carries in the two directions
    that have a VEV. *)
Definition dT_offset (s : Class_VDM) (WeinbergHesse : list R) (i : nat) : R :=
  if Nat.eqb i 2 then HesseWeinberg WeinbergHesse 3 3 * v s
  else if Nat.eqb i 4 then HesseWeinberg WeinbergHesse 5 5 * vs s
  else 0.

(** The index column, when present, is read and dropped. *)
Definition with_index_col (s : Class_VDM) (index : R) (fields : list token)
  : list token :=
  if UseIndexCol s then Num index :: fields else fields.

(** The block of the tree-level mass matrix in the directions 2 and 4. *)
Definition mass_block (s : Class_VDM) : R * R * R :=
  (HesseTree s 2 2, HesseTree s 2 4, HesseTree s 4 4).

(** Diagonalizing the block gives back [m1] and [m2] to relative tolerance
    [tol]. *)
Definition roundtrip (tol m1 m2 : R) (s : Class_VDM) : Prop :=
  let '(a, b, c) := mass_block s in
  within tol m1 (mass_lo a b c) /\ within tol m2 (mass_hi a b c).

(** The electroweak VEV at its measured value rather than the rounded 246. *)
Definition measured_constants : ISMConstants := {| C_vev0 := 24622 / 100 |}.

(** The representative record in the order in which [ReadAndSet] reads it:
    MH1, MH2, MX, alpha, v, gX. *)
Definition representative_record : list token :=
  [Num 95; Num 650; Num 1000; Num (3 / 10); Num 246; Num 1].

(** The two messages of [calc_CT]. *)
Definition what_before_SetCurvatureArrays : string :=
  ("calc_CT was called before SetCurvatureArrays()!" ++ newline)%string.

Definition what_before_CalculatePhysicalCouplings : string :=
  ("calc_CT was called before CalculatePhysicalCouplings()!" ++ newline)%string.

(** Does the label at position [i] name the member that [set_CT_Pot_Par]
    assigns from [par[i]]? *)
Definition legend_agrees (i : nat) : bool :=
  match nth_error addLegendCT i, set_CT_Pot_Par_target i with
  | Some label, Some m => String.eqb label (CT_member_name m)
  | _, _ => false
  end.

(** [SetCurvatureArrays] reads [vevTree[0]], ..., [vevTree[NHiggs - 1]]
    unchecked.  [TripleHiggsCouplings] runs it when the curvature gate is
    down; these reads are then in range when the tree-level VEV has been
    sized.  With the gate up nothing is read. *)
Definition curvature_reads_in_range (s : Class_VDM) : Prop :=
  SetCurvatureDone s = true \/ (NHiggs <= length (vevTree s))%nat.

(** ** More on set_gen and the tree-level potential *)

Definition in_mass_block (i j : nat) : bool :=
  (Nat.eqb i 2 || Nat.eqb i 4) && (Nat.eqb j 2 || Nat.eqb j 4).

(** A second parameter vector for the examples. *)
Definition second_par : list R := [125; 300; 246; 500; 1 / 10; 500].

(** ** More on calc_CT *)

(** The one-loop Hessian entries that the counterterm Hessian cancels. *)
Definition cancelled_entry (WeinbergHesse : list R) (i j : nat) : R :=
  if Nat.eqb i j then
    if Nat.eqb i 2 || Nat.eqb i 4 || Nat.eqb i 5
    then HesseWeinberg WeinbergHesse i i
    else HesseWeinberg WeinbergHesse 3 3
  else if in_mass_block i j then HesseWeinberg WeinbergHesse 2 4
  else 0.

(** Entry-wise sum of two vectors of doubles. *)
Definition vadd (a b : list R) : list R :=
  map (fun p => fst p + snd p) (combine a b).

(** ** The gauge sector of SetCurvatureArrays *)

(** The block of assignments to [Curvature_Gauge_G2H2] (gauge indices
    first, then Higgs indices).  [C_g] and [C_gs] are the two electroweak
    gauge couplings of the Standard-Model constants, [gX] the member. *)
Definition Curvature_Gauge_G2H2_entries (C_g C_gs gX : R) : list entry4 :=
  [
    E4 0 0 0 0 (C_g * C_g / 2);
    E4 0 0 1 1 (C_g * C_g / 2);
    E4 0 0 2 2 (C_g * C_g / 2);
    E4 0 0 3 3 (C_g * C_g / 2);
    E4 0 3 0 2 (C_gs * C_g / 2);
    E4 0 3 1 3 (C_gs * C_g / 2);
    E4 0 3 2 0 (C_gs * C_g / 2);
    E4 0 3 3 1 (C_gs * C_g / 2);
    E4 1 1 0 0 (C_g * C_g / 2);
    E4 1 1 1 1 (C_g * C_g / 2);
    E4 1 1 2 2 (C_g * C_g / 2);
    E4 1 1 3 3 (C_g * C_g / 2);
    E4 1 3 0 3 (C_gs * C_g / 2);
    E4 1 3 1 2 (-C_gs * C_g / 2);
    E4 1 3 2 1 (-C_gs * C_g / 2);
    E4 1 3 3 0 (C_gs * C_g / 2);
    E4 2 2 0 0 (C_g * C_g / 2);
    E4 2 2 1 1 (C_g * C_g / 2);
    E4 2 2 2 2 (C_g * C_g / 2);
    E4 2 2 3 3 (C_g * C_g / 2);
    E4 2 3 0 0 (C_gs * C_g / 2);
    E4 2 3 1 1 (C_gs * C_g / 2);
    E4 2 3 2 2 (-C_gs * C_g / 2);
    E4 2 3 3 3 (-C_gs * C_g / 2);
    E4 3 0 0 2 (C_gs * C_g / 2);
    E4 3 0 1 3 (C_gs * C_g / 2);
    E4 3 0 2 0 (C_gs * C_g / 2);
    E4 3 0 3 1 (C_gs * C_g / 2);
    E4 3 1 0 3 (C_gs * C_g / 2);
    E4 3 1 1 2 (-C_gs * C_g / 2);
    E4 3 1 2 1 (-C_gs * C_g / 2);
    E4 3 1 3 0 (C_gs * C_g / 2);
    E4 3 2 0 0 (C_gs * C_g / 2);
    E4 3 2 1 1 (C_gs * C_g / 2);
    E4 3 2 2 2 (-C_gs * C_g / 2);
    E4 3 2 3 3 (-C_gs * C_g / 2);
    E4 3 3 0 0 (C_gs * C_gs / 2);
    E4 3 3 1 1 (C_gs * C_gs / 2);
    E4 3 3 2 2 (C_gs * C_gs / 2);
    E4 3 3 3 3 (C_gs * C_gs / 2);
    E4 4 4 4 4 (2 * gX * gX);
    E4 4 4 5 5 (2 * gX * gX) ].

(** The gauge tensor that [SetCurvatureArrays] leaves behind when it runs
    with the member [gX] at the given value: the zeros of [initVectors],
    then the assignments. *)
Definition Curvature_Gauge_G2H2 (C_g C_gs gX : R) : tensor4 :=
  assign4 zero4 (Curvature_Gauge_G2H2_entries C_g C_gs gX).

Definition sumG (f : nat -> R) : R :=
  fold_right (fun a acc => f a + acc) 0 (seq 0 NGauge).

(** The gauge tensor contracted with a field point in its two Higgs
    indices: up to the normalisation of the mass term, the gauge-boson mass
    matrix at that point. *)
Definition gauge_contraction (G : tensor4) (phi : list R) (a b : nat) : R :=
  sumH (fun i => sumH (fun j => G a b i j * idx phi i * idx phi j)).

Definition gauge_mass_matrix (C_g C_gs MX v : R) (a b : nat) : R :=
  match a, b with
  | 0%nat, 0%nat | 1%nat, 1%nat | 2%nat, 2%nat => C_g * C_g * v * v / 2
  | 2%nat, 3%nat | 3%nat, 2%nat => - (C_gs * C_g * v * v / 2)
  | 3%nat, 3%nat => C_gs * C_gs * v * v / 2
  | 4%nat, 4%nat => 2 * MX * MX
  | _, _ => 0
  end.

(** Notions *)
Definition frobenius3 (T : tensor3) : R :=
  sumH (fun i => sumH (fun j => sumH (fun k => T i j k * T i j k))).

Definition kronecker (i j : nat) : R := if Nat.eqb i j then 1 else 0.

(** The columns of [Rot] are orthonormal: [Rot^T Rot = 1]. *)
Definition orthogonal (Rot : tensor2) : Prop :=
  forall l l' : nat, (l < NHiggs)%nat -> (l' < NHiggs)%nat ->
    sumH (fun i => Rot i l * Rot i l') = kronecker l l'.

Definition TripleDeriv_at (TripleDeriv : list R) : tensor3 :=
  fun i j k => idx TripleDeriv (i + j * NHiggs + k * NHiggs * NHiggs).

(** A rotation that exchanges the first two mass eigenstates. *)
Definition exchange01 : tensor2 :=
  fun i j => kronecker (match i with 0 => 1 | 1 => 0 | _ => i end)%nat j.

Definition exchange_couplings : PhysicalCouplings :=
  {| out_HiggsRotationMatrix := exchange01;
     out_LambdaHiggs_3 := fun i j k => INR (i + j + k);
     out_LambdaHiggs_3_CT := zero3 |}.

Definition exchanged_instance : Class_VDM :=
  CalculatePhysicalCouplings exchange_couplings
    (set_gen (Class_VDM_new sample_constants) sample_par).

Definition symmetric3 (T : tensor3) : Prop :=
  forall l m n, (l < NHiggs)%nat -> (m < NHiggs)%nat -> (n < NHiggs)%nat ->
    T l m n = T m l n /\ T l m n = T l n m.

Definition identity_couplings : PhysicalCouplings :=
  {| out_HiggsRotationMatrix := kronecker;
     out_LambdaHiggs_3 := fun i j k => INR (i + j + k);
     out_LambdaHiggs_3_CT := zero3 |}.

Definition identity_instance : Class_VDM :=
  CalculatePhysicalCouplings identity_couplings
    (set_gen (Class_VDM_new sample_constants) sample_par).

(** ** The Yukawa sector of SetCurvatureArrays *)

(** [std::complex<double>], over the reals. *)
Record complex : Type := Cx { Re : R; Im : R }.

Definition II : complex := Cx 0 1.

Definition of_real (x : R) : complex := Cx x 0.

Definition cneg (z : complex) : complex := Cx (- Re z) (- Im z).

Definition conj (z : complex) : complex := Cx (Re z) (- Im z).

Definition cadd (z w : complex) : complex := Cx (Re z + Re w) (Im z + Im w).

Definition cmul (z w : complex) : complex :=
  Cx (Re z * Re w - Im z * Im w) (Re z * Im w + Im z * Re w).

(** The mixed operators of a complex with a double. *)
Definition cdivr (z : complex) (x : R) : complex := Cx (Re z / x) (Im z / x).

Definition cmulr (z : complex) (x : R) : complex := Cx (Re z * x) (Im z * x).

Definition rmulc (x : R) (z : complex) : complex := Cx (x * Re z) (x * Im z).

Declare Scope cx_scope.

Delimit Scope cx_scope with cx.

Notation "z /! x" := (cdivr z x) (at level 40, left associativity) : cx_scope.

Notation "z *! x" := (cmulr z x) (at level 40, left associativity) : cx_scope.

Notation "x !* z" := (rmulc x z) (at level 40, left associativity) : cx_scope.

Notation "z *** w" := (cmul z w) (at level 40, left associativity) : cx_scope.

(** The Standard-Model constants read by the Yukawa sector: the fermion
    masses and the quark mixing matrix. *)
Record YukawaConstants : Type := {
  C_MassElectron : R; C_MassMu : R; C_MassTau : R;
  C_MassUp : R; C_MassDown : R; C_MassCharm : R;
  C_MassStrange : R; C_MassTop : R; C_MassBottom : R;
  C_Vud : complex; C_Vus : complex; C_Vub : complex;
  C_Vcd : complex; C_Vcs : complex; C_Vcb : complex;
  C_Vtd : complex; C_Vts : complex; C_Vtb : complex
}.

Definition NLepton : nat := 9.

Definition NQuarks : nat := 12.

Definition ctensor3 : Type := nat -> nat -> nat -> complex.

Definition czero3 : ctensor3 := fun _ _ _ => of_real 0.

Record centry3 : Type :=
  Ec3 { ec3_i : nat; ec3_j : nat; ec3_k : nat; ec3_x : complex }.

Definition cstore3 (T : ctensor3) (e : centry3) : ctensor3 :=
  fun i j k =>
    if Nat.eqb i (ec3_i e) && Nat.eqb j (ec3_j e) && Nat.eqb k (ec3_k e)
    then ec3_x e else T i j k.

Definition cassign3 (T : ctensor3) (es : list centry3) : ctensor3 :=
  fold_left cstore3 es T.

(** The block of assignments to [Curvature_Lepton_F2H1] (two lepton
    indices, then the Higgs index); [v] is the member. *)
Definition Curvature_Lepton_F2H1_entries (K : YukawaConstants) (v : R)
  : list centry3 :=
  [
    Ec3 0 1 2 (of_real (1 / v * C_MassElectron K));
    Ec3 0 1 3 (II /! v *! C_MassElectron K);
    Ec3 1 0 2 (of_real (1 / v * C_MassElectron K));
    Ec3 1 0 3 (II /! v *! C_MassElectron K);
    Ec3 1 6 0 (of_real (1 / v * C_MassElectron K));
    Ec3 1 6 1 (II /! v *! C_MassElectron K);
    Ec3 2 3 2 (of_real (1 / v * C_MassMu K));
    Ec3 2 3 3 (II /! v *! C_MassMu K);
    Ec3 3 2 2 (of_real (1 / v * C_MassMu K));
    Ec3 3 2 3 (II /! v *! C_MassMu K);
    Ec3 3 7 0 (of_real (1 / v * C_MassMu K));
    Ec3 3 7 1 (II /! v *! C_MassMu K);
    Ec3 4 5 2 (of_real (1 / v * C_MassTau K));
    Ec3 4 5 3 (II /! v *! C_MassTau K);
    Ec3 5 4 2 (of_real (1 / v * C_MassTau K));
    Ec3 5 4 3 (II /! v *! C_MassTau K);
    Ec3 5 8 0 (of_real (1 / v * C_MassTau K));
    Ec3 5 8 1 (II /! v *! C_MassTau K);
    Ec3 6 1 0 (of_real (1 / v * C_MassElectron K));
    Ec3 6 1 1 (II /! v *! C_MassElectron K);
    Ec3 7 3 0 (of_real (1 / v * C_MassMu K));
    Ec3 7 3 1 (II /! v *! C_MassMu K);
    Ec3 8 5 0 (of_real (1 / v * C_MassTau K));
    Ec3 8 5 1 (II /! v *! C_MassTau K) ]%cx.

(** The block of assignments to [Curvature_Quark_F2H1]. *)
Definition Curvature_Quark_F2H1_entries (K : YukawaConstants) (v : R)
  : list centry3 :=
  let V11 := C_Vud K in
  let V12 := C_Vus K in
  let V13 := C_Vub K in
  let V21 := C_Vcd K in
  let V22 := C_Vcs K in
  let V23 := C_Vcb K in
  let V31 := C_Vtd K in
  let V32 := C_Vts K in
  let V33 := C_Vtb K in
  [
    Ec3 0 6 2 (of_real (1 / v * C_MassUp K));
    Ec3 0 6 3 (cneg II /! v *! C_MassUp K);
    Ec3 0 9 0 ((- 1 / v * C_MassUp K) !* conj V11);
    Ec3 0 9 1 (II /! v *! C_MassUp K *** conj V11);
    Ec3 0 10 0 ((- 1 / v * C_MassUp K) !* conj V12);
    Ec3 0 10 1 (II /! v *! C_MassUp K *** conj V12);
    Ec3 0 11 0 ((- 1 / v * C_MassUp K) !* conj V13);
    Ec3 0 11 1 (II /! v *! C_MassUp K *** conj V13);
    Ec3 1 7 2 (of_real (1 / v * C_MassCharm K));
    Ec3 1 7 3 (cneg II /! v *! C_MassCharm K);
    Ec3 1 9 0 ((- 1 / v * C_MassCharm K) !* conj V21);
    Ec3 1 9 1 (II /! v *! C_MassCharm K *** conj V21);
    Ec3 1 10 0 ((- 1 / v * C_MassCharm K) !* conj V22);
    Ec3 1 10 1 (II /! v *! C_MassCharm K *** conj V22);
    Ec3 1 11 0 ((- 1 / v * C_MassCharm K) !* conj V23);
    Ec3 1 11 1 (II /! v *! C_MassCharm K *** conj V23);
    Ec3 2 8 2 (of_real (1 / v * C_MassTop K));
    Ec3 2 8 3 (cneg II /! v *! C_MassTop K);
    Ec3 2 9 0 ((- 1 / v * C_MassTop K) !* conj V31);
    Ec3 2 9 1 (II /! v *! C_MassTop K *** conj V31);
    Ec3 2 10 0 ((- 1 / v * C_MassTop K) !* conj V32);
    Ec3 2 10 1 (II /! v *! C_MassTop K *** conj V32);
    Ec3 2 11 0 ((- 1 / v * C_MassTop K) !* conj V33);
    Ec3 2 11 1 (II /! v *! C_MassTop K *** conj V33);
    Ec3 3 6 0 (V11 /! v *! C_MassDown K);
    Ec3 3 6 1 (II *** V11 /! v *! C_MassDown K);
    Ec3 3 7 0 (V21 /! v *! C_MassDown K);
    Ec3 3 7 1 (II *** V21 /! v *! C_MassDown K);
    Ec3 3 8 0 (V31 /! v *! C_MassDown K);
    Ec3 3 8 1 (II *** V31 /! v *! C_MassDown K);
    Ec3 3 9 2 (of_real (1 / v * C_MassDown K));
    Ec3 3 9 3 (II /! v *! C_MassDown K);
    Ec3 4 6 0 (V12 /! v *! C_MassStrange K);
    Ec3 4 6 1 (II *** V12 /! v *! C_MassStrange K);
    Ec3 4 7 0 (V22 /! v *! C_MassStrange K);
    Ec3 4 7 1 (II *** V22 /! v *! C_MassStrange K);
    Ec3 4 8 0 (V32 /! v *! C_MassStrange K);
    Ec3 4 8 1 (II *** V32 /! v *! C_MassStrange K);
    Ec3 4 10 2 (of_real (1 / v * C_MassStrange K));
    Ec3 4 10 3 (II /! v *! C_MassStrange K);
    Ec3 5 6 0 (V13 /! v *! C_MassBottom K);
    Ec3 5 6 1 (II *** V13 /! v *! C_MassBottom K);
    Ec3 5 7 0 (V23 /! v *! C_MassBottom K);
    Ec3 5 7 1 (II *** V23 /! v *! C_MassBottom K);
    Ec3 5 8 0 (V33 /! v *! C_MassBottom K);
    Ec3 5 8 1 (II *** V33 /! v *! C_MassBottom K);
    Ec3 5 11 2 (of_real (1 / v * C_MassBottom K));
    Ec3 5 11 3 (II /! v *! C_MassBottom K);
    Ec3 6 0 2 (of_real (1 / v * C_MassUp K));
    Ec3 6 0 3 (cneg II /! v *! C_MassUp K);
    Ec3 6 3 0 (V11 /! v *! C_MassDown K);
    Ec3 6 3 1 (II *** V11 /! v *! C_MassDown K);
    Ec3 6 4 0 (V12 /! v *! C_MassStrange K);
    Ec3 6 4 1 (II *** V12 /! v *! C_MassStrange K);
    Ec3 6 5 0 (V13 /! v *! C_MassBottom K);
    Ec3 6 5 1 (II *** V13 /! v *! C_MassBottom K);
    Ec3 7 1 2 (of_real (1 / v * C_MassCharm K));
    Ec3 7 1 3 (cneg II /! v *! C_MassCharm K);
    Ec3 7 3 0 (V21 /! v *! C_MassDown K);
    Ec3 7 3 1 (II *** V21 /! v *! C_MassDown K);
    Ec3 7 4 0 (V22 /! v *! C_MassStrange K);
    Ec3 7 4 1 (II *** V22 /! v *! C_MassStrange K);
    Ec3 7 5 0 (V23 /! v *! C_MassBottom K);
    Ec3 7 5 1 (II *** V23 /! v *! C_MassBottom K);
    Ec3 8 2 2 (of_real (1 / v * C_MassTop K));
    Ec3 8 2 3 (cneg II /! v *! C_MassTop K);
    Ec3 8 3 0 (V31 /! v *! C_MassDown K);
    Ec3 8 3 1 (II *** V31 /! v *! C_MassDown K);
    Ec3 8 4 0 (V32 /! v *! C_MassStrange K);
    Ec3 8 4 1 (II *** V32 /! v *! C_MassStrange K);
    Ec3 8 5 0 (V33 /! v *! C_MassBottom K);
    Ec3 8 5 1 (II *** V33 /! v *! C_MassBottom K);
    Ec3 9 0 0 ((- 1 / v * C_MassUp K) !* conj V11);
    Ec3 9 0 1 (II /! v *! C_MassUp K *** conj V11);
    Ec3 9 1 0 ((- 1 / v * C_MassCharm K) !* conj V21);
    Ec3 9 1 1 (II /! v *! C_MassCharm K *** conj V21);
    Ec3 9 2 0 ((- 1 / v * C_MassTop K) !* conj V31);
    Ec3 9 2 1 (II /! v *! C_MassTop K *** conj V31);
    Ec3 9 3 2 (of_real (1 / v * C_MassDown K));
    Ec3 9 3 3 (II /! v *! C_MassDown K);
    Ec3 10 0 0 ((- 1 / v * C_MassUp K) !* conj V12);
    Ec3 10 0 1 (II /! v *! C_MassUp K *** conj V12);
    Ec3 10 1 0 ((- 1 / v * C_MassCharm K) !* conj V22);
    Ec3 10 1 1 (II /! v *! C_MassCharm K *** conj V22);
    Ec3 10 2 0 ((- 1 / v * C_MassTop K) !* conj V32);
    Ec3 10 2 1 (II /! v *! C_MassTop K *** conj V32);
    Ec3 10 4 2 (of_real (1 / v * C_MassStrange K));
    Ec3 10 4 3 (II /! v *! C_MassStrange K);
    Ec3 11 0 0 ((- 1 / v * C_MassUp K) !* conj V13);
    Ec3 11 0 1 (II /! v *! C_MassUp K *** conj V13);
    Ec3 11 1 0 ((- 1 / v * C_MassCharm K) !* conj V23);
    Ec3 11 1 1 (II /! v *! C_MassCharm K *** conj V23);
    Ec3 11 2 0 ((- 1 / v * C_MassTop K) !* conj V33);
    Ec3 11 2 1 (II /! v *! C_MassTop K *** conj V33);
    Ec3 11 5 2 (of_real (1 / v * C_MassBottom K));
    Ec3 11 5 3 (II /! v *! C_MassBottom K) ]%cx.

(** The Yukawa tensors that [SetCurvatureArrays] leaves behind when it runs
    with the member [v] at the given value. *)
Definition Curvature_Lepton_F2H1 (K : YukawaConstants) (v : R) : ctensor3 :=
  cassign3 czero3 (Curvature_Lepton_F2H1_entries K v).

Definition Curvature_Quark_F2H1 (K : YukawaConstants) (v : R) : ctensor3 :=
  cassign3 czero3 (Curvature_Quark_F2H1_entries K v).

(** A Yukawa tensor contracted with a field point in its Higgs index. *)
Definition yukawa_contraction (Y : ctensor3) (phi : list R) (a b : nat)
  : complex :=
  fold_right (fun k acc => cadd (cmulr (Y a b k) (idx phi k)) acc)
             (of_real 0) (seq 0 NHiggs).

(** The pairs of two-component spinors that a mass term joins, and the
    mass that belongs to the pair. *)
Definition lepton_mass (K : YukawaConstants) (a b : nat) : R :=
  match a, b with
  | 0%nat, 1%nat | 1%nat, 0%nat => C_MassElectron K
  | 2%nat, 3%nat | 3%nat, 2%nat => C_MassMu K
  | 4%nat, 5%nat | 5%nat, 4%nat => C_MassTau K
  | _, _ => 0
  end.

Definition quark_mass (K : YukawaConstants) (a b : nat) : R :=
  match a, b with
  | 0%nat, 6%nat | 6%nat, 0%nat => C_MassUp K
  | 1%nat, 7%nat | 7%nat, 1%nat => C_MassCharm K
  | 2%nat, 8%nat | 8%nat, 2%nat => C_MassTop K
  | 3%nat, 9%nat | 9%nat, 3%nat => C_MassDown K
  | 4%nat, 10%nat | 10%nat, 4%nat => C_MassStrange K
  | 5%nat, 11%nat | 11%nat, 5%nat => C_MassBottom K
  | _, _ => 0
  end.

Definition sample_yukawa : YukawaConstants :=
  {| C_MassElectron := 511 / 1000000; C_MassMu := 1057 / 10000;
     C_MassTau := 1777 / 1000;
     C_MassUp := 1 / 10; C_MassDown := 1 / 10; C_MassCharm := 151 / 100;
     C_MassStrange := 1 / 10; C_MassTop := 1725 / 10; C_MassBottom := 492 / 100;
     C_Vud := Cx (974 / 1000) 0; C_Vus := Cx (225 / 1000) 0;
     C_Vub := Cx (1 / 1000) (- 3 / 1000);
     C_Vcd := Cx (- 225 / 1000) 0; C_Vcs := Cx (973 / 1000) 0;
     C_Vcb := Cx (41 / 1000) 0;
     C_Vtd := Cx (8 / 1000) (- 3 / 1000); C_Vts := Cx (- 40 / 1000) 0;
     C_Vtb := Cx (999 / 1000) 0 |}.

(** ** The command line of the scale-variation program *)

(** How [getCLIArguments] ends: with its result, with the thrown [int] of
    the help request, or with an exception derived from [std::exception]. *)
Inductive outcome (A : Type) : Type :=
| Returned (a : A)
| ThrownInt (n : Z)
| ThrownError (what : string).

Arguments Returned {A} a.

Arguments ThrownInt {A} n.

Arguments ThrownError {A} what.

Definition and_then {A B : Type} (m : outcome A) (k : A -> outcome B)
  : outcome B :=
  match m with
  | Returned a => k a
  | ThrownInt n => ThrownInt n
  | ThrownError w => ThrownError w
  end.

Definition of_result {A : Type} (m : result A) : outcome A :=
  match m with
  | Ok a => Returned a
  | Throw w => ThrownError w
  end.

(** What the program takes from elsewhere: the model identifiers with the
    value a value-initialised identifier has, the lookup of a model by name,
    the prefix test of the utility header, and the number parsers of the
    standard library, which throw on text they cannot convert. *)
Record CLI_library : Type := {
  ModelIDs : Type;
  Model_default : ModelIDs;
  getModel : string -> ModelIDs;
  StringStartsWith : string -> string -> bool;
  stoi : string -> result Z;
  stod : string -> result R
}.

(** [StringStartsWith(str, prefix)] holds exactly of the strings that begin
    with [prefix]. *)
Definition prefix_test (L : CLI_library) : Prop :=
  forall str prefix : string,
    StringStartsWith L str prefix = true
    <-> exists rest, str = (prefix ++ rest)%string.

Record ReturnType (L : CLI_library) : Type := {
  Model : ModelIDs L;
  Line : Z;
  NumberOfSteps : Z;
  InputFile : string;
  OutputFile : string;
  ConfigFile : string;
  TerminalOutput : bool;
  vw : R
}.

Arguments Model {L} _.

Arguments Line {L} _.

Arguments NumberOfSteps {L} _.

Arguments InputFile {L} _.

Arguments OutputFile {L} _.

Arguments ConfigFile {L} _.

Arguments TerminalOutput {L} _.

Arguments vw {L} _.

Definition ReturnType_default (L : CLI_library) : ReturnType L :=
  {| Model := Model_default L; Line := 0; NumberOfSteps := 0;
     InputFile := EmptyString; OutputFile := EmptyString;
     ConfigFile := EmptyString;
     TerminalOutput := false; vw := 1 / 10 |}.

Definition set_Model {L} (x : ModelIDs L) (r : ReturnType L) : ReturnType L :=
  {| Model := x; Line := Line r; NumberOfSteps := NumberOfSteps r;
     InputFile := InputFile r; OutputFile := OutputFile r;
     ConfigFile := ConfigFile r; TerminalOutput := TerminalOutput r;
     vw := vw r |}.

Definition set_Line {L} (x : Z) (r : ReturnType L) : ReturnType L :=
  {| Model := Model r; Line := x; NumberOfSteps := NumberOfSteps r;
     InputFile := InputFile r; OutputFile := OutputFile r;
     ConfigFile := ConfigFile r; TerminalOutput := TerminalOutput r;
     vw := vw r |}.

Definition set_NumberOfSteps {L} (x : Z) (r : ReturnType L) : ReturnType L :=
  {| Model := Model r; Line := Line r; NumberOfSteps := x;
     InputFile := InputFile r; OutputFile := OutputFile r;
     ConfigFile := ConfigFile r; TerminalOutput := TerminalOutput r;
     vw := vw r |}.

Definition set_InputFile {L} (x : string) (r : ReturnType L) : ReturnType L :=
  {| Model := Model r; Line := Line r; NumberOfSteps := NumberOfSteps r;
     InputFile := x; OutputFile := OutputFile r;
     ConfigFile := ConfigFile r; TerminalOutput := TerminalOutput r;
     vw := vw r |}.

Definition set_OutputFile {L} (x : string) (r : ReturnType L) : ReturnType L :=
  {| Model := Model r; Line := Line r; NumberOfSteps := NumberOfSteps r;
     InputFile := InputFile r; OutputFile := x;
     ConfigFile := ConfigFile r; TerminalOutput := TerminalOutput r;
     vw := vw r |}.

Definition set_ConfigFile {L} (x : string) (r : ReturnType L) : ReturnType L :=
  {| Model := Model r; Line := Line r; NumberOfSteps := NumberOfSteps r;
     InputFile := InputFile r; OutputFile := OutputFile r;
     ConfigFile := x; TerminalOutput := TerminalOutput r;
     vw := vw r |}.

Definition set_TerminalOutput {L} (x : bool) (r : ReturnType L)
  : ReturnType L :=
  {| Model := Model r; Line := Line r; NumberOfSteps := NumberOfSteps r;
     InputFile := InputFile r; OutputFile := OutputFile r;
     ConfigFile := ConfigFile r; TerminalOutput := x;
     vw := vw r |}.

Definition set_vw {L} (x : R) (r : ReturnType L) : ReturnType L :=
  {| Model := Model r; Line := Line r; NumberOfSteps := NumberOfSteps r;
     InputFile := InputFile r; OutputFile := OutputFile r;
     ConfigFile := ConfigFile r; TerminalOutput := TerminalOutput r;
     vw := x |}.

(** [::tolower] in the C locale: the upper-case letters move to lower case,
    every other character stays. *)
Definition tolower (c : ascii) : ascii :=
  let n := nat_of_ascii c in
  if (65 <=? n)%nat && (n <=? 90)%nat then ascii_of_nat (n + 32) else c.

Fixpoint transform_tolower (s : string) : string :=
  match s with
  | EmptyString => EmptyString
  | String c s' => String (tolower c) (transform_tolower s')
  end.

Fixpoint string_drop (pos : nat) (s : string) : option string :=
  match pos, s with
  | O, _ => Some s
  | S p, String _ s' => string_drop p s'
  | S _, EmptyString => None
  end.

(** [s.substr(pos)]: the rest of [s] from [pos] on; [std::out_of_range] if
    [pos] is beyond the end. *)
Definition substr (s : string) (pos : nat) : outcome string :=
  match string_drop pos s with
  | Some rest => Returned rest
  | None => ThrownError "basic_string::substr"
  end.

(** The body of [for (const auto &arg : args)] in the [--key=value] form. *)
Definition prefixed_argument (L : CLI_library) (res : ReturnType L)
  (arg : string) : outcome (ReturnType L) :=
  let el := transform_tolower arg in
  if StringStartsWith L el "--model=" then
    and_then (substr el (String.length "--model="))
      (fun x => Returned (set_Model (getModel L x) res))
  else if StringStartsWith L el "--input=" then
    and_then (substr arg (String.length "--input="))
      (fun x => Returned (set_InputFile x res))
  else if StringStartsWith L el "--output=" then
    and_then (substr arg (String.length "--output="))
      (fun x => Returned (set_OutputFile x res))
  else if StringStartsWith L el "--line=" then
    and_then (substr el (String.length "--line="))
      (fun x => and_then (of_result (stoi L x))
         (fun n => Returned (set_Line n res)))
  else if StringStartsWith L el "--numberofsteps=" then
    and_then (substr el (String.length "--numberofsteps="))
      (fun x => and_then (of_result (stoi L x))
         (fun n => Returned (set_NumberOfSteps n res)))
  else if StringStartsWith L el "--terminaloutput=" then
    and_then (substr el (String.length "--lastline="))
      (fun x => Returned (set_TerminalOutput (String.eqb x "y") res))
  else if StringStartsWith L el "--vw=" then
    and_then (substr el (String.length "--vw="))
      (fun x => and_then (of_result (stod L x))
         (fun w => Returned (set_vw w res)))
  else if StringStartsWith L el "--config=" then
    and_then (substr arg (String.length "--config"))
      (fun x => Returned (set_ConfigFile x res))
  else Returned res.

Fixpoint prefixed_arguments (L : CLI_library) (res : ReturnType L)
  (args : list string) : outcome (ReturnType L) :=
  match args with
  | [] => Returned res
  | arg :: rest =>
      and_then (prefixed_argument L res arg)
               (fun res' => prefixed_arguments L res' rest)
  end.

(** [args.at(i)], read where the argument count has been checked. *)
Definition arg_at (args : list string) (i : nat) : string :=
  nth i args EmptyString.

(** The positional form.  [argv[6]] is [args.at(5)]. *)
Definition positional_arguments (L : CLI_library) (res : ReturnType L)
  (args : list string) : outcome (ReturnType L) :=
  let argc := S (length args) in
  let res1 := set_Model (getModel L (arg_at args 0)) res in
  let res2 := set_InputFile (arg_at args 1) res1 in
  let res3 := set_OutputFile (arg_at args 2) res2 in
  and_then (of_result (stoi L (arg_at args 3))) (fun line =>
  let res4 := set_Line line res3 in
  and_then (of_result (stoi L (arg_at args 4))) (fun steps =>
  let res5 := set_NumberOfSteps steps res4 in
  let res6 := set_ConfigFile (arg_at args 5) res5 in
  if Nat.eqb argc 8 then
    let s7 := arg_at args 5 in
    Returned (set_TerminalOutput (String.eqb "y" s7) res6)
  else Returned res6)).

(** [getCLIArguments(argc, argv)]; [args] is [argv[1]] ... [argv[argc-1]].
    The help text that is printed first is left out. *)
Definition getCLIArguments (L : CLI_library) (args : list string)
  : outcome (ReturnType L) :=
  let argc := S (length args) in
  if (0 <? length args)%nat && String.eqb (arg_at args 0) "--help" then
    ThrownInt 0
  else if (argc <? 7)%nat then
    ThrownError "Too few arguments."
  else
    let res := ReturnType_default L in
    let UsePrefix := StringStartsWith L (arg_at args 0) "--" in
    and_then (if UsePrefix then prefixed_arguments L res args
              else positional_arguments L res args)
      (fun res' =>
         if Z.eqb (NumberOfSteps res') 0 then
           ThrownError "You have set the number of steps to zero."
         else Returned res').

(** The factors of the scale in [main]:
    [for (step = 0; step < NumberOfSteps; step++)
       mu_factor = 1/2. + step / static_cast<double>(NumberOfSteps)]. *)
Definition mu_factors (NumberOfSteps : Z) : list R :=
  map (fun step : nat => 1 / 2 + IZR (Z.of_nat step) / IZR NumberOfSteps)
      (seq 0 (Z.to_nat NumberOfSteps)).

(** A library for the examples: models are named by their strings, and the
    number parsers know two texts. *)
Fixpoint starts_with (prefix str : string) : bool :=
  match prefix, str with
  | EmptyString, _ => true
  | String _ _, EmptyString => false
  | String c p, String d s => Ascii.eqb c d && starts_with p s
  end.

Definition sample_library : CLI_library :=
  {| ModelIDs := string;
     Model_default := "notset"%string;
     getModel := fun name => name;
     StringStartsWith := fun str prefix => starts_with prefix str;
     stoi := fun text => if String.eqb text "2" then Ok 2%Z
                         else if String.eqb text "10" then Ok 10%Z
                         else Throw "stoi";
     stod := fun text => if String.eqb text "0.1" then Ok (1 / 10)
                         else Throw "stod" |}.

Definition begins_with_equals_sign (s : string) : Prop :=
  s = EmptyString \/ exists rest, s = String "="%char rest.

Definition prefixed_command_line : list string :=
  ["--Model=vdm"; "--input=In.tsv"; "--output=out.tsv"; "--line=2";
   "--NumberOfSteps=10"; "--config=c.ini"; "--TerminalOutput=y"]%string.

Definition prefixed_result : ReturnType sample_library :=
  Build_ReturnType sample_library "vdm"%string 2 10
    "In.tsv" "out.tsv" "=c.ini" false (1 / 10).

Definition positional_command_line : list string :=
  ["vdm"; "in.tsv"; "out.tsv"; "2"; "10"; "y"; "y"]%string.

(** * Properties *)

(** ** Generic facts: exceptions and vectors *)

Lemma at_in_range (vec : list R) (i : nat) :
  (i < length vec)%nat -> at_ vec i = Ok (idx vec i).
Proof.
  intro Hi. unfold at_, idx.
  rewrite (nth_error_nth' vec 0 Hi). reflexivity.
Qed.

Lemma at_out_of_range (vec : list R) (i : nat) :
  (length vec <= i)%nat -> at_ vec i = Throw "vector::_M_range_check".
Proof.
  intro Hi. unfold at_.
  apply nth_error_None in Hi. rewrite Hi. reflexivity.
Qed.

Lemma mapM_all_ok {A B : Type} (f : A -> result B) (g : A -> B) (l : list A) :
  (forall a, In a l -> f a = Ok (g a)) -> mapM f l = Ok (map g l).
Proof.
  induction l as [|a l IH]; intro Hall; [reflexivity|].
  cbn [mapM map]. rewrite (Hall a (or_introl eq_refl)). cbn [bind].
  rewrite IH by (intros b Hb; apply Hall; right; exact Hb).
  reflexivity.
Qed.

Lemma mapM_one_throws {A B : Type} (f : A -> result B) (l : list A) (a : A) :
  In a l -> throws (f a) -> throws (mapM f l).
Proof.
  induction l as [|b l IH]; intros Hin Hf; [destruct Hin|].
  cbn [mapM]. destruct Hin as [-> | Hin].
  - destruct Hf as [w Hw]. rewrite Hw. exists w. reflexivity.
  - destruct (f b) as [y|w']; cbn [bind]; [|exists w'; reflexivity].
    destruct (IH Hin Hf) as [w' Hw']. rewrite Hw'. exists w'. reflexivity.
Qed.

Lemma throws_not_returns {A : Type} (m : result A) : throws m -> ~ returns m.
Proof. intros [w Hw] [a Ha]. congruence. Qed.

Lemma returns_not_throws {A : Type} (m : result A) : returns m -> ~ throws m.
Proof. intros [a Ha] [w Hw]. congruence. Qed.

Lemma lt_NHiggs_cases (i : nat) :
  (i < NHiggs)%nat ->
  i = 0%nat \/ i = 1%nat \/ i = 2%nat \/ i = 3%nat \/ i = 4%nat \/ i = 5%nat.
Proof. unfold NHiggs, NNeutralHiggs, NChargedHiggs. lia. Qed.

(** Every index is one of the six field directions or lies beyond them. *)
Lemma index_cases (i : nat) :
  i = 0%nat \/ i = 1%nat \/ i = 2%nat \/ i = 3%nat \/ i = 4%nat \/ i = 5%nat
  \/ exists i', i = (6 + i')%nat.
Proof.
  do 6 (destruct i as [|i]; [tauto|]).
  right; right; right; right; right; right. exists i. reflexivity.
Qed.

Ltac split_index i :=
  let H := fresh "H" in
  let i' := fresh i in
  destruct (index_cases i) as [H|[H|[H|[H|[H|[H|[i' H]]]]]]]; subst i.

Ltac field_index H :=
  apply lt_NHiggs_cases in H;
  destruct H as [H | [H | [H | [H | [H | H]]]]]; subst.

Lemma fill_HesseWeinberg_ok (WeinbergHesse : list R) :
  (NHiggs * NHiggs <= length WeinbergHesse)%nat ->
  fill_HesseWeinberg WeinbergHesse =
  Ok (map (fun i => map (fun j => HesseWeinberg WeinbergHesse i j)
                        (seq 0 NHiggs))
          (seq 0 NHiggs)).
Proof.
  intro Hlen. unfold fill_HesseWeinberg.
  apply mapM_all_ok. intros i Hi. apply mapM_all_ok. intros j Hj.
  apply in_seq in Hi. apply in_seq in Hj.
  apply at_in_range. unfold NHiggs, NNeutralHiggs, NChargedHiggs in *.
  cbn in Hlen. lia.
Qed.

Lemma fill_HesseWeinberg_short (WeinbergHesse : list R) :
  (length WeinbergHesse < NHiggs * NHiggs)%nat ->
  throws (fill_HesseWeinberg WeinbergHesse).
Proof.
  intro Hlen. unfold fill_HesseWeinberg.
  apply (mapM_one_throws _ _ 5%nat); [apply in_seq; cbv; lia|].
  apply (mapM_one_throws _ _ 5%nat); [apply in_seq; cbv; lia|].
  exists "vector::_M_range_check"%string.
  apply at_out_of_range.
  cbv [NHiggs NNeutralHiggs NChargedHiggs] in *. cbn in *. lia.
Qed.

Lemma mat_HesseWeinberg (WeinbergHesse : list R) (i j : nat) :
  (i < NHiggs)%nat -> (j < NHiggs)%nat ->
  mat (map (fun i => map (fun j => HesseWeinberg WeinbergHesse i j)
                         (seq 0 NHiggs))
           (seq 0 NHiggs)) i j
  = HesseWeinberg WeinbergHesse i j.
Proof.
  intros Hi Hj. field_index Hi; field_index Hj; reflexivity.
Qed.

(** ** Index symmetry of the quartic tensors *)

Ltac run_assignments :=
  cbv [assign4 fold_left store4 Curvature_Higgs_L4_entries
       Curvature_Higgs_CT_L4_entries e4_i e4_j e4_k e4_l e4_x
       Nat.eqb Nat.add andb].

Lemma zero4_swap_invariant : swap_invariant zero4.
Proof. intros i j k l. repeat split. Qed.

Lemma Curvature_Higgs_L4_entries_swap (T : tensor4) (lambdaH kappa lambdaS : R) :
  swap_invariant T ->
  swap_invariant (assign4 T (Curvature_Higgs_L4_entries lambdaH kappa lambdaS)).
Proof.
  intros HT i j k l.
  split_index i; split_index j; split_index k; split_index l;
    run_assignments; repeat split; first [reflexivity | apply HT].
Qed.

Lemma Curvature_Higgs_CT_L4_entries_swap (T : tensor4)
  (dlambdaH dkappa dlambdaS : R) :
  swap_invariant T ->
  swap_invariant
    (assign4 T (Curvature_Higgs_CT_L4_entries dlambdaH dkappa dlambdaS)).
Proof.
  intros HT i j k l.
  split_index i; split_index j; split_index k; split_index l;
    run_assignments; repeat split; first [reflexivity | apply HT].
Qed.

(** From adjacent transpositions to arbitrary permutations, by induction on
    the permutation; the prefix [pre] carries the indices already passed. *)
Lemma swap_invariant_Permutation (T : tensor4) :
  swap_invariant T ->
  forall p q : list nat, Permutation p q ->
  forall pre : list nat, tuple4 T (pre ++ p) = tuple4 T (pre ++ q).
Proof.
  intros HT p q Hpq.
  induction Hpq as [| x p q _ IH | x y p | p q r _ IH1 _ IH2]; intro pre.
  - reflexivity.
  - change (x :: p) with ([x] ++ p). change (x :: q) with ([x] ++ q).
    rewrite !app_assoc. apply IH.
  - destruct pre as [|a [|b [|c [|d [|e pre]]]]];
      destruct p as [|f [|g [|h p]]]; cbn; try reflexivity; apply HT.
  - rewrite IH1. apply IH2.
Qed.

Lemma SetCurvatureArrays_L4_swap (s : Class_VDM) :
  swap_invariant (Curvature_Higgs_L4 (SetCurvatureArrays s)).
Proof.
  unfold SetCurvatureArrays. cbn [Curvature_Higgs_L4 initVectors].
  apply Curvature_Higgs_L4_entries_swap, zero4_swap_invariant.
Qed.

Lemma set_CT_Pot_Par_L4_swap (s : Class_VDM) (par : list R) :
  swap_invariant (Curvature_Higgs_CT_L4 s) ->
  swap_invariant (Curvature_Higgs_CT_L4 (set_CT_Pot_Par s par)).
Proof.
  intro Hs. unfold set_CT_Pot_Par. cbn [Curvature_Higgs_CT_L4].
  apply Curvature_Higgs_CT_L4_entries_swap, Hs.
Qed.

Lemma SetCurvatureArrays_CT_L4 (s : Class_VDM) :
  Curvature_Higgs_CT_L4 (SetCurvatureArrays s) = zero4.
Proof. reflexivity. Qed.

Lemma CalculatePhysicalCouplings_CT_L4 (out : PhysicalCouplings) (s : Class_VDM) :
  Curvature_Higgs_CT_L4 (CalculatePhysicalCouplings out s)
  = Curvature_Higgs_CT_L4 s.
Proof. reflexivity. Qed.

Lemma CalculatePhysicalCouplings_L4 (out : PhysicalCouplings) (s : Class_VDM) :
  Curvature_Higgs_L4 (CalculatePhysicalCouplings out s) = Curvature_Higgs_L4 s.
Proof. reflexivity. Qed.

Lemma set_CT_Pot_Par_L4 (s : Class_VDM) (par : list R) :
  Curvature_Higgs_L4 (set_CT_Pot_Par s par) = Curvature_Higgs_L4 s.
Proof. reflexivity. Qed.

(** C4.  Once [SetCurvatureArrays] has run, [Curvature_Higgs_L4] takes the
    same value at every permutation of an index tuple; and once
    [set_CT_Pot_Par] has run on the populated (and possibly diagonalized)
    instance, so does [Curvature_Higgs_CT_L4].  Entries that no assignment
    writes are the zeros left by [initVectors]. *)
Theorem quartic_tensors_fully_symmetric
  (s : Class_VDM) (out : PhysicalCouplings) (par : list R)
  (i j k l i' j' k' l' : nat) :
  Permutation [i; j; k; l] [i'; j'; k'; l'] ->
  let s1 := SetCurvatureArrays s in
  let s2 := set_CT_Pot_Par (CalculatePhysicalCouplings out s1) par in
  Curvature_Higgs_L4 s1 i j k l = Curvature_Higgs_L4 s1 i' j' k' l' /\
  Curvature_Higgs_L4 s2 i j k l = Curvature_Higgs_L4 s2 i' j' k' l' /\
  Curvature_Higgs_CT_L4 s2 i j k l = Curvature_Higgs_CT_L4 s2 i' j' k' l'.
Proof.
  intros Hperm s1 s2.
  assert (H1 : swap_invariant (Curvature_Higgs_L4 s1))
    by apply SetCurvatureArrays_L4_swap.
  assert (H2 : swap_invariant (Curvature_Higgs_CT_L4 s2)).
  { apply set_CT_Pot_Par_L4_swap.
    rewrite CalculatePhysicalCouplings_CT_L4.
    unfold s1. rewrite SetCurvatureArrays_CT_L4.
    apply zero4_swap_invariant. }
  assert (E : Curvature_Higgs_L4 s2 = Curvature_Higgs_L4 s1) by reflexivity.
  rewrite E.
  pose proof (swap_invariant_Permutation _ H1 _ _ Hperm []) as P1.
  pose proof (swap_invariant_Permutation _ H2 _ _ Hperm []) as P2.
  cbn [app tuple4] in P1, P2.
  repeat split; assumption.
Qed.

Lemma quartic_tensors_fully_symmetric_witness :
  Permutation [2; 4; 4; 2]%nat [4; 2; 2; 4]%nat /\
  let s1 := SetCurvatureArrays (Class_VDM_new sample_constants) in
  let s2 := set_CT_Pot_Par (CalculatePhysicalCouplings no_couplings s1)
              (repeat 1 nParCT) in
  Curvature_Higgs_L4 s1 2 4 4 2 = Curvature_Higgs_L4 s1 4 2 2 4 /\
  Curvature_Higgs_L4 s2 2 4 4 2 = Curvature_Higgs_L4 s2 4 2 2 4 /\
  Curvature_Higgs_CT_L4 s2 2 4 4 2 = Curvature_Higgs_CT_L4 s2 4 2 2 4.
Proof.
  assert (Hperm : Permutation [2; 4; 4; 2]%nat [4; 2; 2; 4]%nat).
  { apply perm_trans with [4; 2; 4; 2]%nat; [apply perm_swap|].
    do 2 apply perm_skip. apply perm_swap. }
  split; [exact Hperm|].
  exact (quartic_tensors_fully_symmetric (Class_VDM_new sample_constants)
           no_couplings (repeat 1 nParCT) 2 4 4 2 4 2 2 4 Hperm).
Defined.

(** ** The populated instance *)

Lemma set_gen_populated (s : Class_VDM) (par : list R) :
  SetCurvatureDone s = false -> populated (set_gen s par).
Proof.
  intro Hgate. unfold set_gen. cbn [SetCurvatureDone]. rewrite Hgate.
  cbn [negb]. constructor; reflexivity.
Qed.

Lemma CalculatePhysicalCouplings_populated (out : PhysicalCouplings)
  (s : Class_VDM) :
  populated s -> populated (CalculatePhysicalCouplings out s).
Proof. intros [? ? ? ? ? ? ? ? ? ? ? ? ?]. constructor; assumption. Qed.

Lemma set_gen_v (s : Class_VDM) (par : list R) :
  v (set_gen s par) = C_vev0 (SMConstants s).
Proof.
  unfold set_gen. cbn [SetCurvatureDone].
  destruct (negb (SetCurvatureDone s)); reflexivity.
Qed.

Lemma set_gen_vs (s : Class_VDM) (par : list R) :
  vs (set_gen s par) = idx par 3.
Proof.
  unfold set_gen. cbn [SetCurvatureDone].
  destruct (negb (SetCurvatureDone s)); reflexivity.
Qed.

Lemma set_gen_vevTree (s : Class_VDM) (par : list R) :
  vevTree (set_gen s par) = [0; 0; C_vev0 (SMConstants s); 0; idx par 3; 0].
Proof.
  unfold set_gen. cbn [SetCurvatureDone].
  destruct (negb (SetCurvatureDone s)); reflexivity.
Qed.

Lemma set_gen_lambdaH (s : Class_VDM) (par : list R) :
  lambdaH (set_gen s par)
  = (idx par 0 * idx par 0 * cos (idx par 4) * cos (idx par 4) +
     idx par 1 * idx par 1 * sin (idx par 4) * sin (idx par 4)) /
    (2 * idx par 2 * idx par 2).
Proof.
  unfold set_gen. cbn [SetCurvatureDone].
  destruct (negb (SetCurvatureDone s)); reflexivity.
Qed.

Lemma set_gen_kappa (s : Class_VDM) (par : list R) :
  kappa (set_gen s par)
  = (idx par 0 * idx par 0 - idx par 1 * idx par 1) *
    sin (idx par 4) * cos (idx par 4) / (idx par 2 * idx par 3).
Proof.
  unfold set_gen. cbn [SetCurvatureDone].
  destruct (negb (SetCurvatureDone s)); reflexivity.
Qed.

Lemma set_gen_lambdaS (s : Class_VDM) (par : list R) :
  lambdaS (set_gen s par)
  = (idx par 1 * idx par 1 * cos (idx par 4) * cos (idx par 4) +
     idx par 0 * idx par 0 * sin (idx par 4) * sin (idx par 4)) /
    (2 * idx par 3 * idx par 3).
Proof.
  unfold set_gen. cbn [SetCurvatureDone].
  destruct (negb (SetCurvatureDone s)); reflexivity.
Qed.

(** ** Contractions at the tree-level VEV *)

Ltac contract :=
  cbv [sumH NHiggs NNeutralHiggs NChargedHiggs Nat.add seq fold_right
       assign1 assign2 assign4 fold_left store1 store2 store4
       Curvature_Higgs_L2_entries Curvature_Higgs_L4_entries
       Curvature_Higgs_CT_L1_entries Curvature_Higgs_CT_L2_entries
       Curvature_Higgs_CT_L4_entries
       e1_i e1_x e2_i e2_j e2_x e4_i e4_j e4_k e4_l e4_x
       Nat.eqb andb zero1 zero2 zero3 zero4];
  repeat match goal with
         | |- context [idx (?h :: ?t) ?n] =>
             let x := eval cbv [idx nth] in (idx (h :: t) n) in
             change (idx (h :: t) n) with x
         end.

Section Contractions.

Variable s : Class_VDM.
Hypothesis Hpop : populated s.

Lemma NablaTree_populated (i : nat) :
  (i < NHiggs)%nat -> NablaTree s i = 0.
Proof.
  intro Hi. destruct Hpop as [_ Hvev _ HmuH HmuS HL1 HL2 HL3 HL4 _ _ _ _].
  unfold NablaTree, gradient.
  rewrite HL1, HL2, HL3, HL4, Hvev, HmuH, HmuS.
  field_index Hi; contract; field.
Qed.

Lemma HesseTree_populated :
  HesseTree s 2 2 = 2 * lambdaH s * v s * v s /\
  HesseTree s 2 4 = kappa s * v s * vs s /\
  HesseTree s 4 2 = kappa s * v s * vs s /\
  HesseTree s 4 4 = 2 * lambdaS s * vs s * vs s.
Proof.
  destruct Hpop as [_ Hvev _ HmuH HmuS HL1 HL2 HL3 HL4 _ _ _ _].
  unfold HesseTree, hessian.
  rewrite HL2, HL3, HL4, Hvev, HmuH, HmuS.
  repeat split; contract; field.
Qed.

Variable par : list R.

Lemma vevTree_set_CT_Pot_Par : vevTree (set_CT_Pot_Par s par) = vevTree s.
Proof. reflexivity. Qed.

Lemma NablaCT_set_CT_Pot_Par :
  let s' := set_CT_Pot_Par s par in
  NablaCT s' 0 = idx par 5 /\
  NablaCT s' 1 = idx par 6 /\
  NablaCT s' 2 = idx par 7 - idx par 0 * v s + idx par 1 * v s * v s * v s + idx par 2 * v s * vs s * vs s / 2 /\
  NablaCT s' 3 = idx par 8 /\
  NablaCT s' 4 = idx par 9 - idx par 3 * vs s + idx par 4 * vs s * vs s * vs s + idx par 2 * v s * v s * vs s / 2 /\
  NablaCT s' 5 = idx par 10.
Proof.
  destruct Hpop as [_ Hvev _ _ _ _ _ _ _ HC1 HC2 HC3 HC4].
  unfold NablaCT, gradient, set_CT_Pot_Par.
  cbn [Curvature_Higgs_CT_L1 Curvature_Higgs_CT_L2 Curvature_Higgs_CT_L3 Curvature_Higgs_CT_L4 vevTree].
  rewrite HC1, HC2, HC3, HC4, Hvev.
  generalize (idx par 0) (idx par 1) (idx par 2) (idx par 3) (idx par 4) (idx par 5) (idx par 6) (idx par 7) (idx par 8) (idx par 9) (idx par 10).
  intros. repeat split; contract; field.
Qed.

Lemma HesseCT_set_CT_Pot_Par :
  let s' := set_CT_Pot_Par s par in
  HesseCT s' 2 2 = - idx par 0 + 3 * idx par 1 * v s * v s + idx par 2 * vs s * vs s / 2 /\
  HesseCT s' 2 4 = idx par 2 * v s * vs s /\
  HesseCT s' 4 2 = idx par 2 * v s * vs s /\
  HesseCT s' 4 4 = - idx par 3 + 3 * idx par 4 * vs s * vs s + idx par 2 * v s * v s / 2.
Proof.
  destruct Hpop as [_ Hvev _ _ _ _ _ _ _ HC1 HC2 HC3 HC4].
  unfold HesseCT, hessian, set_CT_Pot_Par.
  cbn [Curvature_Higgs_CT_L1 Curvature_Higgs_CT_L2 Curvature_Higgs_CT_L3 Curvature_Higgs_CT_L4 vevTree].
  rewrite HC2, HC3, HC4, Hvev.
  generalize (idx par 0) (idx par 1) (idx par 2) (idx par 3) (idx par 4) (idx par 5) (idx par 6) (idx par 7) (idx par 8) (idx par 9) (idx par 10).
  intros. repeat split; contract; field.
Qed.
End Contractions.

(** ** The counterterm solver on a populated, diagonalized instance *)

Lemma calc_CT_returns (s : Class_VDM) (WeinbergNabla WeinbergHesse : list R) :
  SetCurvatureDone s = true ->
  CalcCouplingsdone s = true ->
  (NHiggs * NHiggs <= length WeinbergHesse)%nat ->
  let NablaWeinberg := idx WeinbergNabla in
  let HesseWeinberg := HesseWeinberg WeinbergHesse in
  let v := v s in
  let vs := vs s in
  calc_CT s WeinbergNabla WeinbergHesse =
  Ok [ (- HesseWeinberg 2%nat 2%nat * v - HesseWeinberg 2%nat 4%nat * vs +
        3 * HesseWeinberg 3%nat 3%nat * v) / v / 2;
       (- HesseWeinberg 2%nat 2%nat + HesseWeinberg 3%nat 3%nat) *
         powerRZ v (-2) / 2;
       - HesseWeinberg 2%nat 4%nat / v / vs;
       (- HesseWeinberg 2%nat 4%nat * v -
        vs * (HesseWeinberg 4%nat 4%nat - 3 * HesseWeinberg 5%nat 5%nat)) /
         vs / 2;
       (- HesseWeinberg 4%nat 4%nat + HesseWeinberg 5%nat 5%nat) *
         powerRZ vs (-2) / 2;
       - NablaWeinberg 0%nat;
       - NablaWeinberg 1%nat;
       HesseWeinberg 3%nat 3%nat * v - NablaWeinberg 2%nat;
       - NablaWeinberg 3%nat;
       HesseWeinberg 5%nat 5%nat * vs - NablaWeinberg 4%nat;
       - NablaWeinberg 5%nat ].
Proof.
  intros Hcurv Hcoup Hlen. unfold calc_CT.
  rewrite Hcurv, Hcoup. cbn [negb].
  rewrite (fill_HesseWeinberg_ok _ Hlen). reflexivity.
Qed.

(** ** Mass matching *)

Lemma powerRZ_minus_two (x : R) : powerRZ x (-2) = / (x * x).
Proof.
  unfold powerRZ. change (Pos.to_nat 2) with 2%nat.
  cbn [pow]. rewrite Rmult_1_r. reflexivity.
Qed.

(** C2.  On an instance populated by [set_gen] and then diagonalized, with
    nonzero VEVs and a one-loop Hessian of full size that is symmetric in
    the pair (2,4), the solver returns, and after its output is fed to
    [set_CT_Pot_Par] the Hessian of the counterterm potential at the
    tree-level VEV is the negative of the one-loop Hessian at each of the
    entries (2,2), (2,4), (4,2), (4,4); tree level plus counterterm plus one
    loop is then the tree-level entry. *)
Theorem counterterm_hessian_cancels_one_loop
  (s0 : Class_VDM) (par0 : list R) (out : PhysicalCouplings)
  (WeinbergNabla WeinbergHesse : list R) :
  SetCurvatureDone s0 = false ->
  C_vev0 (SMConstants s0) <> 0 ->
  idx par0 3 <> 0 ->
  (NHiggs * NHiggs <= length WeinbergHesse)%nat ->
  HesseWeinberg WeinbergHesse 4 2 = HesseWeinberg WeinbergHesse 2 4 ->
  let s := CalculatePhysicalCouplings out (set_gen s0 par0) in
  exists s',
    counterterms s WeinbergNabla WeinbergHesse = Ok s' /\
    (forall i j : nat,
        In (i, j) [(2, 2); (2, 4); (4, 2); (4, 4)]%nat ->
        HesseCT s' i j = - HesseWeinberg WeinbergHesse i j /\
        HesseTree s' i j + HesseCT s' i j + HesseWeinberg WeinbergHesse i j
        = HesseTree s' i j).
Proof.
  intros Hgate Hv Hvs Hlen Hsym s.
  assert (Hpop : populated s)
    by (apply CalculatePhysicalCouplings_populated, set_gen_populated, Hgate).
  assert (Ev : v s = C_vev0 (SMConstants s0)) by apply set_gen_v.
  assert (Evs : vs s = idx par0 3) by apply set_gen_vs.
  rewrite <- Ev in Hv. rewrite <- Evs in Hvs.
  unfold counterterms.
  rewrite (calc_CT_returns s WeinbergNabla WeinbergHesse
             (pop_gate s Hpop) eq_refl Hlen).
  cbn [bind]. eexists. split; [reflexivity|].
  intros i j Hin.
  match goal with
  | |- HesseCT (set_CT_Pot_Par s ?p) _ _ = _ /\ _ =>
      destruct (HesseCT_set_CT_Pot_Par s Hpop p) as (H22 & H24 & H42 & H44);
      assert (Hct : HesseCT (set_CT_Pot_Par s p) i j
                    = - HesseWeinberg WeinbergHesse i j)
  end.
  2:{ split; [exact Hct|]. rewrite Hct. ring. }
  cbn [In] in Hin.
  destruct Hin as [E|[E|[E|[E|[]]]]]; inversion E; subst i j; clear E.
  - rewrite H22. cbv [idx nth]. rewrite powerRZ_minus_two. field. tauto.
  - rewrite H24. cbv [idx nth]. field. tauto.
  - rewrite H42, Hsym. cbv [idx nth]. field. tauto.
  - rewrite H44. cbv [idx nth]. rewrite !powerRZ_minus_two. field. tauto.
Qed.

Lemma counterterm_hessian_cancels_one_loop_witness :
  SetCurvatureDone (Class_VDM_new sample_constants) = false /\
  C_vev0 (SMConstants (Class_VDM_new sample_constants)) <> 0 /\
  idx sample_par 3 <> 0 /\
  (NHiggs * NHiggs <= length (repeat 1 36))%nat /\
  HesseWeinberg (repeat 1 36) 4 2 = HesseWeinberg (repeat 1 36) 2 4 /\
  exists s',
    counterterms sample_instance (repeat 0 6) (repeat 1 36) = Ok s' /\
    (forall i j : nat,
        In (i, j) [(2, 2); (2, 4); (4, 2); (4, 4)]%nat ->
        HesseCT s' i j = - HesseWeinberg (repeat 1 36) i j /\
        HesseTree s' i j + HesseCT s' i j + HesseWeinberg (repeat 1 36) i j
        = HesseTree s' i j).
Proof.
  assert (Hv : C_vev0 (SMConstants (Class_VDM_new sample_constants)) <> 0)
    by (cbn; lra).
  assert (Hvs : idx sample_par 3 <> 0) by (cbv [idx nth sample_par]; lra).
  assert (Hlen : (NHiggs * NHiggs <= length (repeat 1 36))%nat)
    by (cbn; lia).
  repeat split; try assumption; try reflexivity.
  exact (counterterm_hessian_cancels_one_loop
           (Class_VDM_new sample_constants) sample_par no_couplings
           (repeat 0 6) (repeat 1 36) eq_refl Hv Hvs Hlen eq_refl).
Defined.
(** ** Tadpole matching *)

Lemma sample_instance_populated : populated sample_instance.
Proof.
  apply CalculatePhysicalCouplings_populated, set_gen_populated. reflexivity.
Qed.

(** C3, as stated, fails: with a one-loop Hessian whose entries are all 1
    and a vanishing one-loop gradient, the rank-1 entries in direction 2 add
    up to [v = 246], not to zero. *)
Lemma rank1_tadpole_sum_nonzero :
  exists s',
    counterterms sample_instance (repeat 0 6) (repeat 1 36) = Ok s' /\
    Curvature_Higgs_L1 s' 2 + Curvature_Higgs_CT_L1 s' 2 + idx (repeat 0 6) 2
    <> 0.
Proof.
  eexists. split.
  - unfold counterterms.
    rewrite calc_CT_returns by (reflexivity || (cbn; lia)).
    reflexivity.
  - unfold set_CT_Pot_Par.
    cbn [Curvature_Higgs_L1 Curvature_Higgs_CT_L1].
    rewrite (pop_L1 _ sample_instance_populated).
    rewrite (pop_CT_L1 _ sample_instance_populated).
    contract. unfold sample_instance at 1.
    cbn [v CalculatePhysicalCouplings]. rewrite set_gen_v. cbv [HesseWeinberg idx nth repeat Nat.mul Nat.add NHiggs NNeutralHiggs NChargedHiggs sample_par
     Class_VDM_new SMConstants sample_constants C_vev0].
    lra.
Qed.

(** C3, amended.  On an instance populated by [set_gen] and then
    diagonalized, with nonzero VEVs and a one-loop Hessian of full size, the
    solver returns, and after its output is fed to [set_CT_Pot_Par], in
    every field direction the first derivative of the counterterm potential
    at the tree-level VEV cancels the one-loop gradient component, and tree
    level, counterterm and one loop add up to zero.  The rank-1 entries
    alone add up to [dT_offset]: zero in the directions 0, 1, 3, 5, and the
    Goldstone entry of the one-loop Hessian times the VEV in the directions
    2 and 4. *)
Theorem tadpoles_cancel_at_tree_VEV
  (s0 : Class_VDM) (par0 : list R) (out : PhysicalCouplings)
  (WeinbergNabla WeinbergHesse : list R) :
  SetCurvatureDone s0 = false ->
  C_vev0 (SMConstants s0) <> 0 ->
  idx par0 3 <> 0 ->
  (NHiggs * NHiggs <= length WeinbergHesse)%nat ->
  let s := CalculatePhysicalCouplings out (set_gen s0 par0) in
  exists s',
    counterterms s WeinbergNabla WeinbergHesse = Ok s' /\
    forall i : nat,
      (i < NHiggs)%nat ->
      NablaCT s' i + idx WeinbergNabla i = 0 /\
      NablaTree s' i + NablaCT s' i + idx WeinbergNabla i = 0 /\
      Curvature_Higgs_L1 s' i + Curvature_Higgs_CT_L1 s' i
        + idx WeinbergNabla i = dT_offset s' WeinbergHesse i.
Proof.
  intros Hgate Hv Hvs Hlen s.
  assert (Hpop : populated s)
    by (apply CalculatePhysicalCouplings_populated, set_gen_populated, Hgate).
  assert (Ev : v s = C_vev0 (SMConstants s0)) by apply set_gen_v.
  assert (Evs : vs s = idx par0 3) by apply set_gen_vs.
  rewrite <- Ev in Hv. rewrite <- Evs in Hvs.
  unfold counterterms.
  rewrite (calc_CT_returns s WeinbergNabla WeinbergHesse
             (pop_gate s Hpop) eq_refl Hlen).
  cbn [bind]. eexists. split; [reflexivity|].
  intros i Hi.
  match goal with
  | |- NablaCT (set_CT_Pot_Par s ?p) _ + _ = _ /\ _ =>
      destruct (NablaCT_set_CT_Pot_Par s Hpop p)
        as (G0 & G1 & G2 & G3 & G4 & G5);
      set (s' := set_CT_Pot_Par s p) in *
  end.
  assert (HT : NablaTree s' i = 0) by (apply (NablaTree_populated s Hpop i Hi)).
  assert (HC : NablaCT s' i + idx WeinbergNabla i = 0).
  { field_index Hi;
      [rewrite G0 | rewrite G1 | rewrite G2 | rewrite G3 | rewrite G4
       | rewrite G5];
      cbv [idx nth]; rewrite ?powerRZ_minus_two; field; tauto. }
  split; [exact HC|]. split; [rewrite HT; lra|].
  unfold s', set_CT_Pot_Par, dT_offset.
  cbn [Curvature_Higgs_L1 Curvature_Higgs_CT_L1 v vs].
  rewrite (pop_L1 s Hpop), (pop_CT_L1 s Hpop).
  field_index Hi; contract; cbn [Nat.eqb]; cbv [idx nth]; ring.
Qed.

Lemma tadpoles_cancel_at_tree_VEV_witness :
  SetCurvatureDone (Class_VDM_new sample_constants) = false /\
  C_vev0 (SMConstants (Class_VDM_new sample_constants)) <> 0 /\
  idx sample_par 3 <> 0 /\
  (NHiggs * NHiggs <= length (repeat 1 36))%nat /\
  exists s',
    counterterms sample_instance (repeat 0 6) (repeat 1 36) = Ok s' /\
    forall i : nat,
      (i < NHiggs)%nat ->
      NablaCT s' i + idx (repeat 0 6) i = 0 /\
      NablaTree s' i + NablaCT s' i + idx (repeat 0 6) i = 0 /\
      Curvature_Higgs_L1 s' i + Curvature_Higgs_CT_L1 s' i
        + idx (repeat 0 6) i = dT_offset s' (repeat 1 36) i.
Proof.
  assert (Hv : C_vev0 (SMConstants (Class_VDM_new sample_constants)) <> 0)
    by (cbn; lra).
  assert (Hvs : idx sample_par 3 <> 0) by (cbv [idx nth sample_par]; lra).
  assert (Hlen : (NHiggs * NHiggs <= length (repeat 1 36))%nat)
    by (cbn; lia).
  repeat split; try assumption.
  exact (tadpoles_cancel_at_tree_VEV
           (Class_VDM_new sample_constants) sample_par no_couplings
           (repeat 0 6) (repeat 1 36) eq_refl Hv Hvs Hlen).
Defined.
(** ** Reading a record *)

Ltac set_gen_projection :=
  cbv zeta; intros; unfold set_gen; cbn [SetCurvatureDone];
  match goal with
  | |- context [negb (SetCurvatureDone ?s)] =>
      destruct (negb (SetCurvatureDone s)); reflexivity
  end.

Lemma set_gen_MH1 (s : Class_VDM) (par : list R) : MH1 (set_gen s par) = MH1 s.
Proof. set_gen_projection. Qed.

Lemma set_gen_MH2 (s : Class_VDM) (par : list R) : MH2 (set_gen s par) = MH2 s.
Proof. set_gen_projection. Qed.

Lemma set_gen_MX (s : Class_VDM) (par : list R) : MX (set_gen s par) = MX s.
Proof. set_gen_projection. Qed.

Lemma set_gen_alpha (s : Class_VDM) (par : list R) :
  alpha (set_gen s par) = alpha s.
Proof. set_gen_projection. Qed.

Lemma set_gen_gX (s : Class_VDM) (par : list R) :
  gX (set_gen s par) = idx par 5 / idx par 3.
Proof. set_gen_projection. Qed.

Lemma set_gen_scale (s : Class_VDM) (par : list R) :
  scale (set_gen s par) = C_vev0 (SMConstants s).
Proof. set_gen_projection. Qed.

Lemma set_gen_muHSq (s : Class_VDM) (par : list R) :
  let s' := set_gen s par in
  muHSq s' = vs s' * vs s' * kappa s' / 2 + v s' * v s' * lambdaH s'.
Proof. set_gen_projection. Qed.

Lemma set_gen_muSSq (s : Class_VDM) (par : list R) :
  let s' := set_gen s par in
  muSSq s' = kappa s' * v s' * v s' / 2 + lambdaS s' * vs s' * vs s'.
Proof. set_gen_projection. Qed.

Lemma read_loop_failed (n : nat) (toks : list token) (tmp : R) :
  read_loop n {| tokens := toks; failbit := true |} tmp = repeat tmp n.
Proof.
  induction n as [|n IH]; [reflexivity|].
  cbn [read_loop extract failbit repeat]. rewrite IH. reflexivity.
Qed.

Lemma last_cons (xs : list R) :
  forall x d : R, last (x :: xs) d = last xs x.
Proof.
  induction xs as [|r xs IH]; intros x d; [reflexivity|].
  change (last (x :: r :: xs) d) with (last (r :: xs) d).
  rewrite (IH r d), (IH r x). reflexivity.
Qed.

(** A record that ends early: every missing field repeats the last value
    that was read (or [tmp] if none was). *)
Lemma read_loop_short (xs : list R) :
  forall (n : nat) (tmp : R),
    (length xs <= n)%nat ->
    read_loop n (stringstream_of (map Num xs)) tmp
    = xs ++ repeat (last xs tmp) (n - length xs).
Proof.
  induction xs as [|x xs IH]; intros n tmp Hn.
  - destruct n as [|n]; [reflexivity|].
    cbn [map stringstream_of read_loop extract failbit tokens].
    rewrite read_loop_failed. reflexivity.
  - destruct n as [|n]; [cbn in Hn; lia|].
    cbn [map stringstream_of read_loop extract failbit tokens].
    fold (stringstream_of (map Num xs)).
    rewrite IH by (cbn in Hn; lia).
    rewrite last_cons. reflexivity.
Qed.

(** A record with a token that is not a number: that field and all later
    ones are zero. *)
Lemma read_loop_junk (xs : list R) (rest : list token) :
  forall (n : nat) (tmp : R),
    (length xs <= n)%nat ->
    read_loop n (stringstream_of (map Num xs ++ Junk :: rest)) tmp
    = xs ++ repeat 0 (n - length xs).
Proof.
  induction xs as [|x xs IH]; intros n tmp Hn.
  - destruct n as [|n]; [reflexivity|].
    cbn [map app stringstream_of read_loop extract failbit tokens].
    rewrite read_loop_failed. reflexivity.
  - destruct n as [|n]; [cbn in Hn; lia|].
    cbn [map app stringstream_of read_loop extract failbit tokens].
    fold (stringstream_of (map Num xs ++ Junk :: rest)).
    rewrite IH by (cbn in Hn; lia). reflexivity.
Qed.

Lemma ReadAndSet_fields_complete (s : Class_VDM) (tmp0 index : R)
  (f1 f2 f3 f4 f5 f6 : R) :
  ReadAndSet_fields s tmp0
    (with_index_col s index [Num f1; Num f2; Num f3; Num f4; Num f5; Num f6])
  = [f1; f2; f3; f4; f5; f6].
Proof.
  unfold ReadAndSet_fields, with_index_col.
  destruct (UseIndexCol s); reflexivity.
Qed.

Lemma ReadAndSet_par_full (s : Class_VDM) (par : list R) :
  length par = nPar ->
  ReadAndSet_par s par = [MH1 s; MH2 s; v s; vs s; alpha s; MX s].
Proof.
  intro Hlen.
  do 6 (destruct par as [|? par]; [discriminate Hlen|]).
  destruct par; [reflexivity | discriminate Hlen].
Qed.

Lemma ReadAndSet_complete (s : Class_VDM) (tmp0 index : R)
  (f1 f2 f3 f4 f5 f6 : R) (par : list R) :
  length par = nPar ->
  ReadAndSet s tmp0
    (with_index_col s index [Num f1; Num f2; Num f3; Num f4; Num f5; Num f6])
    par
  = Ok (set_gen (ReadAndSet_members s [f1; f2; f3; f4; f5; f6])
                [f1; f2; f5; f3 / f6; f4; f3],
        [f1; f2; f5; f3 / f6; f4; f3]).
Proof.
  intro Hlen. unfold ReadAndSet.
  rewrite ReadAndSet_fields_complete.
  rewrite (ReadAndSet_par_full _ par Hlen). reflexivity.
Qed.

(** C7, as stated, fails: read in the order it gives (masses, angle,
    electroweak VEV, hidden mass, coupling), the record below would set the
    angle to 0.3 and [MX] to 1000; the code sets [MX] to 0.3, the angle to
    246 and hands 1000 to [set_gen] as the electroweak VEV. *)
Lemma claimed_field_order_refuted :
  exists s par,
    ReadAndSet (Class_VDM_new sample_constants) 0
      [Num 95; Num 650; Num (3 / 10); Num 246; Num 1000; Num 1]
      (repeat 0 nPar)
    = Ok (s, par) /\
    ~ (MH1 s = 95 /\ MH2 s = 650 /\ alpha s = 3 / 10 /\ idx par 2 = 246
       /\ MX s = 1000).
Proof.
  eexists. eexists. split.
  - apply (ReadAndSet_complete (Class_VDM_new sample_constants) 0 0).
    reflexivity.
  - rewrite set_gen_alpha. cbv [ReadAndSet_members alpha idx nth]. lra.
Qed.

(** C7, amended.  After the optional index column, the six numeric fields
    of a record are read in the order: first mass, second mass, hidden
    vector mass MX, mixing angle, electroweak VEV, gauge coupling.  The
    hidden VEV is [MX / gX]; the fifth field is what [set_gen] receives as
    [par[2]] and divides the Higgs quartic coupling by. *)
Theorem ReadAndSet_field_order (s : Class_VDM) (tmp0 index : R)
  (f1 f2 f3 f4 f5 f6 : R) (par : list R) :
  length par = nPar ->
  exists s',
    ReadAndSet s tmp0
      (with_index_col s index
         [Num f1; Num f2; Num f3; Num f4; Num f5; Num f6])
      par
    = Ok (s', [f1; f2; f5; f3 / f6; f4; f3]) /\
    MH1 s' = f1 /\ MH2 s' = f2 /\ MX s' = f3 /\ alpha s' = f4 /\
    vs s' = f3 / f6 /\
    gX s' = f3 / (f3 / f6) /\
    lambdaH s' = (f1 * f1 * cos f4 * cos f4 + f2 * f2 * sin f4 * sin f4)
                 / (2 * f5 * f5).
Proof.
  intro Hlen. eexists. split; [apply ReadAndSet_complete, Hlen|].
  rewrite set_gen_MH1, set_gen_MH2, set_gen_MX, set_gen_alpha, set_gen_vs,
    set_gen_gX, set_gen_lambdaH.
  repeat split.
Qed.

Lemma ReadAndSet_field_order_witness :
  length (repeat 0 nPar) = nPar /\
  exists s',
    ReadAndSet (Class_VDM_new sample_constants) 0
      (with_index_col (Class_VDM_new sample_constants) 0
         [Num 95; Num 650; Num 1000; Num (3 / 10); Num 246; Num 1])
      (repeat 0 nPar)
    = Ok (s', [95; 650; 246; 1000 / 1; 3 / 10; 1000]) /\
    MH1 s' = 95 /\ MH2 s' = 650 /\ MX s' = 1000 /\ alpha s' = 3 / 10 /\
    vs s' = 1000 / 1 /\
    gX s' = 1000 / (1000 / 1) /\
    lambdaH s' = (95 * 95 * cos (3 / 10) * cos (3 / 10)
                  + 650 * 650 * sin (3 / 10) * sin (3 / 10))
                 / (2 * 246 * 246).
Proof.
  split; [reflexivity|].
  exact (ReadAndSet_field_order (Class_VDM_new sample_constants) 0 0
           95 650 1000 (3 / 10) 246 1 (repeat 0 nPar) eq_refl).
Defined.
(** ** Reparametrisation round trip *)

Lemma discriminant_nonneg (a b c : R) :
  0 <= (a - c) * (a - c) + 4 * b * b.
Proof.
  pose proof (Rle_0_sqr (a - c)) as H1. pose proof (Rle_0_sqr b) as H2.
  unfold Rsqr in *. lra.
Qed.

Lemma eigenvalue_product (a b c : R) :
  eigenvalue_lo a b c * eigenvalue_hi a b c = a * c - b * b.
Proof.
  unfold eigenvalue_lo, eigenvalue_hi.
  pose proof (sqrt_sqrt _ (discriminant_nonneg a b c)) as Hs.
  set (d := sqrt ((a - c) * (a - c) + 4 * b * b)) in *.
  nra.
Qed.

Lemma eigenvalue_lo_le_hi (a b c : R) :
  eigenvalue_lo a b c <= eigenvalue_hi a b c.
Proof.
  unfold eigenvalue_lo, eigenvalue_hi.
  pose proof (sqrt_pos ((a - c) * (a - c) + 4 * b * b)). lra.
Qed.

(** The block after [set_gen] on an instance whose gate is down: the input
    masses and angle enter through the couplings, which were normalised by
    [par[2]], while the VEV in the first direction is [C_vev0]. *)
Lemma mass_block_after_set_gen (s0 : Class_VDM) (par : list R) :
  SetCurvatureDone s0 = false ->
  idx par 2 <> 0 -> idx par 3 <> 0 ->
  let m1 := idx par 0 in
  let m2 := idx par 1 in
  let c := cos (idx par 4) in
  let s := sin (idx par 4) in
  let r := C_vev0 (SMConstants s0) / idx par 2 in
  mass_block (set_gen s0 par)
  = ((m1 * m1 * c * c + m2 * m2 * s * s) * (r * r),
     (m1 * m1 - m2 * m2) * s * c * r,
     m2 * m2 * c * c + m1 * m1 * s * s).
Proof.
  intros Hgate Hv Hvs m1 m2 c s r.
  destruct (HesseTree_populated _ (set_gen_populated s0 par Hgate))
    as (H22 & H24 & _ & H44).
  unfold mass_block. rewrite H22, H24, H44.
  rewrite set_gen_lambdaH, set_gen_kappa, set_gen_lambdaS, set_gen_v,
    set_gen_vs.
  subst m1 m2 c s r.
  f_equal; [f_equal|]; field; auto.
Qed.

Lemma block_determinant (m1 m2 c s r : R) :
  s * s + c * c = 1 ->
  (m1 * m1 * c * c + m2 * m2 * s * s) * (r * r)
  * (m2 * m2 * c * c + m1 * m1 * s * s)
  - (m1 * m1 - m2 * m2) * s * c * r * ((m1 * m1 - m2 * m2) * s * c * r)
  = r * r * (m1 * m1) * (m2 * m2).
Proof.
  intro H.
  replace (r * r * (m1 * m1) * (m2 * m2))
    with (r * r * (m1 * m1) * (m2 * m2) * ((s * s + c * c) * (s * s + c * c)))
    by (rewrite H; ring).
  ring.
Qed.

Lemma sin_cos_unit (x : R) : sin x * sin x + cos x * cos x = 1.
Proof. pose proof (sin2_cos2 x) as H. unfold Rsqr in H. exact H. Qed.

(** If both masses come out within [tol], the determinant of the block is
    bounded by the product of the tolerated squares. *)
Lemma roundtrip_bounds_determinant (tol m1 m2 a b c : R) :
  0 <= tol < 1 -> 0 < m1 -> 0 < m2 ->
  within tol m1 (mass_lo a b c) -> within tol m2 (mass_hi a b c) ->
  a * c - b * b
  <= (m1 * (1 + tol)) * (m1 * (1 + tol)) * ((m2 * (1 + tol)) * (m2 * (1 + tol))).
Proof.
  intros Htol Hm1 Hm2 Hlo Hhi.
  unfold within, mass_lo, mass_hi in *.
  rewrite (Rabs_pos_eq m1) in Hlo by lra.
  rewrite (Rabs_pos_eq m2) in Hhi by lra.
  pose proof (Rle_abs (sqrt (eigenvalue_lo a b c) - m1)) as Ulo.
  pose proof (Rle_abs (sqrt (eigenvalue_hi a b c) - m2)) as Uhi.
  pose proof (Rle_abs (m1 - sqrt (eigenvalue_lo a b c))) as Llo.
  rewrite (Rabs_minus_sym m1) in Llo.
  rewrite <- eigenvalue_product.
  pose proof (eigenvalue_lo_le_hi a b c) as Hle.
  destruct (Rle_or_lt (eigenvalue_lo a b c) 0) as [Hneg | Hpos].
  - rewrite (sqrt_neg_0 _ Hneg) in *. nra.
  - assert (H1 : sqrt (eigenvalue_lo a b c) * sqrt (eigenvalue_lo a b c)
                 = eigenvalue_lo a b c) by (apply sqrt_sqrt; lra).
    assert (H2 : sqrt (eigenvalue_hi a b c) * sqrt (eigenvalue_hi a b c)
                 = eigenvalue_hi a b c) by (apply sqrt_sqrt; lra).
    pose proof (sqrt_pos (eigenvalue_lo a b c)) as P1.
    pose proof (sqrt_pos (eigenvalue_hi a b c)) as P2.
    set (x := sqrt (eigenvalue_lo a b c)) in *.
    set (y := sqrt (eigenvalue_hi a b c)) in *.
    rewrite <- H1, <- H2.
    assert (Hx : x * x <= (m1 * (1 + tol)) * (m1 * (1 + tol))) by nra.
    assert (Hy : y * y <= (m2 * (1 + tol)) * (m2 * (1 + tol))) by nra.
    apply Rmult_le_compat; nra.
Qed.

(** With a consistent electroweak VEV the round trip is exact. *)
Lemma roundtrip_exact_when_vev_consistent (s0 : Class_VDM) (par : list R) :
  SetCurvatureDone s0 = false ->
  idx par 2 = C_vev0 (SMConstants s0) ->
  idx par 2 <> 0 -> idx par 3 <> 0 ->
  0 <= idx par 0 <= idx par 1 ->
  let '(a, b, c) := mass_block (set_gen s0 par) in
  mass_lo a b c = idx par 0 /\ mass_hi a b c = idx par 1.
Proof.
  intros Hgate Hcons Hv Hvs Hm.
  rewrite (mass_block_after_set_gen s0 par Hgate Hv Hvs).
  rewrite <- Hcons.
  replace (idx par 2 / idx par 2) with 1 by (field; exact Hv).
  pose proof (sin_cos_unit (idx par 4)) as Hcs.
  set (m1 := idx par 0) in *. set (m2 := idx par 1) in *.
  set (c := cos (idx par 4)) in *. set (s := sin (idx par 4)) in *.
  assert (Hd : sqrt (((m1 * m1 * c * c + m2 * m2 * s * s) * (1 * 1)
                      - (m2 * m2 * c * c + m1 * m1 * s * s))
                     * ((m1 * m1 * c * c + m2 * m2 * s * s) * (1 * 1)
                        - (m2 * m2 * c * c + m1 * m1 * s * s))
                     + 4 * ((m1 * m1 - m2 * m2) * s * c * 1)
                       * ((m1 * m1 - m2 * m2) * s * c * 1))
               = m2 * m2 - m1 * m1).
  { rewrite <- (sqrt_square (m2 * m2 - m1 * m1)) by nra.
    f_equal.
    transitivity ((m2 * m2 - m1 * m1) * (m2 * m2 - m1 * m1)
                  * ((s * s + c * c) * (s * s + c * c))); [ring|].
    rewrite Hcs. ring. }
  assert (E1 : m1 * m1 * c * c + m1 * m1 * s * s = m1 * m1)
    by (transitivity (m1 * m1 * (s * s + c * c)); [ring | rewrite Hcs; ring]).
  assert (E2 : m2 * m2 * c * c + m2 * m2 * s * s = m2 * m2)
    by (transitivity (m2 * m2 * (s * s + c * c)); [ring | rewrite Hcs; ring]).
  unfold mass_lo, mass_hi, eigenvalue_lo, eigenvalue_hi. rewrite Hd.
  split.
  - transitivity (sqrt (m1 * m1)); [f_equal; lra | apply sqrt_square; lra].
  - transitivity (sqrt (m2 * m2)); [f_equal; lra | apply sqrt_square; lra].
Qed.

(** At the same record the round trip does hold when [C_vev0] is the
    electroweak VEV of the record. *)
Lemma roundtrip_holds_with_consistent_constant :
  exists s par,
    ReadAndSet (Class_VDM_new sample_constants) 0 representative_record
      (repeat 0 nPar)
    = Ok (s, par) /\
    roundtrip (1 / 100000000) 95 650 s.
Proof.
  eexists. eexists. split.
  - apply (ReadAndSet_complete (Class_VDM_new sample_constants) 0 0).
    reflexivity.
  - unfold roundtrip.
    pose proof (roundtrip_exact_when_vev_consistent
                  (ReadAndSet_members (Class_VDM_new sample_constants)
                     [95; 650; 1000; 3 / 10; 246; 1])
                  [95; 650; 246; 1000 / 1; 3 / 10; 1000]) as H.
    destruct (mass_block _) as [[a b] c].
    cbv [idx nth] in H.
    destruct H as [Hlo Hhi];
      [reflexivity | reflexivity | lra | lra | lra |].
    unfold within. rewrite Hlo, Hhi.
    replace (95 - 95) with 0 by ring. replace (650 - 650) with 0 by ring.
    rewrite Rabs_R0, !Rabs_pos_eq by lra. lra.
Qed.

(** C1.  The round trip is broken at the representative point as soon as
    the Standard-Model constant [C_vev0] is not the electroweak VEV of the
    record: with [C_vev0 = 246.22] and the record (95, 650, MX = 1000,
    angle 0.3, v = 246, gX = 1), the masses obtained from the block (2,4) of
    the tree-level Hessian at the stored tree VEV are not both within 1e-8
    of 95 and 650.  [set_gen] divides the Higgs quartic coupling by the
    record's VEV and then expands around [C_vev0]. *)
Theorem roundtrip_fails_at_representative_point :
  exists s par,
    ReadAndSet (Class_VDM_new measured_constants) 0 representative_record
      (repeat 0 nPar)
    = Ok (s, par) /\
    ~ roundtrip (1 / 100000000) 95 650 s.
Proof.
  eexists. eexists. split.
  - apply (ReadAndSet_complete (Class_VDM_new measured_constants) 0 0).
    reflexivity.
  - unfold roundtrip.
    rewrite mass_block_after_set_gen;
      [| reflexivity | cbv [idx nth]; lra | cbv [idx nth]; lra].
    cbv [idx nth]. cbn [ReadAndSet_members SMConstants Class_VDM_new
                        measured_constants C_vev0].
    intros [Hlo Hhi].
    pose proof (roundtrip_bounds_determinant (1 / 100000000) 95 650 _ _ _
                  ltac:(lra) ltac:(lra) ltac:(lra) Hlo Hhi) as Hdet.
    rewrite block_determinant in Hdet by apply sin_cos_unit.
    lra.
Qed.

(** ** Malformed records *)

Lemma ReadAndSet_returns (s : Class_VDM) (tmp0 : R) (linestr : list token)
  (par : list R) :
  returns (ReadAndSet s tmp0 linestr par).
Proof. unfold ReadAndSet. eexists. reflexivity. Qed.

(** C8, as stated, fails: neither a record of two fields nor a record whose
    third token is not a number makes [ReadAndSet] signal anything. *)
Lemma malformed_record_not_signalled :
  ~ throws (ReadAndSet (Class_VDM_new sample_constants) 0
              [Num 95; Num 650] (repeat 0 nPar)) /\
  ~ throws (ReadAndSet (Class_VDM_new sample_constants) 0
              [Num 95; Num 650; Junk; Num (3 / 10); Num 246; Num 1]
              (repeat 0 nPar)).
Proof.
  split; intros [what Hthrow]; discriminate Hthrow.
Qed.

(** C8, amended.  [ReadAndSet] never signals a parse error.  On a record of
    fewer than six numeric fields it returns, and every missing field
    silently takes the last value read (the index column, or the
    indeterminate initial [tmp], if there was none); on a record with a
    token that is not a number it returns, and that field and every later
    one silently become zero. *)
Theorem ReadAndSet_keeps_going_on_malformed_record
  (s : Class_VDM) (tmp0 index : R) (par : list R) (xs : list R)
  (rest : list token) :
  (length xs < 6)%nat ->
  let short := with_index_col s index (map Num xs) in
  let junk := with_index_col s index (map Num xs ++ Junk :: rest) in
  returns (ReadAndSet s tmp0 short par) /\
  ReadAndSet_fields s tmp0 short
  = xs ++ repeat (last xs (if UseIndexCol s then index else tmp0))
                 (6 - length xs) /\
  returns (ReadAndSet s tmp0 junk par) /\
  ReadAndSet_fields s tmp0 junk = xs ++ repeat 0 (6 - length xs).
Proof.
  intros Hlen short junk.
  split; [apply ReadAndSet_returns|].
  split; [|split; [apply ReadAndSet_returns|]];
    unfold short, junk, ReadAndSet_fields, with_index_col;
    destruct (UseIndexCol s);
    cbn [stringstream_of extract failbit tokens];
    first [apply read_loop_short | apply read_loop_junk]; lia.
Qed.

Lemma ReadAndSet_keeps_going_on_malformed_record_witness :
  (length [95; 650] < 6)%nat /\
  let s := Class_VDM_new sample_constants in
  let short := with_index_col s 0 (map Num [95; 650]) in
  let junk := with_index_col s 0 (map Num [95; 650] ++ Junk :: [Num 1]) in
  returns (ReadAndSet s 0 short (repeat 0 nPar)) /\
  ReadAndSet_fields s 0 short
  = [95; 650] ++ repeat (last [95; 650] (if UseIndexCol s then 0 else 0))
                        (6 - length [95; 650]) /\
  returns (ReadAndSet s 0 junk (repeat 0 nPar)) /\
  ReadAndSet_fields s 0 junk = [95; 650] ++ repeat 0 (6 - length [95; 650]).
Proof.
  assert (Hlen : (length [95; 650] < 6)%nat) by (cbn; lia).
  split; [exact Hlen|].
  exact (ReadAndSet_keeps_going_on_malformed_record
           (Class_VDM_new sample_constants) 0 0 (repeat 0 nPar) [95; 650]
           [Num 1] Hlen).
Defined.

(** ** Degenerate divisors *)

(** C9, as stated, fails: a record with gauge coupling zero, and a record
    with electroweak VEV zero, go through [ReadAndSet] and [set_gen] without
    any failure. *)
Lemma zero_divisor_not_signalled :
  ~ throws (ReadAndSet (Class_VDM_new sample_constants) 0
              [Num 95; Num 650; Num 1000; Num (3 / 10); Num 246; Num 0]
              (repeat 0 nPar)) /\
  ~ throws (ReadAndSet (Class_VDM_new sample_constants) 0
              [Num 95; Num 650; Num 1000; Num (3 / 10); Num 0; Num 1]
              (repeat 0 nPar)).
Proof.
  split; intros [what Hthrow]; discriminate Hthrow.
Qed.

(** C9, amended.  [ReadAndSet] and [set_gen] test no divisor: for every
    complete record the call returns, whatever the values of the gauge
    coupling and of the VEVs, zero included; nothing is signalled.  When
    [MX], the electroweak VEV and the gauge coupling of the record are not
    zero, the hidden VEV is [MX / gX] and the couplings are the quotients as
    they stand. *)
Theorem ReadAndSet_divides_unchecked (s : Class_VDM) (tmp0 index : R)
  (f1 f2 f3 f4 f5 f6 : R) (par : list R) :
  length par = nPar ->
  returns (ReadAndSet s tmp0
             (with_index_col s index
                [Num f1; Num f2; Num f3; Num f4; Num f5; Num f6])
             par) /\
  (f3 <> 0 -> f5 <> 0 -> f6 <> 0 ->
   exists s' par',
     ReadAndSet s tmp0
       (with_index_col s index
          [Num f1; Num f2; Num f3; Num f4; Num f5; Num f6])
       par
     = Ok (s', par') /\
     vs s' = f3 / f6 /\
     vs s' <> 0 /\
     gX s' = f3 / (f3 / f6) /\
     lambdaH s' = (f1 * f1 * cos f4 * cos f4 + f2 * f2 * sin f4 * sin f4)
                  / (2 * f5 * f5) /\
     kappa s' = (f1 * f1 - f2 * f2) * sin f4 * cos f4 / (f5 * (f3 / f6)) /\
     lambdaS s' = (f2 * f2 * cos f4 * cos f4 + f1 * f1 * sin f4 * sin f4)
                  / (2 * (f3 / f6) * (f3 / f6))).
Proof.
  intro Hlen. split.
  - eexists. apply ReadAndSet_complete, Hlen.
  - intros HMX Hv HgX. eexists. eexists.
    split; [apply ReadAndSet_complete, Hlen|].
    rewrite set_gen_vs, set_gen_gX, set_gen_lambdaH, set_gen_kappa,
      set_gen_lambdaS.
    cbv [idx nth].
    assert (Hvs : f3 / f6 <> 0).
    { unfold Rdiv. apply Rmult_integral_contrapositive_currified;
        [exact HMX | apply Rinv_neq_0_compat, HgX]. }
    repeat split. exact Hvs.
Qed.

Lemma ReadAndSet_divides_unchecked_witness :
  length (repeat 0 nPar) = nPar /\
  1000 <> 0 /\ 246 <> 0 /\ 2 <> 0 /\
  returns (ReadAndSet (Class_VDM_new sample_constants) 0
             (with_index_col (Class_VDM_new sample_constants) 0
                [Num 95; Num 650; Num 1000; Num (3 / 10); Num 246; Num 2])
             (repeat 0 nPar)) /\
  exists s' par',
    ReadAndSet (Class_VDM_new sample_constants) 0
      (with_index_col (Class_VDM_new sample_constants) 0
         [Num 95; Num 650; Num 1000; Num (3 / 10); Num 246; Num 2])
      (repeat 0 nPar)
    = Ok (s', par') /\
    vs s' = 1000 / 2 /\
    vs s' <> 0 /\
    gX s' = 1000 / (1000 / 2) /\
    lambdaH s' = (95 * 95 * cos (3 / 10) * cos (3 / 10)
                  + 650 * 650 * sin (3 / 10) * sin (3 / 10))
                 / (2 * 246 * 246) /\
    kappa s' = (95 * 95 - 650 * 650) * sin (3 / 10) * cos (3 / 10)
               / (246 * (1000 / 2)) /\
    lambdaS s' = (650 * 650 * cos (3 / 10) * cos (3 / 10)
                  + 95 * 95 * sin (3 / 10) * sin (3 / 10))
                 / (2 * (1000 / 2) * (1000 / 2)).
Proof.
  assert (HMX : 1000 <> 0) by lra. assert (Hv : 246 <> 0) by lra.
  assert (HgX : 2 <> 0) by lra.
  destruct (ReadAndSet_divides_unchecked (Class_VDM_new sample_constants) 0 0
              95 650 1000 (3 / 10) 246 2 (repeat 0 nPar) eq_refl)
    as [Hret Hval].
  split; [reflexivity|]. split; [exact HMX|]. split; [exact Hv|].
  split; [exact HgX|]. split; [exact Hret | exact (Hval HMX Hv HgX)].
Defined.

(** ** The two electroweak VEVs of set_gen *)

(** C10.  For every instance and parameter vector, [set_gen] sets [v] (and
    the scale) to [C_vev0], computes [muHSq], [muSSq] and the tree-level VEV
    from that value, and computes [lambdaH] and [kappa] from [par[2]], which
    [ReadAndSet] fills with the fifth field of the record.  The value in
    the couplings and the stored [v] agree exactly when [par[2]] is
    [C_vev0]. *)
Theorem set_gen_mixes_two_electroweak_vevs (s : Class_VDM) (par : list R) :
  let s' := set_gen s par in
  let v0 := C_vev0 (SMConstants s) in
  v s' = v0 /\
  scale s' = v0 /\
  muHSq s' = vs s' * vs s' * kappa s' / 2 + v0 * v0 * lambdaH s' /\
  muSSq s' = kappa s' * v0 * v0 / 2 + lambdaS s' * vs s' * vs s' /\
  vevTreeMin s' = [v0; idx par 3] /\
  vevTree s' = [0; 0; v0; 0; idx par 3; 0] /\
  lambdaH s'
  = (idx par 0 * idx par 0 * cos (idx par 4) * cos (idx par 4) +
     idx par 1 * idx par 1 * sin (idx par 4) * sin (idx par 4)) /
    (2 * idx par 2 * idx par 2) /\
  kappa s'
  = (idx par 0 * idx par 0 - idx par 1 * idx par 1) *
    sin (idx par 4) * cos (idx par 4) / (idx par 2 * idx par 3) /\
  (idx par 2 = v s' <-> idx par 2 = v0) /\
  (forall (tmp0 index f1 f2 f3 f4 f5 f6 : R),
      ReadAndSet_par
        (ReadAndSet_members s
           (ReadAndSet_fields s tmp0
              (with_index_col s index
                 [Num f1; Num f2; Num f3; Num f4; Num f5; Num f6])))
        (repeat 0 nPar)
      = [f1; f2; f5; f3 / f6; f4; f3]).
Proof.
  cbv zeta.
  pose proof (set_gen_muHSq s par) as HmuH.
  pose proof (set_gen_muSSq s par) as HmuS.
  cbv zeta in HmuH, HmuS. rewrite set_gen_v in HmuH, HmuS.
  split; [apply set_gen_v|]. split; [apply set_gen_scale|].
  split; [exact HmuH|]. split; [exact HmuS|].
  split; [unfold set_gen; cbn [SetCurvatureDone];
          destruct (negb (SetCurvatureDone s)); reflexivity|].
  split; [apply set_gen_vevTree|]. split; [apply set_gen_lambdaH|].
  split; [apply set_gen_kappa|].
  split; [rewrite set_gen_v; tauto|].
  intros. rewrite ReadAndSet_fields_complete. reflexivity.
Qed.

(** ** Lifecycle gates *)

Lemma triples_in_range (i j k : nat) :
  In (i, j, k) triples ->
  (i < NHiggs)%nat /\ (j < NHiggs)%nat /\ (k < NHiggs)%nat.
Proof.
  unfold triples. intro H.
  apply in_flat_map in H. destruct H as (l & Hl & H).
  apply in_flat_map in H. destruct H as (m & Hm & H).
  apply in_map_iff in H. destruct H as (n & E & Hn).
  inversion E; subst. apply in_seq in Hl, Hm, Hn. lia.
Qed.

Lemma fill_GaugeBasis_returns (TripleDeriv : list R) :
  (NHiggs * NHiggs * NHiggs <= length TripleDeriv)%nat ->
  returns (fill_GaugeBasis TripleDeriv).
Proof.
  intro Hlen. unfold fill_GaugeBasis.
  rewrite (mapM_all_ok _
             (fun ijk => let '(i, j, k) := ijk in
                         idx TripleDeriv (i + j * NHiggs + k * NHiggs * NHiggs))).
  - eexists. reflexivity.
  - intros [[i j] k] Hin. apply triples_in_range in Hin.
    apply at_in_range.
    unfold NHiggs, NNeutralHiggs, NChargedHiggs in *. cbn in *. nia.
Qed.

Lemma TripleHiggsCouplings_returns (s : Class_VDM) (out : PhysicalCouplings)
  (TripleDeriv : list R) :
  curvature_reads_in_range s ->
  (NHiggs * NHiggs * NHiggs <= length TripleDeriv)%nat ->
  exists s',
    TripleHiggsCouplings s out TripleDeriv = Ok s' /\
    SetCurvatureDone s' = true /\
    CalcCouplingsdone s' = true /\
    Curvature_Higgs_L4 s'
    = Curvature_Higgs_L4
        (if SetCurvatureDone s then s else SetCurvatureArrays s).
Proof.
  intros _ Hlen. unfold TripleHiggsCouplings.
  destruct (fill_GaugeBasis_returns TripleDeriv Hlen) as [G HG].
  rewrite HG. cbn [bind]. eexists. split; [reflexivity|].
  cbn [SetCurvatureDone CalcCouplingsdone Curvature_Higgs_L4].
  destruct (SetCurvatureDone s) eqn:E1; cbn [negb];
    [destruct (CalcCouplingsdone s) eqn:E2|
     destruct (CalcCouplingsdone (SetCurvatureArrays s)) eqn:E2];
    cbn [negb]; auto.
Qed.

(** C5, as stated, fails: on an instance whose curvature is populated but
    whose couplings are not diagonalized, [TripleHiggsCouplings] does not
    fail. *)
Lemma TripleHiggsCouplings_not_gated :
  CalcCouplingsdone (set_gen (Class_VDM_new sample_constants) sample_par)
  = false /\
  ~ throws (TripleHiggsCouplings
              (set_gen (Class_VDM_new sample_constants) sample_par)
              no_couplings (repeat 0 216)).
Proof.
  split; [reflexivity|].
  apply returns_not_throws.
  destruct (TripleHiggsCouplings_returns
              (set_gen (Class_VDM_new sample_constants) sample_par)
              no_couplings (repeat 0 216)) as (s' & Hs' & _).
  - left. reflexivity.
  - rewrite repeat_length. cbn. lia.
  - exists s'. exact Hs'.
Qed.

(** C5, amended.  [calc_CT] is gated: with the curvature gate down (in
    particular on a freshly constructed instance), or with the curvature
    gate up and the couplings gate down, it throws the runtime error that
    names the missing step and returns no vector.  [TripleHiggsCouplings] is
    not gated and has no precondition error.  Where the curvature gate is up,
    or the tree-level VEV has been sized, and the third-derivative vector has
    full size, it returns, having run the missing step itself where a gate
    was down, so that both gates are up afterwards.  A freshly constructed
    instance is not among these: its tree-level VEV is unsized, and the
    [SetCurvatureArrays] that [TripleHiggsCouplings] starts there reads
    outside it. *)
Theorem calc_CT_gated_TripleHiggsCouplings_self_preparing
  (s : Class_VDM) (smConstants : ISMConstants) (out : PhysicalCouplings)
  (WeinbergNabla WeinbergHesse TripleDeriv : list R) :
  (SetCurvatureDone s = false ->
   calc_CT s WeinbergNabla WeinbergHesse
   = Throw what_before_SetCurvatureArrays) /\
  (SetCurvatureDone s = true -> CalcCouplingsdone s = false ->
   calc_CT s WeinbergNabla WeinbergHesse
   = Throw what_before_CalculatePhysicalCouplings) /\
  calc_CT (Class_VDM_new smConstants) WeinbergNabla WeinbergHesse
  = Throw what_before_SetCurvatureArrays /\
  (curvature_reads_in_range s ->
   (NHiggs * NHiggs * NHiggs <= length TripleDeriv)%nat ->
   exists s',
     TripleHiggsCouplings s out TripleDeriv = Ok s' /\
     SetCurvatureDone s' = true /\
     CalcCouplingsdone s' = true /\
     Curvature_Higgs_L4 s'
     = Curvature_Higgs_L4
         (if SetCurvatureDone s then s else SetCurvatureArrays s)) /\
  ~ curvature_reads_in_range (Class_VDM_new smConstants).
Proof.
  split; [|split; [|split; [|split]]].
  - intro H. unfold calc_CT. rewrite H. reflexivity.
  - intros H1 H2. unfold calc_CT. rewrite H1, H2. reflexivity.
  - reflexivity.
  - apply TripleHiggsCouplings_returns.
  - intros [H | H]; [discriminate H|].
    cbn in H. unfold NHiggs, NNeutralHiggs, NChargedHiggs in H. lia.
Qed.

Lemma calc_CT_gated_TripleHiggsCouplings_self_preparing_witness :
  let s := set_gen (Class_VDM_new sample_constants) sample_par in
  SetCurvatureDone s = true /\
  CalcCouplingsdone s = false /\
  curvature_reads_in_range s /\
  (NHiggs * NHiggs * NHiggs <= length (repeat 0 216))%nat /\
  calc_CT s (repeat 0 6) (repeat 1 36)
  = Throw what_before_CalculatePhysicalCouplings /\
  calc_CT (Class_VDM_new sample_constants) (repeat 0 6) (repeat 1 36)
  = Throw what_before_SetCurvatureArrays /\
  exists s',
    TripleHiggsCouplings s no_couplings (repeat 0 216) = Ok s' /\
    SetCurvatureDone s' = true /\
    CalcCouplingsdone s' = true /\
    Curvature_Higgs_L4 s'
    = Curvature_Higgs_L4
        (if SetCurvatureDone s then s else SetCurvatureArrays s).
Proof.
  intro s.
  assert (Hlen : (NHiggs * NHiggs * NHiggs <= length (repeat 0 216))%nat)
    by (rewrite repeat_length; cbn; lia).
  assert (Hrange : curvature_reads_in_range s) by (left; reflexivity).
  destruct (calc_CT_gated_TripleHiggsCouplings_self_preparing
              s sample_constants no_couplings
              (repeat 0 6) (repeat 1 36) (repeat 0 216))
    as (_ & Hcoup & Hnew & Htriple & _).
  split; [reflexivity|]. split; [reflexivity|]. split; [exact Hrange|].
  split; [exact Hlen|]. split; [exact (Hcoup eq_refl eq_refl)|].
  split; [exact Hnew | exact (Htriple Hrange Hlen)].
Defined.

(** ** Legend of the counterterms *)

Lemma set_CT_Pot_Par_target_sound (s : Class_VDM) (par : list R) (i : nat)
  (m : CT_member) :
  set_CT_Pot_Par_target i = Some m ->
  CT_member_value m (set_CT_Pot_Par s par) = idx par i.
Proof.
  unfold set_CT_Pot_Par_target. intro H.
  do 11 (destruct i as [|i];
         [inversion H; subst; reflexivity|]).
  destruct i; discriminate H.
Qed.

(** C6.  [addLegendCT] has eleven labels, but they do not follow the order
    in which [set_CT_Pot_Par] reads [par]: the labels at the positions 2, 3
    and 4 are dmuSSq, dlambdaS, dkappa, while [set_CT_Pot_Par] assigns
    [par[2]], [par[3]], [par[4]] to dkappa, dmuSSq, dlambdaS. *)
Theorem addLegendCT_order_differs_from_set_CT_Pot_Par :
  length addLegendCT = nParCT /\
  map legend_agrees (seq 0 nParCT)
  = [true; true; false; false; false; true; true; true; true; true; true] /\
  nth_error addLegendCT 2 = Some "dmuSSq"%string /\
  set_CT_Pot_Par_target 2 = Some m_dkappa /\
  (forall (s : Class_VDM) (par : list R),
      dkappa (set_CT_Pot_Par s par) = idx par 2 /\
      dmuSSq (set_CT_Pot_Par s par) = idx par 3 /\
      dlambdaS (set_CT_Pot_Par s par) = idx par 4).
Proof.
  repeat split.
Qed.

(** * Further properties *)

(** X1.  After [set_gen] on an instance whose curvature tensors were not yet
    set, the stored tree-level VEV is a stationary point of the tree-level
    potential: its gradient vanishes in all six field directions, for every
    parameter vector. *)
Theorem set_gen_tree_VEV_is_stationary (s : Class_VDM) (par : list R) (i : nat) :
  SetCurvatureDone s = false ->
  (i < NHiggs)%nat ->
  NablaTree (set_gen s par) i = 0.
Proof.
  intros Hgate Hi.
  apply (NablaTree_populated _ (set_gen_populated s par Hgate) i Hi).
Qed.

(** X2.  After [set_gen] on such an instance, the tree-level Hessian at the
    stored tree-level VEV vanishes at every entry outside the block of the
    two neutral fields 2 and 4: the four Goldstone directions are flat and
    do not mix with the block. *)
Theorem set_gen_goldstone_directions_flat (s : Class_VDM) (par : list R)
  (i j : nat) :
  SetCurvatureDone s = false ->
  (i < NHiggs)%nat -> (j < NHiggs)%nat ->
  in_mass_block i j = false ->
  HesseTree (set_gen s par) i j = 0.
Proof.
  intros Hgate Hi Hj Hout.
  destruct (set_gen_populated s par Hgate)
    as [_ Hvev _ HmuH HmuS _ HL2 HL3 HL4 _ _ _ _].
  unfold HesseTree, hessian. rewrite HL2, HL3, HL4, Hvev, HmuH, HmuS.
  field_index Hi; field_index Hj; try discriminate Hout; contract; field.
Qed.

Lemma set_gen_SMConstants (s : Class_VDM) (par : list R) :
  SMConstants (set_gen s par) = SMConstants s.
Proof.
  unfold set_gen. cbn [SetCurvatureDone].
  destruct (negb (SetCurvatureDone s)); reflexivity.
Qed.

Lemma set_gen_keeps_tensors (s : Class_VDM) (par : list R) :
  SetCurvatureDone s = true ->
  Curvature_Higgs_L1 (set_gen s par) = Curvature_Higgs_L1 s /\
  Curvature_Higgs_L2 (set_gen s par) = Curvature_Higgs_L2 s /\
  Curvature_Higgs_L3 (set_gen s par) = Curvature_Higgs_L3 s /\
  Curvature_Higgs_L4 (set_gen s par) = Curvature_Higgs_L4 s.
Proof.
  intro Hgate. unfold set_gen. cbn [SetCurvatureDone].
  rewrite Hgate. cbn [negb]. repeat split.
Qed.

(** X3.  [set_gen] on an instance that an earlier [set_gen] has populated
    leaves the curvature tensors at the couplings of the first parameter
    vector and moves the tree-level VEV to the second: the tree-level
    gradient at the new VEV is no longer zero but carries the difference of
    the squared hidden VEVs, in the two neutral directions 2 and 4. *)
Theorem set_gen_second_point_keeps_first_tensors (s0 : Class_VDM)
  (par1 par2 : list R) :
  SetCurvatureDone s0 = false ->
  let s1 := set_gen s0 par1 in
  let s2 := set_gen s1 par2 in
  Curvature_Higgs_L2 s2 = Curvature_Higgs_L2 s1 /\
  Curvature_Higgs_L4 s2 = Curvature_Higgs_L4 s1 /\
  vevTree s2 = [0; 0; C_vev0 (SMConstants s0); 0; idx par2 3; 0] /\
  NablaTree s2 2
  = kappa s1 * C_vev0 (SMConstants s0)
    * (idx par2 3 * idx par2 3 - idx par1 3 * idx par1 3) / 2 /\
  NablaTree s2 4
  = lambdaS s1 * idx par2 3
    * (idx par2 3 * idx par2 3 - idx par1 3 * idx par1 3).
Proof.
  intros Hgate s1 s2.
  pose proof (set_gen_populated s0 par1 Hgate) as Hpop. fold s1 in Hpop.
  destruct Hpop as [Hg Hvev _ HmuH HmuS HL1 HL2 HL3 HL4 _ _ _ _].
  destruct (set_gen_keeps_tensors s1 par2 Hg) as (E1 & E2 & E3 & E4).
  fold s2 in E1, E2, E3, E4.
  assert (Ev : vevTree s2 = [0; 0; C_vev0 (SMConstants s0); 0; idx par2 3; 0]).
  { unfold s2. rewrite set_gen_vevTree. unfold s1.
    rewrite set_gen_SMConstants. reflexivity. }
  split; [exact E2|]. split; [exact E4|]. split; [exact Ev|].
  unfold NablaTree, gradient.
  rewrite E1, E2, E3, E4, HL1, HL2, HL3, HL4, Ev, HmuH, HmuS.
  rewrite (set_gen_v s0 par1 : v s1 = _), (set_gen_vs s0 par1 : vs s1 = _).
  generalize (lambdaH s1) (kappa s1) (lambdaS s1) (idx par1 3) (idx par2 3)
             (C_vev0 (SMConstants s0)).
  intros lH k lS vs1 vs2 v.
  split; contract; field.
Qed.

(** ** More on ReadAndSet *)

Lemma read_loop_extra (xs : list R) (extra : list token) :
  forall (n : nat) (tmp : R),
    length xs = n ->
    read_loop n (stringstream_of (map Num xs ++ extra)) tmp = xs.
Proof.
  induction xs as [|x xs IH]; intros n tmp Hn.
  - subst n. reflexivity.
  - destruct n as [|n]; [discriminate Hn|].
    cbn [map app stringstream_of read_loop extract failbit tokens].
    fold (stringstream_of (map Num xs ++ extra)).
    rewrite IH by (cbn in Hn; lia). reflexivity.
Qed.

(** X4.  [ReadAndSet] reads the index column, if any, and six fields;
    whatever follows on the line, numeric or not, has no effect. *)
Theorem ReadAndSet_ignores_extra_fields (s : Class_VDM) (tmp0 index : R)
  (f1 f2 f3 f4 f5 f6 : R) (extra : list token) (par : list R) :
  ReadAndSet s tmp0
    (with_index_col s index
       ([Num f1; Num f2; Num f3; Num f4; Num f5; Num f6] ++ extra)) par
  = ReadAndSet s tmp0
      (with_index_col s index
         [Num f1; Num f2; Num f3; Num f4; Num f5; Num f6]) par.
Proof.
  unfold ReadAndSet. f_equal.
  assert (E : ReadAndSet_fields s tmp0
                (with_index_col s index
                   ([Num f1; Num f2; Num f3; Num f4; Num f5; Num f6] ++ extra))
              = [f1; f2; f3; f4; f5; f6]).
  { unfold ReadAndSet_fields, with_index_col.
    destruct (UseIndexCol s);
      cbn [stringstream_of extract failbit tokens app];
      apply (read_loop_extra [f1; f2; f3; f4; f5; f6] extra 6); reflexivity. }
  rewrite E, ReadAndSet_fields_complete. reflexivity.
Qed.

(** X5.  On a complete record with nonzero [MX] and [gX], the coupling that
    [set_gen] recomputes as [MX / vs] is the coupling of the record, and
    [MX = gX * vs] holds among the stored members. *)
Theorem ReadAndSet_recovers_gauge_coupling (s : Class_VDM) (tmp0 index : R)
  (f1 f2 f3 f4 f5 f6 : R) (par : list R) :
  length par = nPar ->
  f3 <> 0 -> f6 <> 0 ->
  exists s' par',
    ReadAndSet s tmp0
      (with_index_col s index
         [Num f1; Num f2; Num f3; Num f4; Num f5; Num f6]) par
    = Ok (s', par') /\
    gX s' = f6 /\ MX s' = gX s' * vs s'.
Proof.
  intros Hlen HMX HgX. eexists. eexists.
  split; [apply ReadAndSet_complete, Hlen|].
  rewrite set_gen_gX, set_gen_MX, set_gen_vs.
  cbv [idx nth ReadAndSet_members MX]. split; field; auto.
Qed.

(** X6.  Reading the same complete record a second time, on the instance
    and parameter vector the first reading produced, changes nothing. *)
Theorem ReadAndSet_twice (s : Class_VDM) (tmp0 tmp1 index : R)
  (f1 f2 f3 f4 f5 f6 : R) (par : list R) :
  length par = nPar ->
  SetCurvatureDone s = false ->
  let record := [Num f1; Num f2; Num f3; Num f4; Num f5; Num f6] in
  exists s' par',
    ReadAndSet s tmp0 (with_index_col s index record) par = Ok (s', par') /\
    ReadAndSet s' tmp1 (with_index_col s' index record) par' = Ok (s', par').
Proof.
  intros Hlen Hgate record. subst record.
  exists (set_gen (ReadAndSet_members s [f1; f2; f3; f4; f5; f6])
                  [f1; f2; f5; f3 / f6; f4; f3]).
  exists [f1; f2; f5; f3 / f6; f4; f3].
  split; [apply ReadAndSet_complete, Hlen|].
  rewrite ReadAndSet_complete by reflexivity.
  f_equal. f_equal.
  unfold set_gen. cbn [SetCurvatureDone ReadAndSet_members]. rewrite Hgate.
  cbn [negb SetCurvatureArrays initVectors SetCurvatureDone]. reflexivity.
Qed.

(** X7.  When the electroweak VEV of the record is the Standard-Model
    constant [C_vev0] (nonzero), and [MX] and [gX] are nonzero, the masses
    obtained from the block (2,4) of the tree-level Hessian at the stored
    tree-level VEV are exactly the two masses of the record. *)
Theorem ReadAndSet_roundtrip_when_vev_is_C_vev0 (s : Class_VDM)
  (tmp0 index : R) (f1 f2 f3 f4 f6 : R) (par : list R) :
  length par = nPar ->
  SetCurvatureDone s = false ->
  0 <= f1 <= f2 ->
  C_vev0 (SMConstants s) <> 0 -> f3 <> 0 -> f6 <> 0 ->
  exists s' par',
    ReadAndSet s tmp0
      (with_index_col s index
         [Num f1; Num f2; Num f3; Num f4; Num (C_vev0 (SMConstants s)); Num f6])
      par
    = Ok (s', par') /\
    let '(a, b, c) := mass_block s' in
    mass_lo a b c = f1 /\ mass_hi a b c = f2.
Proof.
  intros Hlen Hgate Hm Hv HMX HgX. eexists. eexists.
  split; [apply ReadAndSet_complete, Hlen|].
  apply (roundtrip_exact_when_vev_consistent
           (ReadAndSet_members s _) [f1; f2; _; f3 / f6; f4; f3]);
    cbv [idx nth]; try assumption; try reflexivity.
  unfold Rdiv. apply Rmult_integral_contrapositive_currified;
    [exact HMX | apply Rinv_neq_0_compat, HgX].
Qed.

(** X8.  With both gates up and a one-loop gradient of at least [NHiggs]
    entries (it is read unchecked), [calc_CT] returns exactly when the
    one-loop Hessian has at least [NHiggs * NHiggs] entries (otherwise the
    checked access throws), and a returned vector has [nParCT] entries. *)
Theorem calc_CT_returns_iff (s : Class_VDM) (WeinbergNabla WeinbergHesse : list R) :
  SetCurvatureDone s = true ->
  CalcCouplingsdone s = true ->
  (NHiggs <= length WeinbergNabla)%nat ->
  (returns (calc_CT s WeinbergNabla WeinbergHesse)
   <-> (NHiggs * NHiggs <= length WeinbergHesse)%nat) /\
  (forall parCT, calc_CT s WeinbergNabla WeinbergHesse = Ok parCT ->
                 length parCT = nParCT).
Proof.
  intros Hcurv Hcoup _. split; [split|].
  - intro Hret.
    destruct (le_lt_dec (NHiggs * NHiggs) (length WeinbergHesse))
      as [Hle | Hlt]; [exact Hle|].
    exfalso. revert Hret. apply throws_not_returns.
    unfold calc_CT. rewrite Hcurv, Hcoup. cbn [negb].
    destruct (fill_HesseWeinberg_short WeinbergHesse Hlt) as [w Hw].
    rewrite Hw. exists w. reflexivity.
  - intro Hlen. eexists.
    apply (calc_CT_returns s WeinbergNabla WeinbergHesse Hcurv Hcoup Hlen).
  - intros parCT H. unfold calc_CT in H. rewrite Hcurv, Hcoup in H.
    cbn [negb] in H.
    destruct (fill_HesseWeinberg WeinbergHesse) as [M|w]; cbn [bind] in H;
      [|discriminate H].
    inversion H. reflexivity.
Qed.

(** X9.  On an instance populated by [set_gen] and diagonalized, with
    nonzero VEVs, the Hessian of the counterterm potential at the tree-level
    VEV after [calc_CT] and [set_CT_Pot_Par] is, at every pair of field
    directions, minus [cancelled_entry]: the one-loop entries (2,2), (2,4)
    and (4,4), the entry (3,3) on the diagonal places 0, 1 and 3, the entry
    (5,5) on the diagonal place 5, and zero elsewhere. *)
Theorem counterterm_hessian_matrix
  (s0 : Class_VDM) (par0 : list R) (out : PhysicalCouplings)
  (WeinbergNabla WeinbergHesse : list R) :
  SetCurvatureDone s0 = false ->
  C_vev0 (SMConstants s0) <> 0 ->
  idx par0 3 <> 0 ->
  (NHiggs * NHiggs <= length WeinbergHesse)%nat ->
  let s := CalculatePhysicalCouplings out (set_gen s0 par0) in
  exists s',
    counterterms s WeinbergNabla WeinbergHesse = Ok s' /\
    forall i j : nat, (i < NHiggs)%nat -> (j < NHiggs)%nat ->
      HesseCT s' i j = - cancelled_entry WeinbergHesse i j.
Proof.
  intros Hgate Hv Hvs Hlen s.
  assert (Hpop : populated s)
    by (apply CalculatePhysicalCouplings_populated, set_gen_populated, Hgate).
  assert (Ev : v s = C_vev0 (SMConstants s0)) by apply set_gen_v.
  assert (Evs : vs s = idx par0 3) by apply set_gen_vs.
  rewrite <- Ev in Hv. rewrite <- Evs in Hvs.
  unfold counterterms.
  rewrite (calc_CT_returns s WeinbergNabla WeinbergHesse
             (pop_gate s Hpop) eq_refl Hlen).
  cbn [bind]. eexists. split; [reflexivity|].
  intros i j Hi Hj.
  destruct Hpop as [_ Hvev _ _ _ _ _ _ _ HC1 HC2 HC3 HC4].
  unfold HesseCT, hessian, set_CT_Pot_Par.
  cbn [Curvature_Higgs_CT_L2 Curvature_Higgs_CT_L3 Curvature_Higgs_CT_L4
       vevTree].
  rewrite HC2, HC3, HC4, Hvev.
  unfold cancelled_entry.
  generalize (HesseWeinberg WeinbergHesse) as H. intro H.
  generalize (v s) (vs s) Hv Hvs. clear - Hi Hj. intros v vs Hv Hvs.
  field_index Hi; field_index Hj;
    cbv [idx nth cancelled_entry in_mass_block Nat.eqb orb andb];
    contract; rewrite ?powerRZ_minus_two; field; auto.
Qed.

Lemma set_gen_tree_VEV_is_stationary_witness :
  SetCurvatureDone (Class_VDM_new sample_constants) = false /\
  (2 < NHiggs)%nat /\
  NablaTree (set_gen (Class_VDM_new sample_constants) sample_par) 2 = 0.
Proof.
  assert (H : (2 < NHiggs)%nat) by (cbv; lia).
  split; [reflexivity|]. split; [exact H|].
  exact (set_gen_tree_VEV_is_stationary (Class_VDM_new sample_constants)
           sample_par 2 eq_refl H).
Defined.

Lemma set_gen_goldstone_directions_flat_witness :
  SetCurvatureDone (Class_VDM_new sample_constants) = false /\
  (3 < NHiggs)%nat /\ (3 < NHiggs)%nat /\
  in_mass_block 3 3 = false /\
  HesseTree (set_gen (Class_VDM_new sample_constants) sample_par) 3 3 = 0.
Proof.
  assert (H : (3 < NHiggs)%nat) by (cbv; lia).
  split; [reflexivity|]. split; [exact H|]. split; [exact H|].
  split; [reflexivity|].
  exact (set_gen_goldstone_directions_flat (Class_VDM_new sample_constants)
           sample_par 3 3 eq_refl H H eq_refl).
Defined.

Lemma set_gen_second_point_keeps_first_tensors_witness :
  SetCurvatureDone (Class_VDM_new sample_constants) = false /\
  let s1 := set_gen (Class_VDM_new sample_constants) sample_par in
  let s2 := set_gen s1 second_par in
  Curvature_Higgs_L2 s2 = Curvature_Higgs_L2 s1 /\
  Curvature_Higgs_L4 s2 = Curvature_Higgs_L4 s1 /\
  vevTree s2
  = [0; 0; C_vev0 (SMConstants (Class_VDM_new sample_constants)); 0;
     idx second_par 3; 0] /\
  NablaTree s2 2
  = kappa s1 * C_vev0 (SMConstants (Class_VDM_new sample_constants))
    * (idx second_par 3 * idx second_par 3
       - idx sample_par 3 * idx sample_par 3) / 2 /\
  NablaTree s2 4
  = lambdaS s1 * idx second_par 3
    * (idx second_par 3 * idx second_par 3
       - idx sample_par 3 * idx sample_par 3).
Proof.
  split; [reflexivity|].
  exact (set_gen_second_point_keeps_first_tensors
           (Class_VDM_new sample_constants) sample_par second_par eq_refl).
Defined.

Lemma ReadAndSet_recovers_gauge_coupling_witness :
  length (repeat 0 nPar) = nPar /\ 1000 <> 0 /\ 2 <> 0 /\
  exists s' par',
    ReadAndSet (Class_VDM_new sample_constants) 0
      (with_index_col (Class_VDM_new sample_constants) 0
         [Num 95; Num 650; Num 1000; Num (3 / 10); Num 246; Num 2])
      (repeat 0 nPar)
    = Ok (s', par') /\
    gX s' = 2 /\ MX s' = gX s' * vs s'.
Proof.
  assert (H1 : 1000 <> 0) by lra. assert (H2 : 2 <> 0) by lra.
  split; [reflexivity|]. split; [exact H1|]. split; [exact H2|].
  exact (ReadAndSet_recovers_gauge_coupling (Class_VDM_new sample_constants)
           0 0 95 650 1000 (3 / 10) 246 2 (repeat 0 nPar) eq_refl H1 H2).
Defined.

Lemma ReadAndSet_twice_witness :
  length (repeat 0 nPar) = nPar /\
  SetCurvatureDone (Class_VDM_new sample_constants) = false /\
  let s := Class_VDM_new sample_constants in
  let record := [Num 95; Num 650; Num 1000; Num (3 / 10); Num 246; Num 1] in
  exists s' par',
    ReadAndSet s 0 (with_index_col s 0 record) (repeat 0 nPar)
    = Ok (s', par') /\
    ReadAndSet s' 7 (with_index_col s' 0 record) par' = Ok (s', par').
Proof.
  split; [reflexivity|]. split; [reflexivity|].
  exact (ReadAndSet_twice (Class_VDM_new sample_constants) 0 7 0
           95 650 1000 (3 / 10) 246 1 (repeat 0 nPar) eq_refl eq_refl).
Defined.

Lemma ReadAndSet_roundtrip_when_vev_is_C_vev0_witness :
  length (repeat 0 nPar) = nPar /\
  SetCurvatureDone (Class_VDM_new measured_constants) = false /\
  0 <= 95 <= 650 /\
  C_vev0 (SMConstants (Class_VDM_new measured_constants)) <> 0 /\
  1000 <> 0 /\ 1 <> 0 /\
  exists s' par',
    ReadAndSet (Class_VDM_new measured_constants) 0
      (with_index_col (Class_VDM_new measured_constants) 0
         [Num 95; Num 650; Num 1000; Num (3 / 10);
          Num (C_vev0 (SMConstants (Class_VDM_new measured_constants)));
          Num 1])
      (repeat 0 nPar)
    = Ok (s', par') /\
    let '(a, b, c) := mass_block s' in
    mass_lo a b c = 95 /\ mass_hi a b c = 650.
Proof.
  assert (Hm : 0 <= 95 <= 650) by lra.
  assert (Hv : C_vev0 (SMConstants (Class_VDM_new measured_constants)) <> 0)
    by (cbn; lra).
  assert (H1 : 1000 <> 0) by lra. assert (H2 : 1 <> 0) by lra.
  split; [reflexivity|]. split; [reflexivity|]. split; [exact Hm|].
  split; [exact Hv|]. split; [exact H1|]. split; [exact H2|].
  exact (ReadAndSet_roundtrip_when_vev_is_C_vev0
           (Class_VDM_new measured_constants) 0 0 95 650 1000 (3 / 10) 1
           (repeat 0 nPar) eq_refl eq_refl Hm Hv H1 H2).
Defined.

Lemma calc_CT_returns_iff_witness :
  SetCurvatureDone sample_instance = true /\
  CalcCouplingsdone sample_instance = true /\
  (NHiggs <= length (repeat 0 6))%nat /\
  (returns (calc_CT sample_instance (repeat 0 6) (repeat 1 35))
   <-> (NHiggs * NHiggs <= length (repeat 1 35))%nat) /\
  (forall parCT, calc_CT sample_instance (repeat 0 6) (repeat 1 35) = Ok parCT ->
                 length parCT = nParCT).
Proof.
  assert (Hnabla : (NHiggs <= length (repeat 0 6))%nat)
    by (cbv [NHiggs NNeutralHiggs NChargedHiggs]; cbn; lia).
  split; [reflexivity|]. split; [reflexivity|]. split; [exact Hnabla|].
  exact (calc_CT_returns_iff sample_instance (repeat 0 6) (repeat 1 35)
           eq_refl eq_refl Hnabla).
Defined.

Lemma counterterm_hessian_matrix_witness :
  SetCurvatureDone (Class_VDM_new sample_constants) = false /\
  C_vev0 (SMConstants (Class_VDM_new sample_constants)) <> 0 /\
  idx sample_par 3 <> 0 /\
  (NHiggs * NHiggs <= length (repeat 1 36))%nat /\
  exists s',
    counterterms sample_instance (repeat 0 6) (repeat 1 36) = Ok s' /\
    forall i j : nat, (i < NHiggs)%nat -> (j < NHiggs)%nat ->
      HesseCT s' i j = - cancelled_entry (repeat 1 36) i j.
Proof.
  assert (Hv : C_vev0 (SMConstants (Class_VDM_new sample_constants)) <> 0)
    by (cbn; lra).
  assert (Hvs : idx sample_par 3 <> 0) by (cbv [idx nth sample_par]; lra).
  assert (Hlen : (NHiggs * NHiggs <= length (repeat 1 36))%nat)
    by (cbn; lia).
  split; [reflexivity|]. split; [exact Hv|]. split; [exact Hvs|].
  split; [exact Hlen|].
  exact (counterterm_hessian_matrix (Class_VDM_new sample_constants)
           sample_par no_couplings (repeat 0 6) (repeat 1 36)
           eq_refl Hv Hvs Hlen).
Defined.

Lemma idx_vadd (a b : list R) (k : nat) :
  length a = length b -> idx (vadd a b) k = idx a k + idx b k.
Proof.
  unfold idx, vadd. revert b k.
  induction a as [|x a IH]; intros [|y b] k Hlen; try discriminate Hlen.
  - destruct k; cbn; ring.
  - destruct k as [|k]; cbn [combine map nth fst snd]; [reflexivity|].
    apply IH. cbn in Hlen. lia.
Qed.

Lemma vadd_length (a b : list R) :
  length a = length b -> length (vadd a b) = length a.
Proof.
  intro H. unfold vadd. rewrite length_map, length_combine, <- H.
  apply Nat.min_id.
Qed.

(** X10.  [calc_CT] is additive in the one-loop data: the counterterms of
    the sum of two gradients and two Hessians are the sums of the
    counterterms. *)
Theorem calc_CT_additive (s : Class_VDM) (N1 N2 W1 W2 : list R) :
  SetCurvatureDone s = true ->
  CalcCouplingsdone s = true ->
  length N1 = length N2 ->
  length W1 = length W2 ->
  (NHiggs * NHiggs <= length W1)%nat ->
  exists p1 p2,
    calc_CT s N1 W1 = Ok p1 /\
    calc_CT s N2 W2 = Ok p2 /\
    calc_CT s (vadd N1 N2) (vadd W1 W2) = Ok (vadd p1 p2).
Proof.
  intros Hcurv Hcoup HN HW Hlen.
  assert (Hlen2 : (NHiggs * NHiggs <= length W2)%nat) by (rewrite <- HW; exact Hlen).
  assert (Hlen12 : (NHiggs * NHiggs <= length (vadd W1 W2))%nat)
    by (rewrite vadd_length by exact HW; exact Hlen).
  eexists. eexists.
  split; [apply (calc_CT_returns s N1 W1 Hcurv Hcoup Hlen)|].
  split; [apply (calc_CT_returns s N2 W2 Hcurv Hcoup Hlen2)|].
  rewrite (calc_CT_returns s _ _ Hcurv Hcoup Hlen12).
  cbv zeta. unfold HesseWeinberg. rewrite !(idx_vadd W1 W2) by exact HW.
  rewrite !(idx_vadd N1 N2) by exact HN.
  cbn [vadd combine map fst snd]. unfold Rdiv.
  f_equal. repeat (apply f_equal2; [ring|]). reflexivity.
Qed.

Ltac run_gauge_assignments :=
  cbv [Curvature_Gauge_G2H2 assign4 fold_left store4
       Curvature_Gauge_G2H2_entries e4_i e4_j e4_k e4_l e4_x
       Nat.eqb Nat.add andb zero4].

(** X11.  The gauge tensor written by [SetCurvatureArrays] is symmetric
    under exchange of its two gauge indices and under exchange of its two
    Higgs indices, at all indices. *)
Theorem Curvature_Gauge_G2H2_symmetric (C_g C_gs gX : R) (a b i j : nat) :
  Curvature_Gauge_G2H2 C_g C_gs gX a b i j
  = Curvature_Gauge_G2H2 C_g C_gs gX b a i j /\
  Curvature_Gauge_G2H2 C_g C_gs gX a b i j
  = Curvature_Gauge_G2H2 C_g C_gs gX a b j i.
Proof.
  split_index a; split_index b; split_index i; split_index j;
    run_gauge_assignments; split; reflexivity.
Qed.

(** X12.  Contracted twice with the tree-level VEV stored by [set_gen]
    (hidden VEV nonzero), the gauge tensor is [gauge_mass_matrix]: the
    electroweak block with [C_vev0], and [2 * MX^2] for the dark vector,
    which does not mix with the electroweak bosons. *)
Theorem gauge_contraction_at_tree_VEV (C_g C_gs : R) (s : Class_VDM)
  (par : list R) (a b : nat) :
  SetCurvatureDone s = false ->
  idx par 3 <> 0 ->
  (a < NGauge)%nat -> (b < NGauge)%nat ->
  let s' := set_gen s par in
  gauge_contraction (Curvature_Gauge_G2H2 C_g C_gs (gX s')) (vevTree s') a b
  = gauge_mass_matrix C_g C_gs (idx par 5) (C_vev0 (SMConstants s)) a b.
Proof.
  intros Hgate Hvs Ha Hb. cbv zeta.
  rewrite set_gen_gX, set_gen_vevTree.
  generalize (idx par 5) (idx par 3) (C_vev0 (SMConstants s)) Hvs.
  intros MX vs v Hvs'.
  unfold NGauge in *.
  assert (Ca : (a = 0 \/ a = 1 \/ a = 2 \/ a = 3 \/ a = 4)%nat) by lia.
  assert (Cb : (b = 0 \/ b = 1 \/ b = 2 \/ b = 3 \/ b = 4)%nat) by lia.
  destruct Ca as [->|[->|[->|[->| ->]]]];
    destruct Cb as [->|[->|[->|[->| ->]]]];
    unfold gauge_contraction; run_gauge_assignments; contract;
    cbv [gauge_mass_matrix]; field; exact Hvs'.
Qed.

(** X13.  The block of the two neutral electroweak bosons (indices 2 and 3)
    of that contraction has determinant zero: one combination stays
    massless. *)
Theorem gauge_neutral_block_singular (C_g C_gs : R) (s : Class_VDM)
  (par : list R) :
  SetCurvatureDone s = false ->
  let s' := set_gen s par in
  let M := gauge_contraction (Curvature_Gauge_G2H2 C_g C_gs (gX s'))
             (vevTree s') in
  M 2%nat 2%nat * M 3%nat 3%nat - M 2%nat 3%nat * M 3%nat 2%nat = 0.
Proof.
  intros Hgate. cbv zeta.
  rewrite set_gen_gX, set_gen_vevTree.
  generalize (idx par 5) (idx par 3) (C_vev0 (SMConstants s)).
  intros MX vs v.
  unfold gauge_contraction; run_gauge_assignments; contract. field.
Qed.

Lemma calc_CT_additive_witness :
  SetCurvatureDone sample_instance = true /\
  CalcCouplingsdone sample_instance = true /\
  length (repeat 0 6) = length (repeat 1 6) /\
  length (repeat 1 36) = length (repeat 2 36) /\
  (NHiggs * NHiggs <= length (repeat 1 36))%nat /\
  exists p1 p2,
    calc_CT sample_instance (repeat 0 6) (repeat 1 36) = Ok p1 /\
    calc_CT sample_instance (repeat 1 6) (repeat 2 36) = Ok p2 /\
    calc_CT sample_instance (vadd (repeat 0 6) (repeat 1 6))
      (vadd (repeat 1 36) (repeat 2 36))
    = Ok (vadd p1 p2).
Proof.
  assert (Hlen : (NHiggs * NHiggs <= length (repeat 1 36))%nat)
    by (cbn; lia).
  split; [reflexivity|]. split; [reflexivity|]. split; [reflexivity|].
  split; [reflexivity|]. split; [exact Hlen|].
  exact (calc_CT_additive sample_instance (repeat 0 6) (repeat 1 6)
           (repeat 1 36) (repeat 2 36) eq_refl eq_refl eq_refl eq_refl Hlen).
Defined.

Lemma gauge_contraction_at_tree_VEV_witness :
  SetCurvatureDone (Class_VDM_new sample_constants) = false /\
  idx sample_par 3 <> 0 /\
  (4 < NGauge)%nat /\ (4 < NGauge)%nat /\
  let s' := set_gen (Class_VDM_new sample_constants) sample_par in
  gauge_contraction (Curvature_Gauge_G2H2 (65 / 100) (35 / 100) (gX s'))
    (vevTree s') 4 4
  = gauge_mass_matrix (65 / 100) (35 / 100) (idx sample_par 5)
      (C_vev0 (SMConstants (Class_VDM_new sample_constants))) 4 4.
Proof.
  assert (Hvs : idx sample_par 3 <> 0) by (cbv [idx nth sample_par]; lra).
  assert (H4 : (4 < NGauge)%nat) by (cbv; lia).
  split; [reflexivity|]. split; [exact Hvs|]. split; [exact H4|].
  split; [exact H4|].
  exact (gauge_contraction_at_tree_VEV (65 / 100) (35 / 100)
           (Class_VDM_new sample_constants) sample_par 4 4 eq_refl Hvs H4 H4).
Defined.

Lemma gauge_neutral_block_singular_witness :
  SetCurvatureDone (Class_VDM_new sample_constants) = false /\
  let s' := set_gen (Class_VDM_new sample_constants) sample_par in
  let M := gauge_contraction
             (Curvature_Gauge_G2H2 (65 / 100) (35 / 100) (gX s'))
             (vevTree s') in
  M 2%nat 2%nat * M 3%nat 3%nat - M 2%nat 3%nat * M 3%nat 2%nat = 0.
Proof.
  split; [reflexivity|].
  exact (gauge_neutral_block_singular (65 / 100) (35 / 100)
           (Class_VDM_new sample_constants) sample_par eq_refl).
Defined.

(** ** Finite sums over the field directions *)

Ltac expand_sumH :=
  cbv [sumH NHiggs NNeutralHiggs NChargedHiggs Nat.add seq fold_right].

Lemma sumH_ext (f g : nat -> R) :
  (forall i, (i < NHiggs)%nat -> f i = g i) -> sumH f = sumH g.
Proof.
  intro H. expand_sumH.
  rewrite (H 0%nat), (H 1%nat), (H 2%nat), (H 3%nat), (H 4%nat), (H 5%nat)
    by (cbv; lia).
  reflexivity.
Qed.

Lemma sumH_swap (f : nat -> nat -> R) :
  sumH (fun i => sumH (fun j => f i j)) = sumH (fun j => sumH (fun i => f i j)).
Proof. expand_sumH. ring. Qed.

Lemma sumH_scal (c : R) (f : nat -> R) :
  sumH (fun i => c * f i) = c * sumH f.
Proof. expand_sumH. ring. Qed.

(** The accumulation loop of the rotation, written as three nested sums,
    innermost index first. *)
Lemma rotate3_nested (Rot : tensor2) (T : tensor3) (i j k : nat) :
  rotate3 Rot T i j k
  = sumH (fun l => Rot i l *
      sumH (fun m => Rot j m *
        sumH (fun n => Rot k n * T l m n))).
Proof.
  unfold rotate3.
  cbv [triples flat_map map app fold_left
       sumH NHiggs NNeutralHiggs NChargedHiggs Nat.add seq fold_right].
  ring.
Qed.

Lemma orthogonal_contraction (Rot : tensor2) (x : nat -> R) :
  orthogonal Rot ->
  sumH (fun i => sumH (fun l => Rot i l * x l) * sumH (fun l => Rot i l * x l))
  = sumH (fun l => x l * x l).
Proof.
  intro Horth.
  transitivity
    (sumH (fun l => sumH (fun l' =>
       sumH (fun i => Rot i l * Rot i l') * (x l * x l')))).
  - expand_sumH. ring.
  - transitivity (sumH (fun l => sumH (fun l' => kronecker l l' * (x l * x l')))).
    + apply sumH_ext; intros l Hl. apply sumH_ext; intros l' Hl'.
      rewrite (Horth l l' Hl Hl'). reflexivity.
    + expand_sumH. cbv [kronecker Nat.eqb]. ring.
Qed.

Lemma rotate3_preserves_frobenius_norm (Rot : tensor2) (T : tensor3) :
  orthogonal Rot ->
  frobenius3 (rotate3 Rot T) = frobenius3 T.
Proof.
  intro Horth. unfold frobenius3.
  (* contract the first index *)
  transitivity
    (sumH (fun j => sumH (fun k => sumH (fun l =>
       sumH (fun m => Rot j m * sumH (fun n => Rot k n * T l m n))
       * sumH (fun m => Rot j m * sumH (fun n => Rot k n * T l m n)))))).
  { rewrite sumH_swap. apply sumH_ext; intros j _.
    rewrite sumH_swap. apply sumH_ext; intros k _.
    rewrite <- (orthogonal_contraction Rot
                  (fun l => sumH (fun m => Rot j m *
                     sumH (fun n => Rot k n * T l m n))) Horth).
    apply sumH_ext; intros i _. rewrite rotate3_nested. reflexivity. }
  (* contract the second index *)
  transitivity
    (sumH (fun k => sumH (fun l => sumH (fun m =>
       sumH (fun n => Rot k n * T l m n)
       * sumH (fun n => Rot k n * T l m n))))).
  { rewrite sumH_swap. apply sumH_ext; intros k _.
    rewrite sumH_swap. apply sumH_ext; intros l _.
    apply (orthogonal_contraction Rot
             (fun m => sumH (fun n => Rot k n * T l m n)) Horth). }
  (* contract the third index *)
  rewrite sumH_swap. apply sumH_ext; intros l _.
  rewrite sumH_swap. apply sumH_ext; intros m _.
  apply (orthogonal_contraction Rot (fun n => T l m n) Horth).
Qed.

Lemma rotate3_ext (Rot : tensor2) (T T' : tensor3) (i j k : nat) :
  (forall l m n, (l < NHiggs)%nat -> (m < NHiggs)%nat -> (n < NHiggs)%nat ->
                 T l m n = T' l m n) ->
  rotate3 Rot T i j k = rotate3 Rot T' i j k.
Proof.
  intro H. rewrite !rotate3_nested.
  apply sumH_ext; intros l Hl. f_equal.
  apply sumH_ext; intros m Hm. f_equal.
  apply sumH_ext; intros n Hn. f_equal. apply H; assumption.
Qed.

Lemma frobenius3_ext (T T' : tensor3) :
  (forall l m n, (l < NHiggs)%nat -> (m < NHiggs)%nat -> (n < NHiggs)%nat ->
                 T l m n = T' l m n) ->
  frobenius3 T = frobenius3 T'.
Proof.
  intro H. unfold frobenius3.
  apply sumH_ext; intros l Hl. apply sumH_ext; intros m Hm.
  apply sumH_ext; intros n Hn. rewrite (H l m n Hl Hm Hn). reflexivity.
Qed.

Lemma fill_GaugeBasis_ok (TripleDeriv : list R) :
  (NHiggs * NHiggs * NHiggs <= length TripleDeriv)%nat ->
  fill_GaugeBasis TripleDeriv
  = Ok (map (fun ijk => let '(i, j, k) := ijk in TripleDeriv_at TripleDeriv i j k)
            triples).
Proof.
  intro Hlen. unfold fill_GaugeBasis.
  apply mapM_all_ok.
  intros [[i j] k] Hin. apply triples_in_range in Hin.
  apply at_in_range.
  unfold NHiggs, NNeutralHiggs, NChargedHiggs in *. cbn in *. nia.
Qed.

Lemma GaugeBasis_entry (g : nat * nat * nat -> R) (i j k : nat) :
  (i < NHiggs)%nat -> (j < NHiggs)%nat -> (k < NHiggs)%nat ->
  idx (map g triples) (i * NHiggs * NHiggs + j * NHiggs + k) = g (i, j, k).
Proof.
  intros Hi Hj Hk. field_index Hi; field_index Hj; field_index Hk; reflexivity.
Qed.

(** What [TripleHiggsCouplings] computes on an instance with both gates up. *)
Lemma TripleHiggsCouplings_prepared (s : Class_VDM) (out : PhysicalCouplings)
  (TripleDeriv : list R) :
  SetCurvatureDone s = true ->
  CalcCouplingsdone s = true ->
  (NHiggs * NHiggs * NHiggs <= length TripleDeriv)%nat ->
  exists s',
    TripleHiggsCouplings s out TripleDeriv = Ok s' /\
    (forall i j k,
        TripleHiggsCorrectionsTreePhysical s' i j k
        = rotate3 (HiggsRotationMatrix s) (LambdaHiggs_3 s) i j k /\
        TripleHiggsCorrectionsCTPhysical s' i j k
        = rotate3 (HiggsRotationMatrix s) (LambdaHiggs_3_CT s) i j k /\
        TripleHiggsCorrectionsCWPhysical s' i j k
        = rotate3 (HiggsRotationMatrix s) (TripleDeriv_at TripleDeriv) i j k).
Proof.
  intros Hcurv Hcoup Hlen. unfold TripleHiggsCouplings.
  rewrite Hcurv. cbn [negb]. rewrite Hcoup. cbn [negb].
  rewrite (fill_GaugeBasis_ok _ Hlen). cbn [bind].
  eexists. split; [reflexivity|].
  intros i j k.
  cbn [TripleHiggsCorrectionsTreePhysical TripleHiggsCorrectionsCTPhysical
       TripleHiggsCorrectionsCWPhysical].
  split; [reflexivity|]. split; [reflexivity|].
  apply rotate3_ext. intros l m n Hl Hm Hn.
  rewrite GaugeBasis_entry by assumption. reflexivity.
Qed.

Lemma exchange01_orthogonal : orthogonal exchange01.
Proof.
  intros l l' Hl Hl'. field_index Hl; field_index Hl';
    expand_sumH; cbv [exchange01 kronecker Nat.eqb]; ring.
Qed.

Lemma large_TripleDeriv : (NHiggs * NHiggs * NHiggs <= length (repeat 1 216))%nat.
Proof. rewrite repeat_length. cbn. lia. Qed.

(** X14.  With an orthogonal rotation matrix, the sum of the squares of all
    entries of each of the three physical coupling tensors written by
    [TripleHiggsCouplings] is that of the tensor it was rotated from. *)
Theorem TripleHiggsCouplings_preserves_frobenius_norm
  (s : Class_VDM) (out : PhysicalCouplings) (TripleDeriv : list R) :
  SetCurvatureDone s = true ->
  CalcCouplingsdone s = true ->
  (NHiggs * NHiggs * NHiggs <= length TripleDeriv)%nat ->
  orthogonal (HiggsRotationMatrix s) ->
  exists s',
    TripleHiggsCouplings s out TripleDeriv = Ok s' /\
    frobenius3 (TripleHiggsCorrectionsTreePhysical s')
    = frobenius3 (LambdaHiggs_3 s) /\
    frobenius3 (TripleHiggsCorrectionsCTPhysical s')
    = frobenius3 (LambdaHiggs_3_CT s) /\
    frobenius3 (TripleHiggsCorrectionsCWPhysical s')
    = frobenius3 (TripleDeriv_at TripleDeriv).
Proof.
  intros Hcurv Hcoup Hlen Horth.
  destruct (TripleHiggsCouplings_prepared s out TripleDeriv Hcurv Hcoup Hlen)
    as (s' & Hs' & Hrot).
  exists s'. split; [exact Hs'|].
  repeat split;
    (etransitivity;
     [apply frobenius3_ext; intros l m n _ _ _; apply (Hrot l m n)
     |apply rotate3_preserves_frobenius_norm, Horth]).
Qed.

Lemma TripleHiggsCouplings_preserves_frobenius_norm_witness :
  SetCurvatureDone exchanged_instance = true /\
  CalcCouplingsdone exchanged_instance = true /\
  (NHiggs * NHiggs * NHiggs <= length (repeat 1 216))%nat /\
  orthogonal (HiggsRotationMatrix exchanged_instance) /\
  exists s',
    TripleHiggsCouplings exchanged_instance no_couplings (repeat 1 216)
    = Ok s' /\
    frobenius3 (TripleHiggsCorrectionsTreePhysical s')
    = frobenius3 (LambdaHiggs_3 exchanged_instance) /\
    frobenius3 (TripleHiggsCorrectionsCTPhysical s')
    = frobenius3 (LambdaHiggs_3_CT exchanged_instance) /\
    frobenius3 (TripleHiggsCorrectionsCWPhysical s')
    = frobenius3 (TripleDeriv_at (repeat 1 216)).
Proof.
  split; [reflexivity|]. split; [reflexivity|].
  split; [exact large_TripleDeriv|].
  split; [exact exchange01_orthogonal|].
  exact (TripleHiggsCouplings_preserves_frobenius_norm exchanged_instance
           no_couplings (repeat 1 216) eq_refl eq_refl large_TripleDeriv
           exchange01_orthogonal).
Defined.

(** X15.  With the identity as rotation matrix, [TripleHiggsCouplings]
    copies the couplings: the physical tree-level and counterterm couplings
    are [LambdaHiggs_3] and [LambdaHiggs_3_CT], and the physical one-loop
    coupling (i, j, k) is entry [i + j * NHiggs + k * NHiggs^2] of the vector
    of third derivatives. *)
Theorem TripleHiggsCouplings_identity_rotation
  (s : Class_VDM) (out : PhysicalCouplings) (TripleDeriv : list R) :
  SetCurvatureDone s = true ->
  CalcCouplingsdone s = true ->
  (NHiggs * NHiggs * NHiggs <= length TripleDeriv)%nat ->
  (forall i j, (i < NHiggs)%nat -> (j < NHiggs)%nat ->
               HiggsRotationMatrix s i j = kronecker i j) ->
  exists s',
    TripleHiggsCouplings s out TripleDeriv = Ok s' /\
    forall i j k, (i < NHiggs)%nat -> (j < NHiggs)%nat -> (k < NHiggs)%nat ->
      TripleHiggsCorrectionsTreePhysical s' i j k = LambdaHiggs_3 s i j k /\
      TripleHiggsCorrectionsCTPhysical s' i j k = LambdaHiggs_3_CT s i j k /\
      TripleHiggsCorrectionsCWPhysical s' i j k
      = idx TripleDeriv (i + j * NHiggs + k * NHiggs * NHiggs).
Proof.
  intros Hcurv Hcoup Hlen Hid.
  destruct (TripleHiggsCouplings_prepared s out TripleDeriv Hcurv Hcoup Hlen)
    as (s' & Hs' & Hrot).
  exists s'. split; [exact Hs'|].
  assert (Hpick : forall (x : nat -> R) i, (i < NHiggs)%nat ->
             sumH (fun l => HiggsRotationMatrix s i l * x l) = x i).
  { intros x i Hi.
    transitivity (sumH (fun l => kronecker i l * x l)).
    - apply sumH_ext; intros l Hl. rewrite (Hid i l Hi Hl). reflexivity.
    - field_index Hi; expand_sumH; cbv [kronecker Nat.eqb]; ring. }
  assert (Hone : forall (T : tensor3) i j k,
             (i < NHiggs)%nat -> (j < NHiggs)%nat -> (k < NHiggs)%nat ->
             rotate3 (HiggsRotationMatrix s) T i j k = T i j k).
  { intros T i j k Hi Hj Hk. rewrite rotate3_nested.
    rewrite (Hpick (fun l => sumH (fun m => HiggsRotationMatrix s j m *
                       sumH (fun n => HiggsRotationMatrix s k n * T l m n)))
               i Hi).
    rewrite (Hpick (fun m => sumH (fun n => HiggsRotationMatrix s k n * T i m n))
               j Hj).
    apply (Hpick (fun n => T i j n) k Hk). }
  intros i j k Hi Hj Hk. destruct (Hrot i j k) as (E1 & E2 & E3).
  rewrite E1, E2, E3, !Hone by assumption. repeat split.
Qed.

Lemma rotate3_swap12 (Rot : tensor2) (T : tensor3) (i j k : nat) :
  symmetric3 T -> rotate3 Rot T i j k = rotate3 Rot T j i k.
Proof.
  intro Hsym. rewrite !rotate3_nested.
  transitivity (sumH (fun l => sumH (fun m =>
                  Rot i l * (Rot j m * sumH (fun n => Rot k n * T l m n))))).
  { apply sumH_ext; intros l _. rewrite sumH_scal. reflexivity. }
  rewrite sumH_swap.
  apply sumH_ext; intros m Hm. rewrite <- sumH_scal.
  apply sumH_ext; intros l Hl.
  replace (sumH (fun n => Rot k n * T l m n))
    with (sumH (fun n => Rot k n * T m l n)).
  - ring.
  - apply sumH_ext; intros n Hn.
    rewrite (proj1 (Hsym l m n Hl Hm Hn)). reflexivity.
Qed.

Lemma rotate3_swap23 (Rot : tensor2) (T : tensor3) (i j k : nat) :
  symmetric3 T -> rotate3 Rot T i j k = rotate3 Rot T i k j.
Proof.
  intro Hsym. rewrite !rotate3_nested.
  apply sumH_ext; intros l Hl. f_equal.
  transitivity (sumH (fun m => sumH (fun n =>
                  Rot j m * (Rot k n * T l m n)))).
  { apply sumH_ext; intros m _. rewrite sumH_scal. reflexivity. }
  rewrite sumH_swap.
  apply sumH_ext; intros n Hn. rewrite <- sumH_scal.
  apply sumH_ext; intros m Hm.
  rewrite (proj2 (Hsym l m n Hl Hm Hn)). ring.
Qed.

(** X16.  If [LambdaHiggs_3] is symmetric under exchange of its indices, so
    is the physical tree-level coupling tensor that [TripleHiggsCouplings]
    writes, for every rotation matrix. *)
Theorem TripleHiggsCouplings_keeps_symmetry
  (s : Class_VDM) (out : PhysicalCouplings) (TripleDeriv : list R) :
  SetCurvatureDone s = true ->
  CalcCouplingsdone s = true ->
  (NHiggs * NHiggs * NHiggs <= length TripleDeriv)%nat ->
  symmetric3 (LambdaHiggs_3 s) ->
  exists s',
    TripleHiggsCouplings s out TripleDeriv = Ok s' /\
    forall i j k,
      TripleHiggsCorrectionsTreePhysical s' i j k
      = TripleHiggsCorrectionsTreePhysical s' j i k /\
      TripleHiggsCorrectionsTreePhysical s' i j k
      = TripleHiggsCorrectionsTreePhysical s' i k j.
Proof.
  intros Hcurv Hcoup Hlen Hsym.
  destruct (TripleHiggsCouplings_prepared s out TripleDeriv Hcurv Hcoup Hlen)
    as (s' & Hs' & Hrot).
  exists s'. split; [exact Hs'|].
  intros i j k.
  rewrite (proj1 (Hrot i j k)), (proj1 (Hrot j i k)), (proj1 (Hrot i k j)).
  split; [apply rotate3_swap12 | apply rotate3_swap23]; exact Hsym.
Qed.

Lemma exchange_couplings_symmetric :
  symmetric3 (LambdaHiggs_3 exchanged_instance).
Proof.
  intros l m n _ _ _. cbn [exchanged_instance CalculatePhysicalCouplings
                           LambdaHiggs_3 exchange_couplings out_LambdaHiggs_3].
  split; f_equal; lia.
Qed.

Lemma TripleHiggsCouplings_keeps_symmetry_witness :
  SetCurvatureDone exchanged_instance = true /\
  CalcCouplingsdone exchanged_instance = true /\
  (NHiggs * NHiggs * NHiggs <= length (repeat 1 216))%nat /\
  symmetric3 (LambdaHiggs_3 exchanged_instance) /\
  exists s',
    TripleHiggsCouplings exchanged_instance no_couplings (repeat 1 216)
    = Ok s' /\
    forall i j k,
      TripleHiggsCorrectionsTreePhysical s' i j k
      = TripleHiggsCorrectionsTreePhysical s' j i k /\
      TripleHiggsCorrectionsTreePhysical s' i j k
      = TripleHiggsCorrectionsTreePhysical s' i k j.
Proof.
  split; [reflexivity|]. split; [reflexivity|].
  split; [exact large_TripleDeriv|].
  split; [exact exchange_couplings_symmetric|].
  exact (TripleHiggsCouplings_keeps_symmetry exchanged_instance
           no_couplings (repeat 1 216) eq_refl eq_refl large_TripleDeriv
           exchange_couplings_symmetric).
Defined.

Lemma fill_GaugeBasis_short (TripleDeriv : list R) :
  (length TripleDeriv < NHiggs * NHiggs * NHiggs)%nat ->
  throws (fill_GaugeBasis TripleDeriv).
Proof.
  intro Hlen. unfold fill_GaugeBasis.
  apply (mapM_one_throws _ _ (5, 5, 5)%nat).
  - unfold triples. apply in_flat_map. exists 5%nat. split; [apply in_seq; cbv; lia|].
    apply in_flat_map. exists 5%nat. split; [apply in_seq; cbv; lia|].
    apply in_map_iff. exists 5%nat. split; [reflexivity | apply in_seq; cbv; lia].
  - exists "vector::_M_range_check"%string. apply at_out_of_range.
    cbv [NHiggs NNeutralHiggs NChargedHiggs] in *. cbn in *. lia.
Qed.

(** X17.  On an instance whose curvature gate is up, or whose tree-level
    VEV has been sized, [TripleHiggsCouplings] returns exactly when the
    vector of third derivatives has at least [NHiggs^3] entries, whatever
    the couplings gate is; it throws only from the checked access to that
    vector. *)
Theorem TripleHiggsCouplings_returns_iff
  (s : Class_VDM) (out : PhysicalCouplings) (TripleDeriv : list R) :
  curvature_reads_in_range s ->
  returns (TripleHiggsCouplings s out TripleDeriv)
  <-> (NHiggs * NHiggs * NHiggs <= length TripleDeriv)%nat.
Proof.
  intro Hrange. split.
  - intro Hret.
    destruct (le_lt_dec (NHiggs * NHiggs * NHiggs) (length TripleDeriv))
      as [Hle | Hlt]; [exact Hle|].
    exfalso. revert Hret. apply throws_not_returns.
    unfold TripleHiggsCouplings.
    destruct (fill_GaugeBasis_short TripleDeriv Hlt) as [w Hw].
    rewrite Hw. exists w. reflexivity.
  - intro Hlen.
    destruct (TripleHiggsCouplings_returns s out TripleDeriv Hrange Hlen)
      as (s' & Hs' & _).
    exists s'. exact Hs'.
Qed.

Lemma TripleHiggsCouplings_returns_iff_witness :
  curvature_reads_in_range
    (set_gen (Class_VDM_new sample_constants) sample_par) /\
  (returns (TripleHiggsCouplings
              (set_gen (Class_VDM_new sample_constants) sample_par)
              no_couplings (repeat 1 215))
   <-> (NHiggs * NHiggs * NHiggs <= length (repeat 1 215))%nat).
Proof.
  assert (Hrange : curvature_reads_in_range
                     (set_gen (Class_VDM_new sample_constants) sample_par))
    by (left; reflexivity).
  split; [exact Hrange|].
  exact (TripleHiggsCouplings_returns_iff
           (set_gen (Class_VDM_new sample_constants) sample_par)
           no_couplings (repeat 1 215) Hrange).
Defined.

Lemma TripleHiggsCouplings_identity_rotation_witness :
  SetCurvatureDone identity_instance = true /\
  CalcCouplingsdone identity_instance = true /\
  (NHiggs * NHiggs * NHiggs <= length (repeat 1 216))%nat /\
  (forall i j, (i < NHiggs)%nat -> (j < NHiggs)%nat ->
               HiggsRotationMatrix identity_instance i j = kronecker i j) /\
  exists s',
    TripleHiggsCouplings identity_instance no_couplings (repeat 1 216)
    = Ok s' /\
    forall i j k, (i < NHiggs)%nat -> (j < NHiggs)%nat -> (k < NHiggs)%nat ->
      TripleHiggsCorrectionsTreePhysical s' i j k
      = LambdaHiggs_3 identity_instance i j k /\
      TripleHiggsCorrectionsCTPhysical s' i j k
      = LambdaHiggs_3_CT identity_instance i j k /\
      TripleHiggsCorrectionsCWPhysical s' i j k
      = idx (repeat 1 216) (i + j * NHiggs + k * NHiggs * NHiggs).
Proof.
  split; [reflexivity|]. split; [reflexivity|].
  split; [exact large_TripleDeriv|].
  split; [intros i j _ _; reflexivity|].
  exact (TripleHiggsCouplings_identity_rotation identity_instance
           no_couplings (repeat 1 216) eq_refl eq_refl large_TripleDeriv
           (fun i j _ _ => eq_refl)).
Defined.

Lemma fermion_index_cases (a : nat) :
  a = 0%nat \/ a = 1%nat \/ a = 2%nat \/ a = 3%nat \/ a = 4%nat \/
  a = 5%nat \/ a = 6%nat \/ a = 7%nat \/ a = 8%nat \/ a = 9%nat \/
  a = 10%nat \/ a = 11%nat \/ exists a', a = (12 + a')%nat.
Proof.
  do 12 (destruct a as [|a]; [tauto|]).
  do 12 right. exists a. reflexivity.
Qed.

Ltac split_fermion a :=
  let H := fresh "H" in
  let a' := fresh a in
  destruct (fermion_index_cases a)
    as [H|[H|[H|[H|[H|[H|[H|[H|[H|[H|[H|[H|[a' H]]]]]]]]]]]]]; subst a.

Ltac run_yukawa_assignments :=
  cbv [Curvature_Lepton_F2H1 Curvature_Quark_F2H1 cassign3 fold_left cstore3
       Curvature_Lepton_F2H1_entries Curvature_Quark_F2H1_entries
       ec3_i ec3_j ec3_k ec3_x Nat.eqb Nat.add andb czero3].

(** X18.  The lepton and quark Yukawa tensors written by
    [SetCurvatureArrays] are symmetric under exchange of their two fermion
    indices, at all indices. *)
Theorem Yukawa_tensors_symmetric (K : YukawaConstants) (v : R) (a b k : nat) :
  Curvature_Lepton_F2H1 K v a b k = Curvature_Lepton_F2H1 K v b a k /\
  Curvature_Quark_F2H1 K v a b k = Curvature_Quark_F2H1 K v b a k.
Proof.
  split_fermion a; split_fermion b; split_index k;
    run_yukawa_assignments; split; reflexivity.
Qed.

Lemma complex_eq (z w : complex) : Re z = Re w -> Im z = Im w -> z = w.
Proof. destruct z, w. cbn. intros -> ->. reflexivity. Qed.

Ltac contract_yukawa :=
  cbv [yukawa_contraction NHiggs NNeutralHiggs NChargedHiggs Nat.add seq
       fold_right cadd cmulr cmul cdivr rmulc cneg conj of_real II Re Im];
  repeat match goal with
         | |- context [idx (?h :: ?t) ?n] =>
             let x := eval cbv [idx nth] in (idx (h :: t) n) in
             change (idx (h :: t) n) with x
         end.

(** X19.  Contracted with the tree-level VEV stored by [set_gen]
    ([C_vev0] nonzero), the Yukawa tensors are real and hold the fermion
    masses: each charged lepton and each quark is paired with its partner at
    its Standard-Model mass, the quark mixing matrix drops out, and every
    other entry is zero. *)
Theorem Yukawa_contraction_at_tree_VEV (K : YukawaConstants) (s : Class_VDM)
  (par : list R) (a b : nat) :
  SetCurvatureDone s = false ->
  C_vev0 (SMConstants s) <> 0 ->
  let s' := set_gen s par in
  yukawa_contraction (Curvature_Lepton_F2H1 K (v s')) (vevTree s') a b
  = of_real (lepton_mass K a b) /\
  yukawa_contraction (Curvature_Quark_F2H1 K (v s')) (vevTree s') a b
  = of_real (quark_mass K a b).
Proof.
  intros Hgate Hv. cbv zeta. rewrite set_gen_v, set_gen_vevTree.
  generalize (idx par 3) (C_vev0 (SMConstants s)) Hv. intros vs v Hv'.
  destruct K as [me mm mt mu md mc ms mtop mb
                 [? ?] [? ?] [? ?] [? ?] [? ?] [? ?] [? ?] [? ?] [? ?]].
  split_fermion a; split_fermion b;
    run_yukawa_assignments;
    cbv [C_MassElectron C_MassMu C_MassTau C_MassUp C_MassDown C_MassCharm
         C_MassStrange C_MassTop C_MassBottom C_Vud C_Vus C_Vub C_Vcd C_Vcs
         C_Vcb C_Vtd C_Vts C_Vtb lepton_mass quark_mass];
    contract_yukawa;
    split; apply complex_eq; cbn [Re Im]; field; exact Hv'.
Qed.

Lemma Yukawa_contraction_at_tree_VEV_witness :
  SetCurvatureDone (Class_VDM_new sample_constants) = false /\
  C_vev0 (SMConstants (Class_VDM_new sample_constants)) <> 0 /\
  let s' := set_gen (Class_VDM_new sample_constants) sample_par in
  yukawa_contraction (Curvature_Lepton_F2H1 sample_yukawa (v s'))
    (vevTree s') 4 5
  = of_real (lepton_mass sample_yukawa 4 5) /\
  yukawa_contraction (Curvature_Quark_F2H1 sample_yukawa (v s'))
    (vevTree s') 4 5
  = of_real (quark_mass sample_yukawa 4 5).
Proof.
  assert (Hv : C_vev0 (SMConstants (Class_VDM_new sample_constants)) <> 0)
    by (cbn; lra).
  split; [reflexivity|]. split; [exact Hv|].
  exact (Yukawa_contraction_at_tree_VEV sample_yukawa
           (Class_VDM_new sample_constants) sample_par 4 5 eq_refl Hv).
Defined.

Lemma starts_with_iff (prefix str : string) :
  starts_with prefix str = true <-> exists rest, str = (prefix ++ rest)%string.
Proof.
  revert str. induction prefix as [|c p IH]; intro str; cbn [starts_with].
  - split; [intros _; exists str; reflexivity | reflexivity].
  - destruct str as [|d s].
    + split; [discriminate | intros [rest H]; discriminate H].
    + rewrite andb_true_iff, IH. split.
      * intros [Hc [rest ->]]. apply Ascii.eqb_eq in Hc. subst d.
        exists rest. reflexivity.
      * intros [rest H]. cbn in H. inversion H; subst.
        split; [apply Ascii.eqb_refl | exists rest; reflexivity].
Qed.

Lemma sample_library_prefix_test : prefix_test sample_library.
Proof. intros str prefix. apply starts_with_iff. Qed.

Lemma and_then_Returned {A B : Type} (m : outcome A) (k : A -> outcome B)
  (b : B) :
  and_then m k = Returned b -> exists a, m = Returned a /\ k a = Returned b.
Proof.
  destruct m as [a|n|w]; cbn; intro H; try discriminate H.
  exists a. split; [reflexivity | exact H].
Qed.

(** X20.  A result that [getCLIArguments] returns comes from at least six
    arguments, the first of which is not [--help], and has a nonzero number
    of steps. *)
Theorem getCLIArguments_postcondition (L : CLI_library) (args : list string)
  (res : ReturnType L) :
  getCLIArguments L args = Returned res ->
  (6 <= length args)%nat /\
  arg_at args 0 <> "--help"%string /\
  NumberOfSteps res <> 0%Z.
Proof.
  unfold getCLIArguments. intro H.
  destruct ((0 <? length args)%nat && String.eqb (arg_at args 0) "--help")
    eqn:Ehelp; [discriminate H|].
  destruct (S (length args) <? 7)%nat eqn:Efew; [discriminate H|].
  apply Nat.ltb_ge in Efew.
  apply and_then_Returned in H. destruct H as (res' & _ & H).
  destruct (Z.eqb (NumberOfSteps res') 0) eqn:Ezero; [discriminate H|].
  inversion H; subst res'. apply Z.eqb_neq in Ezero.
  split; [lia|]. split; [|exact Ezero].
  intro Hhelp. rewrite Hhelp in Ehelp.
  apply andb_false_iff in Ehelp. destruct Ehelp as [E|E].
  - apply Nat.ltb_ge in E. lia.
  - discriminate E.
Qed.

Ltac step_cases H :=
  repeat match type of H with
         | context [if ?c then _ else _] =>
             let E := fresh "E" in destruct c eqn:E
         end.

Lemma string_drop_app (prefix rest : string) :
  string_drop (String.length prefix) (prefix ++ rest) = Some rest.
Proof. induction prefix as [|c p IH]; [reflexivity | exact IH]. Qed.

Lemma prefixed_argument_TerminalOutput (L : CLI_library)
  (res res' : ReturnType L) (arg : string) :
  prefix_test L ->
  prefixed_argument L res arg = Returned res' ->
  TerminalOutput res = false -> TerminalOutput res' = false.
Proof.
  intros Hprefix H Hres. unfold prefixed_argument in H.
  destruct (StringStartsWith L (transform_tolower arg) "--terminaloutput=")
    eqn:Eterm.
  - apply Hprefix in Eterm. destruct Eterm as [rest Erest].
    rewrite Erest in H.
    step_cases H;
      try (apply and_then_Returned in H; destruct H as (x & Hx & H));
      try (apply and_then_Returned in H; destruct H as (y & Hy & H));
      inversion H; subst res'; cbn [TerminalOutput set_Model set_Line
        set_NumberOfSteps set_InputFile set_OutputFile set_ConfigFile
        set_TerminalOutput set_vw]; try exact Hres.
    (* the terminal-output branch itself *)
    cbn in Hx. inversion Hx; subst x. reflexivity.
  - step_cases H;
      try (apply and_then_Returned in H; destruct H as (x & Hx & H));
      try (apply and_then_Returned in H; destruct H as (y & Hy & H));
      inversion H; subst res'; cbn [TerminalOutput set_Model set_Line
        set_NumberOfSteps set_InputFile set_OutputFile set_ConfigFile
        set_TerminalOutput set_vw]; exact Hres.
Qed.

Lemma prefixed_arguments_TerminalOutput (L : CLI_library) (args : list string) :
  prefix_test L ->
  forall res res' : ReturnType L,
    prefixed_arguments L res args = Returned res' ->
    TerminalOutput res = false -> TerminalOutput res' = false.
Proof.
  intro Hprefix. induction args as [|arg args IH]; intros res res' H Hres.
  - inversion H; subst. exact Hres.
  - cbn [prefixed_arguments] in H.
    apply and_then_Returned in H. destruct H as (res1 & H1 & H).
    apply (IH res1 res' H).
    apply (prefixed_argument_TerminalOutput L res res1 arg Hprefix H1 Hres).
Qed.

(** X21.  In the [--key=value] form, [TerminalOutput] is false in every
    returned result, whatever is given as [--terminaloutput=]: the value is
    taken from the position after a prefix of the length of [--lastline=]. *)
Theorem getCLIArguments_prefixed_TerminalOutput (L : CLI_library)
  (args : list string) (res : ReturnType L) :
  prefix_test L ->
  StringStartsWith L (arg_at args 0) "--" = true ->
  getCLIArguments L args = Returned res ->
  TerminalOutput res = false.
Proof.
  intros Hprefix Huse H. unfold getCLIArguments in H.
  destruct ((0 <? length args)%nat && String.eqb (arg_at args 0) "--help");
    [discriminate H|].
  destruct (S (length args) <? 7)%nat; [discriminate H|].
  rewrite Huse in H.
  apply and_then_Returned in H. destruct H as (res' & Hargs & H).
  destruct (Z.eqb (NumberOfSteps res') 0); [discriminate H|].
  inversion H; subst res'.
  apply (prefixed_arguments_TerminalOutput L args Hprefix _ _ Hargs).
  reflexivity.
Qed.

Lemma tolower_equals_sign (c : ascii) : tolower c = "="%char -> c = "="%char.
Proof.
  destruct c as [[] [] [] [] [] [] [] []]; cbv; intro H;
    first [reflexivity | discriminate H].
Qed.

Lemma prefixed_argument_ConfigFile (L : CLI_library)
  (res res' : ReturnType L) (arg : string) :
  prefix_test L ->
  prefixed_argument L res arg = Returned res' ->
  begins_with_equals_sign (ConfigFile res) ->
  begins_with_equals_sign (ConfigFile res').
Proof.
  intros Hprefix H Hres. unfold prefixed_argument in H.
  step_cases H;
    try (apply and_then_Returned in H; destruct H as (x & Hx & H));
    try (apply and_then_Returned in H; destruct H as (y & Hy & H));
    inversion H; subst res'; cbn [ConfigFile set_Model set_Line
      set_NumberOfSteps set_InputFile set_OutputFile set_ConfigFile
      set_TerminalOutput set_vw]; try exact Hres.
  (* the configuration branch *)
  match goal with
  | E : StringStartsWith L (transform_tolower arg) "--config=" = true |- _ =>
      apply Hprefix in E; destruct E as [rest Erest]
  end.
  right.
  do 9 (destruct arg as [|? arg]; [discriminate Erest|]).
  cbn in Erest, Hx. inversion Erest.
  match goal with
  | E : tolower _ = "="%char |- _ => apply tolower_equals_sign in E; subst
  end.
  inversion Hx. eexists. reflexivity.
Qed.

Lemma prefixed_arguments_ConfigFile (L : CLI_library) (args : list string) :
  prefix_test L ->
  forall res res' : ReturnType L,
    prefixed_arguments L res args = Returned res' ->
    begins_with_equals_sign (ConfigFile res) ->
    begins_with_equals_sign (ConfigFile res').
Proof.
  intro Hprefix. induction args as [|arg args IH]; intros res res' H Hres.
  - inversion H; subst. exact Hres.
  - cbn [prefixed_arguments] in H.
    apply and_then_Returned in H. destruct H as (res1 & H1 & H).
    apply (IH res1 res' H).
    apply (prefixed_argument_ConfigFile L res res1 arg Hprefix H1 Hres).
Qed.

(** X22.  In the [--key=value] form, the [ConfigFile] of a returned result
    is empty or begins with the equals sign: the value is taken from the
    position after [--config], one character early. *)
Theorem getCLIArguments_prefixed_ConfigFile (L : CLI_library)
  (args : list string) (res : ReturnType L) :
  prefix_test L ->
  StringStartsWith L (arg_at args 0) "--" = true ->
  getCLIArguments L args = Returned res ->
  begins_with_equals_sign (ConfigFile res).
Proof.
  intros Hprefix Huse H. unfold getCLIArguments in H.
  destruct ((0 <? length args)%nat && String.eqb (arg_at args 0) "--help");
    [discriminate H|].
  destruct (S (length args) <? 7)%nat; [discriminate H|].
  rewrite Huse in H.
  apply and_then_Returned in H. destruct H as (res' & Hargs & H).
  destruct (Z.eqb (NumberOfSteps res') 0); [discriminate H|].
  inversion H; subst res'.
  apply (prefixed_arguments_ConfigFile L args Hprefix _ _ Hargs).
  left. reflexivity.
Qed.

(** X23.  In the positional form, with at least six arguments and numbers
    that parse, the result holds the model, the input file, the output file,
    the line, the number of steps and the configuration file in this order
    and the default wall velocity; [TerminalOutput] is set exactly when
    there are seven arguments and the sixth, the configuration file, is
    [y]. *)
Theorem getCLIArguments_positional (L : CLI_library) (args : list string)
  (line steps : Z) :
  (6 <= length args)%nat ->
  StringStartsWith L (arg_at args 0) "--" = false ->
  arg_at args 0 <> "--help"%string ->
  stoi L (arg_at args 3) = Ok line ->
  stoi L (arg_at args 4) = Ok steps ->
  steps <> 0%Z ->
  exists res,
    getCLIArguments L args = Returned res /\
    Model res = getModel L (arg_at args 0) /\
    InputFile res = arg_at args 1 /\
    OutputFile res = arg_at args 2 /\
    Line res = line /\
    NumberOfSteps res = steps /\
    ConfigFile res = arg_at args 5 /\
    vw res = 1 / 10 /\
    TerminalOutput res
    = (Nat.eqb (length args) 7 && String.eqb (arg_at args 5) "y").
Proof.
  intros Hlen Huse Hhelp Hline Hsteps Hnz.
  unfold getCLIArguments.
  apply String.eqb_neq in Hhelp. rewrite Hhelp, andb_false_r.
  replace (S (length args) <? 7)%nat with false
    by (symmetry; apply Nat.ltb_ge; lia).
  rewrite Huse. unfold positional_arguments.
  rewrite Hline, Hsteps. cbn [of_result and_then].
  change (Nat.eqb (S (length args)) 8) with (Nat.eqb (length args) 7).
  apply Z.eqb_neq in Hnz.
  destruct (Nat.eqb (length args) 7); cbn [and_then NumberOfSteps
    set_TerminalOutput set_ConfigFile set_NumberOfSteps];
    rewrite Hnz; eexists; (split; [reflexivity|]);
    cbn [Model InputFile OutputFile Line NumberOfSteps ConfigFile vw
         TerminalOutput set_TerminalOutput set_ConfigFile set_NumberOfSteps
         set_Line set_OutputFile set_InputFile set_Model ReturnType_default
         andb];
    repeat split.
  apply String.eqb_sym.
Qed.

(** X24.  Every factor by which [main] scales the renormalisation scale
    lies in the interval from 1/2 (included) to 3/2 (excluded). *)
Theorem mu_factors_range (NumberOfSteps : Z) (f : R) :
  In f (mu_factors NumberOfSteps) -> 1 / 2 <= f < 3 / 2.
Proof.
  unfold mu_factors. intro H. apply in_map_iff in H.
  destruct H as (step & <- & Hstep). apply in_seq in Hstep.
  assert (HN : (0 < NumberOfSteps)%Z) by lia.
  assert (Hs : (0 <= Z.of_nat step < NumberOfSteps)%Z) by lia.
  assert (HNr : 0 < IZR NumberOfSteps) by (apply IZR_lt; exact HN).
  assert (Hs0 : 0 <= IZR (Z.of_nat step)) by (apply IZR_le; lia).
  assert (Hs1 : IZR (Z.of_nat step) < IZR NumberOfSteps)
    by (apply IZR_lt; lia).
  assert (Hq0 : 0 <= IZR (Z.of_nat step) / IZR NumberOfSteps).
  { apply Rmult_le_pos; [exact Hs0|]. left. apply Rinv_0_lt_compat, HNr. }
  assert (Hq1 : IZR (Z.of_nat step) / IZR NumberOfSteps < 1).
  { apply (Rmult_lt_reg_r (IZR NumberOfSteps)); [exact HNr|].
    unfold Rdiv. rewrite Rmult_assoc, Rinv_l by lra. lra. }
  lra.
Qed.

Lemma prefixed_command_line_parsed :
  getCLIArguments sample_library prefixed_command_line
  = Returned prefixed_result.
Proof. reflexivity. Qed.

Lemma getCLIArguments_postcondition_witness :
  getCLIArguments sample_library prefixed_command_line
  = Returned prefixed_result /\
  (6 <= length prefixed_command_line)%nat /\
  arg_at prefixed_command_line 0 <> "--help"%string /\
  NumberOfSteps prefixed_result <> 0%Z.
Proof.
  split; [exact prefixed_command_line_parsed|].
  exact (getCLIArguments_postcondition sample_library prefixed_command_line
           prefixed_result prefixed_command_line_parsed).
Defined.

Lemma getCLIArguments_prefixed_TerminalOutput_witness :
  prefix_test sample_library /\
  StringStartsWith sample_library (arg_at prefixed_command_line 0) "--" = true /\
  getCLIArguments sample_library prefixed_command_line
  = Returned prefixed_result /\
  TerminalOutput prefixed_result = false.
Proof.
  split; [exact sample_library_prefix_test|]. split; [reflexivity|].
  split; [exact prefixed_command_line_parsed|].
  exact (getCLIArguments_prefixed_TerminalOutput sample_library
           prefixed_command_line prefixed_result sample_library_prefix_test
           eq_refl prefixed_command_line_parsed).
Defined.

Lemma getCLIArguments_prefixed_ConfigFile_witness :
  prefix_test sample_library /\
  StringStartsWith sample_library (arg_at prefixed_command_line 0) "--" = true /\
  getCLIArguments sample_library prefixed_command_line
  = Returned prefixed_result /\
  begins_with_equals_sign (ConfigFile prefixed_result).
Proof.
  split; [exact sample_library_prefix_test|]. split; [reflexivity|].
  split; [exact prefixed_command_line_parsed|].
  exact (getCLIArguments_prefixed_ConfigFile sample_library
           prefixed_command_line prefixed_result sample_library_prefix_test
           eq_refl prefixed_command_line_parsed).
Defined.

Lemma getCLIArguments_positional_witness :
  (6 <= length positional_command_line)%nat /\
  StringStartsWith sample_library (arg_at positional_command_line 0) "--"
  = false /\
  arg_at positional_command_line 0 <> "--help"%string /\
  stoi sample_library (arg_at positional_command_line 3) = Ok 2%Z /\
  stoi sample_library (arg_at positional_command_line 4) = Ok 10%Z /\
  10%Z <> 0%Z /\
  exists res,
    getCLIArguments sample_library positional_command_line = Returned res /\
    Model res = getModel sample_library (arg_at positional_command_line 0) /\
    InputFile res = arg_at positional_command_line 1 /\
    OutputFile res = arg_at positional_command_line 2 /\
    Line res = 2%Z /\
    NumberOfSteps res = 10%Z /\
    ConfigFile res = arg_at positional_command_line 5 /\
    vw res = 1 / 10 /\
    TerminalOutput res
    = (Nat.eqb (length positional_command_line) 7
       && String.eqb (arg_at positional_command_line 5) "y").
Proof.
  assert (Hlen : (6 <= length positional_command_line)%nat) by (cbn; lia).
  assert (Hhelp : arg_at positional_command_line 0 <> "--help"%string)
    by discriminate.
  assert (Hnz : 10%Z <> 0%Z) by discriminate.
  split; [exact Hlen|]. split; [reflexivity|]. split; [exact Hhelp|].
  split; [reflexivity|]. split; [reflexivity|]. split; [exact Hnz|].
  exact (getCLIArguments_positional sample_library positional_command_line
           2 10 Hlen eq_refl Hhelp eq_refl eq_refl Hnz).
Defined.

Lemma mu_factors_range_witness :
  In (1 / 2 + IZR (Z.of_nat 3) / IZR 4) (mu_factors 4) /\
  1 / 2 <= 1 / 2 + IZR (Z.of_nat 3) / IZR 4 < 3 / 2.
Proof.
  assert (H : In (1 / 2 + IZR (Z.of_nat 3) / IZR 4) (mu_factors 4)).
  { unfold mu_factors. apply in_map_iff. exists 3%nat.
    split; [reflexivity | apply in_seq; cbn; lia]. }
  split; [exact H|].
  exact (mu_factors_range 4 _ H).
Defined.
